(** * thetadata-api: expiration selection, zero/gap repair and spot-proxy derivation

    A shallow embedding of [calendar_utils.py], [corrector.py] and the
    derivation routine of [client.py] (with the [UnderlyingData] guard of
    [models.py]), followed by the properties stated for them; then the
    worker of [bulk.py], the session of [realtime.py], the checks of
    [utils.py] and the pipelines of [pipeline.py], with further
    properties of all of them. *)

From Equations Require Import Equations.
From stdpp Require Import gmap strings list sorting.
From Stdlib Require Import ZArith Lia Ascii.
Local Open Scope Z_scope.

(** ** Python strings *)

(** [a <= b] on [str]: lexicographic by code point. *)
Definition str_le (a b : string) : Prop := String.leb a b = true.

#[global] Instance str_le_dec a b : Decision (str_le a b).
Proof. unfold str_le. apply _. Defined.

(** [s.replace] of every dash by nothing *)
Fixpoint remove_dashes (s : string) : string :=
  match s with
  | EmptyString => EmptyString
  | String c s' =>
      if Ascii.eqb c "-"%char then remove_dashes s' else String c (remove_dashes s')
  end.

(** ** calendar_utils.py *)

Module CalendarUtils.

(** A [datetime.date] is represented by its proleptic Gregorian ordinal
    ([date.toordinal()]); adding [timedelta(days=n)] is integer addition.
    Dates are taken far enough from [date.min] and [date.max] that this
    arithmetic stays in range. *)
Abbreviation date := Z (only parsing).

(** [date.weekday()]: Monday is 0 and Sunday is 6. *)
Definition weekday (d : date) : Z := (d + 6) mod 7.

Definition is_leap (y : Z) : bool :=
  (y mod 4 =? 0) && (negb (y mod 100 =? 0) || (y mod 400 =? 0)).

Definition days_before_year (y : Z) : Z :=
  (y - 1) * 365 + (y - 1) / 4 - (y - 1) / 100 + (y - 1) / 400.

Definition days_in_month (y m : Z) : Z :=
  if m =? 2 then (if is_leap y then 29 else 28)
  else if (m =? 4) || (m =? 6) || (m =? 9) || (m =? 11) then 30
  else 31.

Definition days_before_month (y m : Z) : Z :=
  foldr (fun k acc => days_in_month y k + acc) 0
        (Z.of_nat <$> seq 1 (Z.to_nat (m - 1))).

(** [date(y, m, d).toordinal()] *)
Definition ymd (y m d : Z) : date :=
  days_before_year y + days_before_month y m + d.

(** The [while candidate >= friday - 4] loop of [last_trading_day_of_week]. *)
Equations? scan_back (friday candidate : date) (closed_dates : gset Z) : option date
  by wf (Z.to_nat (candidate - friday + 5)) lt :=
  scan_back friday candidate closed_dates :=
    if decide (candidate >= friday - 4) then
      if decide (weekday candidate < 5 ∧ candidate ∉ closed_dates)
      then Some candidate
      else scan_back friday (candidate - 1) closed_dates
    else None.
Proof. lia. Qed.

Definition last_trading_day_of_week (current : date) (closed_dates : gset Z)
  : option date :=
  let friday := current + (4 - weekday current) in
  scan_back friday friday closed_dates.

Definition wednesday_of_week (current : date) : date :=
  current + (2 - weekday current).

(** The [for _ in range(45)] loop of [get_next_valid_vix_expiration]. *)
Fixpoint next_loop (n : nat) (candidate : date) (avail_set : gset Z) : option date :=
  match n with
  | O => None
  | S n' =>
      if decide (candidate ∈ avail_set) then Some candidate
      else next_loop n' (candidate + 1) avail_set
  end.

Definition get_next_valid_vix_expiration (current_date : date) (avail_set : gset Z)
  : option date :=
  next_loop 45 (current_date + 1) avail_set.

(** [targets.add(x)] when the optional date is present. *)
Definition add_opt (o : option date) (targets : gset Z) : gset Z :=
  match o with
  | Some x => {[x]} ∪ targets
  | None => targets
  end.

Definition select_target_expirations
    (symbol : string) (current_date : date) (available : list date)
    (closed_dates : gset Z) : list date :=
  let avail_set : gset Z := list_to_set available in
  let weekly := last_trading_day_of_week current_date closed_dates in
  let targets : gset Z :=
    if bool_decide (symbol ∈ ["SPX"; "SPXW"; "SPY"; "QQQ"]%string) then
      let targets : gset Z :=
        if decide (current_date ∈ avail_set) then {[current_date]} else ∅ in
      match weekly with
      | Some w =>
          if decide (w ≠ current_date ∧ w ∈ avail_set)
          then {[w]} ∪ targets else targets
      | None => targets
      end
    else if bool_decide (symbol = "VIX"%string) then
      let wed_this_week := wednesday_of_week current_date in
      if decide (weekday current_date ∈ [0; 1]) then
        if decide (wed_this_week ∈ avail_set ∧ wed_this_week ∉ closed_dates)
        then {[wed_this_week]}
        else add_opt (get_next_valid_vix_expiration current_date avail_set) ∅
      else add_opt (get_next_valid_vix_expiration current_date avail_set) ∅
    else ∅ in
  merge_sort Z.le (elements targets).

End CalendarUtils.

(** ** corrector.py *)

Module Corrector.

(** A numeric cell holds a number or is missing (NaN).  A row maps each
    column label to its number; a label with no entry is a missing cell.
    Numbers are only compared with zero and copied, never computed with, so
    they are kept as integers (a price in its smallest unit).  Rows are
    addressed by position: the index has no repeated label, as after
    [reset_index] or in a file written without its index. *)
Record DataFrame := {
  columns : list string;            (* df.columns, in declaration order *)
  data : list (gmap string Z)       (* the rows, in index order *)
}.

(** A labelled row ([pandas.Series]): the labels in order, and the values. *)
Record Series := {
  index : list string;
  values : gmap string Z
}.

(** [s.get(l)]: the value at label [l]; [None] when [l] is not a label of
    [s] or the cell is missing (both fail [pd.notna]). *)
Definition get (s : Series) (l : string) : option Z :=
  if decide (l ∈ index s) then values s !! l else None.

(** [s[cols]] *)
Definition select (s : Series) (cols : list string) : Series :=
  {| index := cols; values := values s |}.

Definition isna_any (s : Series) : bool :=
  existsb (fun l => bool_decide (get s l = None)) (index s).

Definition isna_all (s : Series) : bool :=
  forallb (fun l => bool_decide (get s l = None)) (index s).

(** The label order of [Index.union] / an outer [Index.join] depends on the
    pandas release: releases that sort the joined labels, and releases that
    keep the left operand's labels followed by the new ones.  Both are
    modelled.  Equal label lists are kept as they are by every release. *)
Inductive join_order := LabelSorted | LeftOrder.

Definition union_index (o : join_order) (self other : list string) : list string :=
  if decide (other = [] ∨ self = other) then self
  else if decide (self = []) then other
  else
    let joined := self ++ filter (fun l => l ∉ self) other in
    match o with
    | LabelSorted => merge_sort str_le joined
    | LeftOrder => joined
    end.

(** [self.combine_first(other)]: the labels of both, each cell taken from
    [self] unless it is missing there. *)
Definition combine_first (o : join_order) (self other : Series) : Series :=
  let idx := union_index o (index self) (index other) in
  {| index := idx;
     values := list_to_map
       (omap (fun l => match get self l with
                       | Some v => Some (l, v)
                       | None => (fun v => (l, v)) <$> get other l
                       end) idx) |}.

Definition dropna (s : Series) : Series :=
  {| index := filter (fun l => is_Some (get s l)) (index s);
     values := values s |}.

(** [s.iloc[0]]; [None] stands for the [IndexError] of an empty series. *)
Definition iloc0 (s : Series) : option Z :=
  l ← head (index s); get s l.

(** [s.fillna(v)] *)
Definition fillna (s : Series) (v : Z) : Series :=
  {| index := index s;
     values := foldr (fun l m => match get s l with
                                 | Some _ => m
                                 | None => <[l := v]> m
                                 end) (values s) (index s) |}.

(** [df.loc[idx, cols] = s]: the row's cells at [cols] are overwritten. *)
Definition assign (cols : list string) (s : Series) (r : gmap string Z)
  : gmap string Z :=
  foldr (fun l m => match get s l with
                    | Some v => <[l := v]> m
                    | None => delete l m
                    end) r cols.

Definition PRICE_COLUMNS : list string :=
  ["open"; "high"; "low"; "close"; "underlying_price"]%string.

(** Pass 1, one row of [df[cols].replace(0, np.nan)]. *)
Definition replace_zero (cols : list string) (r : gmap string Z) : gmap string Z :=
  foldr (fun l m => if decide (r !! l = Some 0) then delete l m else m) r cols.

(** Pass 2, the body of the [iterrows] loop for one row. *)
Definition repair_row (o : join_order) (columns cols : list string)
    (r : gmap string Z) : option (gmap string Z) :=
  let row := {| index := columns; values := r |} in
  if isna_any (select row cols) && negb (isna_all (select row cols)) then
    valid_val ←
      match get row "close" with
      | Some v => Some v
      | None => iloc0 (dropna (combine_first o row (select row cols)))
      end;
    Some (assign cols (fillna (select row cols) valid_val) r)
  else Some r.

(** [Series.bfill()] and [Series.ffill()] on one column. *)
Fixpoint bfill (l : list (option Z)) : list (option Z) :=
  match l with
  | [] => []
  | x :: t =>
      let t' := bfill t in
      match x with
      | Some _ => x
      | None => mjoin (head t')
      end :: t'
  end.

Fixpoint ffill_from (last : option Z) (l : list (option Z)) : list (option Z) :=
  match l with
  | [] => []
  | x :: t =>
      let x' := match x with Some _ => x | None => last end in
      x' :: ffill_from x' t
  end.

Definition ffill (l : list (option Z)) : list (option Z) := ffill_from None l.

Definition get_column (l : string) (rows : list (gmap string Z)) : list (option Z) :=
  (fun r => r !! l) <$> rows.

Definition set_column (l : string) (vals : list (option Z))
    (rows : list (gmap string Z)) : list (gmap string Z) :=
  zip_with (fun r v => match v with
                       | Some z => <[l := z]> r
                       | None => delete l r
                       end) rows vals.

(** Pass 3: [df[cols] = df[cols].bfill().ffill()]. *)
Definition fill_gaps (cols : list string) (rows : list (gmap string Z))
  : list (gmap string Z) :=
  foldr (fun l rs => set_column l (ffill (bfill (get_column l rows))) rs) rows cols.

(** [df.empty] *)
Definition empty (df : DataFrame) : bool :=
  bool_decide (columns df = []) || bool_decide (data df = []).

(** [fix_dataframe]; [None] stands for an exception. *)
Definition fix_dataframe (o : join_order) (df : DataFrame) : option DataFrame :=
  if empty df then Some df
  else
    let cols := filter (fun c => c ∈ columns df) PRICE_COLUMNS in
    if decide (cols = []) then Some df
    else
      let rows1 := replace_zero cols <$> data df in
      rows2 ← mapM (repair_row o (columns df) cols) rows1;
      let null_mask :=
        (fun r => isna_all {| index := cols; values := r |}) <$> rows2 in
      let rows3 := if existsb id null_mask then fill_gaps cols rows2 else rows2 in
      Some {| columns := columns df; data := rows3 |}.

End Corrector.

(** ** models.py and client.py *)

Module Client.

Import Corrector.

Inductive error :=
| TransportError      (* timed_get: retries exhausted or a non-200 status *)
| ApiError            (* parse_response: the envelope carries an error *)
| NoExpirations       (* Exception("No expirations available for ...") *)
| DerivationFailed    (* Exception("Could not derive underlying price ...") *)
| MissingTimestamp    (* KeyError: 'timestamp' *)
| RepairFailed        (* an exception escaping fix_dataframe *)
| EmptyUnderlying.    (* ValueError of UnderlyingData.__post_init__ *)

Inductive right := Call | Put.

(** The JSON envelope of every endpoint; an absent or empty [error] field is
    the empty string, an absent [response] field the empty list. *)
Record envelope (A : Type) := {
  env_error : string;
  env_response : list A
}.
Arguments env_error {A} _.
Arguments env_response {A} _.

(** An item of the expiration listing: an object (with its [expiration]
    field, if any) or a scalar (as [str(item)]). *)
Inductive exp_item :=
| ExpDict (expiration : option string)
| ExpScalar (s : string).

(** An item of the strike listing: an object (with its [strike] and [value]
    fields) or a scalar; [None] is JSON null or an absent field. *)
Inductive strike_item :=
| StrikeDict (strike value : option Z)
| StrikeScalar (v : option Z).

(** A Greeks data row: a JSON object whose fields are numbers or null. *)
Inductive greeks_item :=
| Nested (rows : list (gmap string (option Z)))   (* {"contract": .., "data": [..]} *)
| Flat (row : gmap string (option Z)).

(** The terminal answers a read-only request by its parameters; [None] is a
    transport failure after the bounded retries. *)
Record Terminal := {
  list_expirations : string -> string -> option (envelope exp_item);
  list_strikes : string -> string -> string -> option (envelope strike_item);
  greeks_first_order :
    string -> string -> Z -> right -> string -> option (envelope greeks_item)
}.

Inductive request :=
| ReqExpirations (symbol date : string)
| ReqStrikes (symbol expiration date : string)
| ReqGreeks (symbol expiration : string) (strike : Z) (r : right) (date : string).

(** Computations that issue requests (logged in order) and may raise. *)
Definition M (A : Type) : Type := list request -> list request * (error + A).

#[global] Instance M_ret : MRet M := fun A a log => (log, inr a).
#[global] Instance M_bind : MBind M := fun A B f m log =>
  match m log with
  | (log', inl e) => (log', inl e)
  | (log', inr a) => f a log'
  end.

Definition raise {A} (e : error) : M A := fun log => (log, inl e).

Definition lift {A} (e : error) (x : option A) : M A :=
  match x with
  | Some a => mret a
  | None => raise e
  end.

(** [fetch_with_interval_fallback]: one logged request. *)
Definition fetch {A} (req : request) (answer : option (envelope A)) : M (envelope A) :=
  fun log =>
    match answer with
    | Some resp => (log ++ [req], inr resp)
    | None => (log ++ [req], inl TransportError)
    end.

(** [parse_response] *)
Definition parse_response {A} (response : envelope A) : M (list A) :=
  if decide (env_error response = EmptyString) then mret (env_response response)
  else raise ApiError.

(** A [for] loop whose body either continues ([None]) or returns from the
    enclosing function ([Some a]); the loop yields [None] when it runs out. *)
Fixpoint for_each {X A} (xs : list X) (body : X -> M (option A)) : M (option A) :=
  match xs with
  | [] => mret None
  | x :: xs' =>
      r ← body x;
      match r with
      | Some a => mret (Some a)
      | None => for_each xs' body
      end
  end.

Definition format_date (date_str : string) : string := remove_dashes date_str.

Definition get_expirations (t : Terminal) (symbol date : string) : M (list string) :=
  let date_fmt := format_date date in
  resp ← fetch (ReqExpirations symbol date_fmt) (list_expirations t symbol date_fmt);
  data ← parse_response resp;
  let processed_exps :=
    omap (fun item =>
            let val := match item with
                       | ExpDict e => e
                       | ExpScalar s => Some s
                       end in
            match val with
            | Some v => if decide (v = EmptyString) then None else Some (remove_dashes v)
            | None => None
            end) data in
  mret (merge_sort str_le (filter (fun e => str_le date_fmt e) processed_exps)).

Definition get_strikes (t : Terminal) (symbol expiration date : string) : M (list Z) :=
  resp ← fetch (ReqStrikes symbol expiration (format_date date))
               (list_strikes t symbol expiration (format_date date));
  data ← parse_response resp;
  let processed_strikes :=
    omap (fun item =>
            match item with
            | StrikeDict strike value =>
                match strike with
                | Some s => if decide (s = 0) then value else Some s
                | None => value
                end
            | StrikeScalar v => v
            end) data in
  mret (merge_sort Z.le processed_strikes).

(** [strikes[len(strikes)//2]] *)
Definition atm_strike (strikes : list Z) : Z :=
  strikes !!! (length strikes `div` 2)%nat.

Record UnderlyingData := {
  symbol : string;
  udata : DataFrame;
  date : string;
  interval : string
}.

(** The dataclass constructor with its [__post_init__] check. *)
Definition mkUnderlyingData (symbol : string) (data : DataFrame) (date interval : string)
  : M UnderlyingData :=
  if empty data then raise EmptyUnderlying
  else mret {| symbol := symbol; udata := data; date := date; interval := interval |}.

(** The rows handed to [pd.DataFrame]: a nested item contributes its data
    rows, any other item is a row itself. *)
Definition flatten (raw_items : list greeks_item) : list (gmap string (option Z)) :=
  flat_map (fun item => match item with
                        | Nested rows => rows
                        | Flat row => [row]
                        end) raw_items.

(** [k in df.columns] for [df = pd.DataFrame(rows)]: some row has the field
    (possibly null). *)
Definition has_column (k : string) (rows : list (gmap string (option Z))) : bool :=
  bool_decide (Exists (fun r => is_Some (r !! k)) rows).

(** [df.empty]: no rows, or no columns. *)
Definition frame_empty (rows : list (gmap string (option Z))) : bool :=
  bool_decide (rows = []) || bool_decide (Forall (fun r => r = ∅) rows).

(** The cell of a row in a column: a number, or missing (null or absent). *)
Definition cell (r : gmap string (option Z)) (k : string) : option Z :=
  mjoin (r !! k).

(** Order of [sort_values('timestamp')]: ascending, missing timestamps last. *)
Definition ts_le (a b : option Z * Z) : Prop :=
  match a.1, b.1 with
  | Some x, Some y => x <= y
  | _, None => True
  | None, Some _ => False
  end.

#[global] Instance ts_le_dec a b : Decision (ts_le a b).
Proof. unfold ts_le. destruct a.1, b.1; apply _. Defined.

(** [dt.floor('min')] of a millisecond timestamp. *)
Definition floor_minute (t : Z) : Z := t / 60000 * 60000.

(** One aggregated row: open=first, high=max, low=min, close=last,
    volume=count of the bucket's prices. *)
Definition ohlc_row (minute : Z) (prices : list Z) : gmap string Z :=
  match prices with
  | [] => {[ "timestamp"%string := minute; "volume"%string := 0 ]}
  | p :: ps =>
      {[ "timestamp"%string := minute;
         "open"%string := p;
         "high"%string := foldr Z.max p ps;
         "low"%string := foldr Z.min p ps;
         "close"%string := List.last ps p;
         "volume"%string := Z.of_nat (length prices) ]}
  end.

(** Step 4 of the derivation on a table that has a [timestamp] column: drop
    the rows without an underlying price, sort by time, group by minute and
    aggregate.  Rows whose timestamp is missing fall in no group.  A minute
    is kept as its number of milliseconds. *)
Definition ohlc_frame (rows : list (gmap string (option Z))) : DataFrame :=
  let df := omap (fun r => p ← cell r "underlying_price";
                           Some (cell r "timestamp", p)) rows in
  let df := merge_sort ts_le df in
  let minutes : gset Z :=
    list_to_set (omap (fun x => floor_minute <$> x.1) df) in
  let groups :=
    (fun m => ohlc_row m
       (omap (fun x => if decide (floor_minute <$> x.1 = Some m)
                       then Some x.2 else None) df))
      <$> merge_sort Z.le (elements minutes) in
  {| columns := ["timestamp"; "open"; "high"; "low"; "close"; "volume"]%string;
     data := groups |}.

(** [df['timestamp']] raises [KeyError] when no row has the field. *)
Definition aggregate (rows : list (gmap string (option Z))) : M DataFrame :=
  if has_column "timestamp" rows then mret (ohlc_frame rows)
  else raise MissingTimestamp.

(** The body of the loop over the rights, from [if not raw_items] on: skip
    the response ([None]), or aggregate it, repair it and return. *)
Definition derive_from_items (o : join_order) (symbol date interval : string)
    (raw_items : list greeks_item) : M (option UnderlyingData) :=
  if decide (raw_items = []) then mret None
  else
    let rows := flatten raw_items in
    if frame_empty rows || negb (has_column "underlying_price" rows)
    then mret None
    else
      ohlc ← aggregate rows;
      ohlc ← lift RepairFailed (fix_dataframe o ohlc);
      u ← mkUnderlyingData symbol ohlc date interval;
      mret (Some u).

(** The body of [for right in ["C", "P"]]. *)
Definition try_right (o : join_order) (t : Terminal)
    (symbol date interval target_exp : string) (target_strike : Z)
    (right : right) : M (option UnderlyingData) :=
  let date_fmt := format_date date in
  resp ← fetch (ReqGreeks symbol target_exp target_strike right date_fmt)
               (greeks_first_order t symbol target_exp target_strike right date_fmt);
  raw_items ← parse_response resp;
  derive_from_items o symbol date interval raw_items.

(** The body of [for target_exp in exps[:2]]. *)
Definition try_expiration (o : join_order) (t : Terminal)
    (symbol date interval target_exp : string) : M (option UnderlyingData) :=
  strikes ← get_strikes t symbol target_exp date;
  if decide (strikes = []) then mret None
  else
    let target_strike := atm_strike strikes in
    for_each [Call; Put]
      (try_right o t symbol date interval target_exp target_strike).

(** [fetch_underlying_ohlc]; [o] is the label order of the pandas release. *)
Definition fetch_underlying_ohlc (o : join_order) (t : Terminal)
    (symbol date interval : string) : M UnderlyingData :=
  exps ← get_expirations t symbol date;
  if decide (exps = []) then raise NoExpirations
  else
    found ← for_each (take 2 exps) (try_expiration o t symbol date interval);
    match found with
    | Some u => mret u
    | None => raise DerivationFailed
    end.

End Client.

(** ** The response as bulk.py and realtime.py read it *)

Module Response.

Import Client.

Inductive exn :=
| Raised (e : error)     (* an exception of the client or of the transport *)
| AttributeError
| KeyError
| TypeError
| ValueError.

(** A parsed JSON value: [timed_get] returns [response.json()], and
    [fetch_with_interval_fallback] passes it on as [resp]. *)
#[warnings="-register-all"]
Inductive json :=
| JNull
| JBool (b : bool)
| JNum (n : Z)
| JStr (s : string)
| JArr (items : list json)
| JObj (fields : list (string * json)).

(** [bool(resp)] *)
Definition truthy (resp : json) : bool :=
  match resp with
  | JNull => false
  | JBool b => b
  | JNum n => negb (n =? 0)
  | JStr s => negb (String.eqb s EmptyString)
  | JArr items => match items with [] => false | _ => true end
  | JObj fields => match fields with [] => false | _ => true end
  end.

(** [resp.status_code] and [resp.json()]: a dict, list, str, int, float,
    bool or None has neither the attribute nor the method.  [json_method]
    is typed at what the caller goes on to read. *)
Definition status_code (resp : json) : exn + Z := inl AttributeError.

Definition json_method {A} (resp : json) : exn + A := inl AttributeError.

(** Computations over a state [S] that may raise; the state reached is
    kept when they do. *)
Definition ST (S A : Type) : Type := S -> S * (exn + A).

#[global] Instance ST_ret S : MRet (ST S) := fun A a s => (s, inr a).
#[global] Instance ST_bind S : MBind (ST S) := fun A B f m s =>
  match m s with
  | (s', inl e) => (s', inl e)
  | (s', inr a) => f a s'
  end.

Definition of_sum {S A} (x : exn + A) : ST S A := fun s => (s, x).

Definition of_option {S A} (e : exn) (x : option A) : ST S A :=
  match x with
  | Some a => mret a
  | None => of_sum (inl e)
  end.

(** [fetch_with_interval_fallback] as these callers see it: the parsed
    body, or the exception of the transport. *)
Definition answer {S} (a : option json) : ST S json :=
  of_option (Raised TransportError) a.

(** A call into the client; its request log is not kept here. *)
Definition call {S A} (m : M A) : ST S A :=
  of_sum match (m []).2 with
         | inl e => inl (Raised e)
         | inr a => inr a
         end.

(** A [for] loop whose body may [continue]. *)
Fixpoint for_ {S X} (xs : list X) (body : X -> ST S unit) : ST S unit :=
  match xs with
  | [] => mret ()
  | x :: xs' => body x ≫= fun _ => for_ xs' body
  end.

End Response.

(** ** bulk.py *)

Module Bulk.

Import Client Response CalendarUtils.

(** The [while d <= end_date] loop of [_worker_main] that collects the
    trading days of the requested range. *)
Equations? trading_days_loop (d end_date : date) (closed_dates : gset Z)
    (trading_days : list date) : list date
  by wf (Z.to_nat (end_date - d + 1)) lt :=
  trading_days_loop d end_date closed_dates trading_days :=
    if decide (d <= end_date) then
      trading_days_loop (d + 1) end_date closed_dates
        (if decide (weekday d < 5 ∧ d ∉ closed_dates)
         then trading_days ++ [d] else trading_days)
    else trading_days.
Proof. lia. Qed.

Definition trading_days (start_date end_date : date) (closed_dates : gset Z)
  : list date :=
  trading_days_loop start_date end_date closed_dates [].

(** An item of a bulk response: an object with a [contract] and a [data]
    field, or anything else. *)
Inductive bulk_item (V : Type) :=
| WithContract (contract : gmap string V) (data : list (gmap string V))
| OtherItem.
Arguments WithContract {V} _ _.
Arguments OtherItem {V}.

(** The rows collected from a bulk response: each data row of an item with
    a contract, merged over the contract's fields ([{**contract, **datarow}]). *)
Definition bulk_rows {V} (items : list (bulk_item V)) : list (gmap string V) :=
  flat_map (fun item => match item with
                        | WithContract contract data =>
                            (fun datarow => datarow ∪ contract) <$> data
                        | OtherItem => []
                        end) items.

(** An entry of the holiday calendar: an object with its [type] and [date]
    fields, or anything else. *)
Inductive calendar_entry :=
| CalendarDict (type date : option string)
| CalendarOther.

(** The terminal as the worker asks it: the listings of the client, the
    holidays of a year, and the history at an endpoint for a symbol, an
    expiration and a date. *)
Record BulkTerminal := {
  terminal : Terminal;
  year_holidays : Z -> option json;
  option_history : string -> string -> string -> string -> option json
}.

(** A Parquet file written by the worker: its name and its rows. *)
Record parquet (V : Type) := {
  fname : string;
  frows : list (gmap string V)
}.
Arguments fname {V} _.
Arguments frows {V} _.

Definition ENDPOINTS : list (string * string) :=
  [("ohlc", "/option/history/ohlc");
   ("greeks", "/option/history/greeks/first_order")]%string.

Section Worker.

Context {V : Type}.

(** The conversions of the standard library the worker uses:
    [d.strftime("%Y%m%d")], [d.year], [date(int(e[:4]), int(e[4:6]),
    int(e[6:8]))] and [date.fromisoformat], the last two raising
    [ValueError] where they give [None]. *)
Variable strftime : date -> string.
Variable year : date -> Z.
Variable date_of_compact : string -> option date.
Variable fromisoformat : string -> option date.

(** The body of [for year in years_to_fetch], lines 25 to 38. *)
Definition load_year (t : BulkTerminal) (closed_dates : gset Z) (y : Z)
  : ST (list (parquet V)) (gset Z) :=
  resp ← answer (year_holidays t y);
  if truthy resp then
    sc ← of_sum (status_code resp);
    if decide (sc = 200) then
      body ← of_sum (json_method resp);
      entries ← call (parse_response body);
      mret (foldl (fun closed entry =>
                     match entry with
                     | CalendarDict (Some "full_close"%string) (Some d) =>
                         match fromisoformat d with
                         | Some x => {[ x ]} ∪ closed
                         | None => closed
                         end
                     | _ => closed
                     end) closed_dates entries)
    else mret closed_dates
  else mret closed_dates.

Fixpoint load_holidays (t : BulkTerminal) (years : list Z) (closed_dates : gset Z)
  : ST (list (parquet V)) (gset Z) :=
  match years with
  | [] => mret closed_dates
  | y :: rest =>
      closed ← load_year t closed_dates y;
      load_holidays t rest closed
  end.

(** The body of [for dtype, endpoint in ENDPOINTS.items()], lines 58 to 86;
    the file is named without its directory. *)
Definition download (t : BulkTerminal) (symbol : string) (day exp : date)
    (e : string * string) : ST (list (parquet V)) unit :=
  resp ← answer (option_history t e.2 symbol (strftime exp) (strftime day));
  if negb (truthy resp) then mret ()
  else
    sc ← of_sum (status_code resp);
    if decide (sc ≠ 200) then mret ()
    else
      body ← of_sum (json_method resp);
      items ← call (parse_response body);
      let rows := bulk_rows items in
      if decide (rows = []) then mret ()
      else fun files =>
        (files ++ [{| fname := symbol +:+ "_" +:+ strftime exp +:+ "_" +:+
                               strftime day +:+ "_" +:+ e.1 +:+ ".parquet";
                      frows := rows |}], inr ()).

(** The body of [for day in trading_days], lines 50 to 86. *)
Definition process_day (t : BulkTerminal) (symbol : string)
    (closed_dates : gset Z) (day : date) : ST (list (parquet V)) unit :=
  exps_str ← call (get_expirations (terminal t) symbol (strftime day));
  if decide (exps_str = []) then mret ()
  else
    avail_dates ← of_option ValueError (mapM date_of_compact exps_str);
    let targets := select_target_expirations symbol day avail_dates closed_dates in
    for_ targets (fun exp => for_ ENDPOINTS (download t symbol day exp)).

(** The [try] block of [_worker_main], from the files already written. *)
Definition worker_body (t : BulkTerminal) (symbol : string)
    (start_date end_date : date) : ST (list (parquet V)) unit :=
  let years_to_fetch := seqZ (year start_date) (year end_date + 1 - year start_date) in
  closed_dates ← load_holidays t years_to_fetch ∅;
  for_ (trading_days start_date end_date closed_dates)
       (process_day t symbol closed_dates).

(** [_worker_main]: an exception ends the work and is logged; the result is
    the files written. *)
Definition _worker_main (t : BulkTerminal) (symbol : string)
    (start_date end_date : date) : list (parquet V) :=
  (worker_body t symbol start_date end_date []).1.

End Worker.

End Bulk.

(** ** realtime.py *)

Module Realtime.

Import Client Response.

(** A cell of a candle: a number or a string. *)
Inductive cellv :=
| CNum (n : Z)
| CStr (s : string).

#[global] Instance cellv_eq_dec : EqDecision cellv.
Proof. solve_decision. Defined.

(** The feed's tables are built from records ([pd.DataFrame(raw)]): a table
    is its rows, a column is a key some row has, a cell is missing when its
    key is absent or null. *)
Record RealtimeFeed := {
  session_data : gmap string (list (gmap string (option cellv)));
  last_candle_time : gmap string string
}.

Record FeedTerminal := {
  history_ohlc : string -> string -> string -> string -> option json
}.

Definition in_columns (c : string) (df : list (gmap string (option cellv))) : bool :=
  bool_decide (Exists (fun r => is_Some (r !! c)) df).

Definition SUBSET : list string := ["timestamp"; "strike"; "right"]%string.

(** The cells a row is compared on; missing cells compare equal. *)
Definition subset_key (subset : list string) (r : gmap string (option cellv))
  : list (option cellv) :=
  (fun c => mjoin (r !! c)) <$> subset.

(** [drop_duplicates(subset, keep="last")]: a row stays when no later row
    has the same key. *)
Fixpoint drop_duplicates_last (subset : list string)
    (df : list (gmap string (option cellv))) : list (gmap string (option cellv)) :=
  match df with
  | [] => []
  | r :: rest =>
      if decide (subset_key subset r ∈ subset_key subset <$> rest)
      then drop_duplicates_last subset rest
      else r :: drop_duplicates_last subset rest
  end.

(** [_update_session]; [drop_duplicates] raises [KeyError] for a column of
    the subset the table does not have, after the concatenation is stored. *)
Definition _update_session (key : string) (df : list (gmap string (option cellv)))
  : ST RealtimeFeed unit :=
  fun self =>
    match session_data self !! key with
    | Some old =>
        let all := old ++ df in
        if forallb (fun c => in_columns c all) SUBSET
        then ({| session_data :=
                   <[key := drop_duplicates_last SUBSET all]> (session_data self);
                 last_candle_time := last_candle_time self |}, inr ())
        else ({| session_data := <[key := all]> (session_data self);
                 last_candle_time := last_candle_time self |}, inl KeyError)
    | None =>
        ({| session_data := <[key := df]> (session_data self);
            last_candle_time := last_candle_time self |}, inr ())
    end.

Definition market_open : string := "09:30:00".

Definition endpoint_of (symbol : string) : string :=
  if decide (symbol ∈ ["SPX"; "VIX"]%string) then "/index/history/ohlc"
  else "/stock/history/ohlc".

(** [df.iloc[-1]["timestamp"][11:19]] *)
Definition last_time (df : list (gmap string (option cellv))) : exn + string :=
  if in_columns "timestamp" df then
    match last df ≫= (fun r => mjoin (r !! "timestamp"%string)) with
    | Some (CStr s) => inr (String.substring 11 8 s)
    | _ => inl TypeError
    end
  else inl KeyError.

(** The body of [for symbol in self.symbols] in [poll_cycle]. *)
Definition poll_symbol (t : FeedTerminal) (now_str symbol : string)
  : ST RealtimeFeed unit :=
  let key := symbol +:+ "_underlying" in
  fun self =>
    let start_t := default market_open (last_candle_time self !! key) in
    (resp ← answer (history_ohlc t (endpoint_of symbol) symbol start_t now_str);
     if truthy resp then
       sc ← of_sum (status_code resp);
       if decide (sc = 200) then
         body ← of_sum (json_method resp);
         raw ← call (parse_response body);
         if decide (raw = []) then mret ()
         else
           _ ← _update_session key raw;
           time ← of_sum (last_time raw);
           (fun self =>
              ({| session_data := session_data self;
                  last_candle_time := <[key := time]> (last_candle_time self) |},
               inr ())) : ST RealtimeFeed unit
       else mret ()
     else mret ()) self.

(** [poll_cycle] at the time [now_str]. *)
Definition poll_cycle (t : FeedTerminal) (now_str : string) (symbols : list string)
  : ST RealtimeFeed unit :=
  for_ symbols (poll_symbol t now_str).

End Realtime.

(** ** utils.py *)

Module Utils.

Import Corrector.

(** [verify_data_integrity], the [valid] field of its result: the table is
    not empty and [data.isnull().sum().sum()] is zero. *)
Definition verify_data_integrity (data : DataFrame) : bool :=
  if empty data then false
  else
    let null_counts :=
      (fun c => length (filter (fun r => r !! c = None) (Corrector.data data)))
        <$> columns data in
    if decide (0 < sum_list null_counts)%nat then false else true.

(** [fix_empty_rows]; the table model carries no dtypes, so the columns of
    numeric dtype ([select_dtypes(include=[np.number])]) are given. *)
Definition fix_empty_rows (numeric_columns : list string) (data : DataFrame)
  : DataFrame :=
  let rows := replace_zero numeric_columns <$> Corrector.data data in
  {| columns := columns data; data := fill_gaps (columns data) rows |}.

End Utils.

(** ** pipeline.py *)

Module Pipeline.

Import Corrector Client Response Utils.

(** The table [run_underlying_pipeline] hands to [_save_parquet]. *)
Definition checked_table (numeric : DataFrame -> list string)
    (underlying : UnderlyingData) : DataFrame :=
  let integrity := verify_data_integrity (udata underlying) in
  if negb integrity then fix_empty_rows (numeric (udata underlying)) (udata underlying)
  else udata underlying.

(** [run_underlying_pipeline]: the requests made and the files written, as
    (file name, table) in the order of writing.  A symbol whose derivation
    raises is logged and skipped.  Writing a file is taken to succeed. *)
Fixpoint run_underlying_pipeline (o : join_order) (t : Terminal)
    (numeric : DataFrame -> list string) (symbols : list string) (date : string)
    (log : list request) (saved : list (string * DataFrame))
  : list request * list (string * DataFrame) :=
  match symbols with
  | [] => (log, saved)
  | symbol :: rest =>
      match fetch_underlying_ohlc o t symbol date "1m" log with
      | (log', inr underlying) =>
          run_underlying_pipeline o t numeric rest date log'
            (saved ++ [(symbol +:+ "_" +:+ date, checked_table numeric underlying)])
      | (log', inl _) =>
          run_underlying_pipeline o t numeric rest date log' saved
      end
  end.

(** models.py, [OptionData]. *)
Record OptionData := {
  osymbol : string;
  oexpiration : string;
  ostrike : Z;
  oright : string;
  odata : DataFrame;
  odate : string;
  ointerval : string;
  odata_type : string
}.

(** [self.client.fetch_option_data(...)]: [ThetaClient] defines no such
    method, so the attribute lookup raises. *)
Definition fetch_option_data (symbol expiration : string) (strike : Z)
    (right date data_type : string) : exn + OptionData :=
  inl AttributeError.

(** A call into the client that keeps its request log. *)
Definition requesting {F A} (m : M A) : ST (list request * list F) A :=
  fun s =>
    ((m s.1).1, s.2,
     match (m s.1).2 with
     | inl e => inl (Raised e)
     | inr a => inr a
     end).

(** [_save_parquet]; writing is taken to succeed. *)
Definition save_parquet {R F} (file : F) : ST (R * list F) unit :=
  fun s => (s.1, s.2 ++ [file], inr ()).

(** The [try] block of [run_option_pipeline] for one symbol; [str] renders
    the strike in the file name. *)
Definition option_symbol (t : Terminal) (numeric : DataFrame -> list string)
    (str : Z -> string) (symbol date : string)
  : ST (list request * list (string * DataFrame)) unit :=
  exps ← requesting (get_expirations t symbol date);
  match exps with
  | [] => mret ()
  | target_exp :: _ =>
      strikes ← requesting (get_strikes t symbol target_exp date);
      if decide (strikes = []) then mret ()
      else
        let target_strike := atm_strike strikes in
        opt_data ← of_sum (fetch_option_data symbol target_exp target_strike
                             "C" date "ohlc");
        let integrity := verify_data_integrity (odata opt_data) in
        let data := if negb integrity
                    then fix_empty_rows (numeric (odata opt_data)) (odata opt_data)
                    else odata opt_data in
        let filename := symbol +:+ "_" +:+ target_exp +:+ "_" +:+
                        str target_strike +:+ "C_" +:+ date in
        save_parquet (filename, data)
  end.

(** [run_option_pipeline]: the requests made and the files written; an
    exception is logged and the next symbol follows. *)
Fixpoint run_option_pipeline (t : Terminal) (numeric : DataFrame -> list string)
    (str : Z -> string) (symbols : list string) (date : string)
    (s : list request * list (string * DataFrame))
  : list request * list (string * DataFrame) :=
  match symbols with
  | [] => s
  | symbol :: rest =>
      run_option_pipeline t numeric str rest date
        (option_symbol t numeric str symbol date s).1
  end.

End Pipeline.

(** * Vocabulary of the properties *)

(** ** Expiration selection *)

Section CalendarSpec.

Import CalendarUtils.

(** The Friday of the Monday-to-Sunday week that contains [d]. *)
Definition friday_of_week (d : date) : date := d - weekday d + 4.

(** [w] is the latest day from that week's Monday to its Friday that is not
    a closed date. *)
Definition is_last_trading_day (d : date) (closed : gset Z) (w : date) : Prop :=
  (friday_of_week d - 4 <= w <= friday_of_week d) ∧
  (w ∉ closed) ∧
  (∀ x, w < x <= friday_of_week d -> x ∈ closed).

(** [e] is the first available expiration strictly after [d], at most 45
    days ahead. *)
Definition next_available_after (d : date) (available : list date) (e : date) : Prop :=
  (d < e <= d + 45) ∧ e ∈ available ∧ (∀ x, d < x < e -> x ∉ available).

End CalendarSpec.

(** ** Zero and gap repair *)

Section CorrectorSpec.

Import Corrector.

(** The designated columns of a table: [cols] of [fix_dataframe]. *)
Definition designated (df : DataFrame) : list string :=
  filter (fun c => c ∈ columns df) PRICE_COLUMNS.

(** The fill value the rule of pass 2 names for a row whose [close] is
    missing: the first non-missing value among the row's designated columns,
    in the order the table declares them, zeros counting as missing. *)
Definition first_designated_value (df : DataFrame) (r : gmap string Z) : option Z :=
  head (omap (fun c => replace_zero (designated df) r !! c)
             (filter (fun c => c ∈ PRICE_COLUMNS) (columns df))).

(** Column [c] is zero or missing in every row. *)
Definition void_column (c : string) (df : DataFrame) : Prop :=
  ∀ r, r ∈ data df -> r !! c = None ∨ r !! c = Some 0.

(** Column [c] holds neither a zero nor a missing value. *)
Definition clean_column (c : string) (df : DataFrame) : Prop :=
  ∀ r, r ∈ data df -> ∃ v, r !! c = Some v ∧ v ≠ 0.

(** One aggregated minute whose last observations were zero. *)
Definition candle_table : DataFrame :=
  {| columns := ["timestamp"; "open"; "high"; "low"; "close"; "volume"]%string;
     data := [ {[ "timestamp"%string := 60000; "open"%string := 5;
                  "high"%string := 7; "low"%string := 0;
                  "close"%string := 0; "volume"%string := 3 ]} ] |}.

(** A table with a trade counter next to the prices. *)
Definition counted_table : DataFrame :=
  {| columns := ["count"; "open"; "high"; "low"; "close"]%string;
     data := [ {[ "count"%string := 0; "open"%string := 5; "high"%string := 5;
                  "low"%string := 5; "close"%string := 0 ]};
               {[ "count"%string := 2; "open"%string := 6; "high"%string := 6;
                  "low"%string := 6; "close"%string := 6 ]} ] |}.

(** A fully missing minute followed by a minute whose close is missing. *)
Definition gap_table : DataFrame :=
  {| columns := ["count"; "open"; "high"; "low"; "close"]%string;
     data := [ {[ "count"%string := 7; "open"%string := 0; "high"%string := 0;
                  "low"%string := 0; "close"%string := 0 ]};
               {[ "count"%string := 0; "open"%string := 5; "high"%string := 5;
                  "low"%string := 5; "close"%string := 0 ]} ] |}.

Definition gap_table_once : DataFrame :=
  {| columns := ["count"; "open"; "high"; "low"; "close"]%string;
     data := [ {[ "count"%string := 7; "open"%string := 5; "high"%string := 5;
                  "low"%string := 5; "close"%string := 0 ]};
               {[ "count"%string := 0; "open"%string := 5; "high"%string := 5;
                  "low"%string := 5; "close"%string := 0 ]} ] |}.

Definition gap_table_twice : DataFrame :=
  {| columns := ["count"; "open"; "high"; "low"; "close"]%string;
     data := [ {[ "count"%string := 7; "open"%string := 5; "high"%string := 5;
                  "low"%string := 5; "close"%string := 7 ]};
               {[ "count"%string := 0; "open"%string := 5; "high"%string := 5;
                  "low"%string := 5; "close"%string := 0 ]} ] |}.

End CorrectorSpec.

(** ** Underlying-price derivation *)

Section ClientSpec.

Import Corrector Client.

(** What the terminal's answers amount to, whatever was requested before. *)
Definition expirations_of (t : Terminal) (symbol date : string) : error + list string :=
  (get_expirations t symbol date []).2.

Definition strikes_of (t : Terminal) (symbol expiration date : string) : error + list Z :=
  (get_strikes t symbol expiration date []).2.

Definition greeks_of (t : Terminal) (symbol expiration : string) (strike : Z)
    (r : right) (date : string) : error + list greeks_item :=
  match greeks_first_order t symbol expiration strike r (format_date date) with
  | None => inl TransportError
  | Some resp =>
      if decide (env_error resp = EmptyString) then inr (env_response resp)
      else inl ApiError
  end.

Definition derived_of (o : join_order) (symbol date interval : string)
    (items : list greeks_item) : error + option UnderlyingData :=
  (derive_from_items o symbol date interval items []).2.

(** A Greeks response the search does not skip: it has items, rows, and an
    [underlying_price] column. *)
Definition usable (items : list greeks_item) : bool :=
  bool_decide (items ≠ []) &&
  negb (frame_empty (flatten items)) &&
  has_column "underlying_price" (flatten items).

Definition outcome (o : join_order) (t : Terminal) (symbol date interval : string)
  : error + UnderlyingData :=
  (fetch_underlying_ohlc o t symbol date interval []).2.

Definition requests (o : join_order) (t : Terminal) (symbol date interval : string)
  : list request :=
  (fetch_underlying_ohlc o t symbol date interval []).1.



(** A terminal with one expiration and one strike whose Greeks rows carry a
    null underlying price. *)
Definition null_price_terminal : Terminal :=
  {| list_expirations := fun _ _ =>
       Some {| env_error := EmptyString; env_response := [ExpScalar "20240607"] |};
     list_strikes := fun _ _ _ =>
       Some {| env_error := EmptyString; env_response := [StrikeScalar (Some 100)] |};
     greeks_first_order := fun _ _ _ _ _ =>
       Some {| env_error := EmptyString;
               env_response :=
                 [Flat {[ "timestamp"%string := Some 60000;
                          "underlying_price"%string := None ]}] |} |}.

(** The expirations listed for (symbol, date); none when the listing fails. *)
Definition listed_expirations (t : Terminal) (symbol date : string) : list string :=
  match expirations_of t symbol date with
  | inr exps => exps
  | inl _ => []
  end.

(** A Greeks request is made for one of the first two expirations, with the
    strike at the middle index of that expiration's sorted, non-empty strike
    list. *)
Definition midpoint_request (t : Terminal) (symbol date : string)
    (req : request) : Prop :=
  match req with
  | ReqGreeks _ exp strike _ _ =>
      exp ∈ take 2 (listed_expirations t symbol date) ∧
      ∃ strikes, strikes_of t symbol exp date = inr strikes ∧
                 Sorted Z.le strikes ∧ strikes ≠ [] ∧
                 strikes !! (length strikes `div` 2)%nat = Some strike
  | _ => True
  end.

(** Two expirations: the first has no strikes, the second has five. *)
Definition two_expiration_terminal : Terminal :=
  {| list_expirations := fun _ _ =>
       Some {| env_error := EmptyString;
               env_response := [ExpScalar "2024-06-07"; ExpScalar "2024-06-14"] |};
     list_strikes := fun _ exp _ =>
       Some {| env_error := EmptyString;
               env_response :=
                 if decide (exp = "20240614"%string)
                 then StrikeScalar <$> [Some 90; Some 95; Some 100; Some 105; Some 110]
                 else [] |};
     greeks_first_order := fun _ _ _ _ _ =>
       Some {| env_error := EmptyString;
               env_response :=
                 [Flat {[ "timestamp"%string := Some 60000;
                          "underlying_price"%string := Some 5300 ]}] |} |}.

(** A Greeks response whose table has rows and an [underlying_price] column,
    but no row with a value in it. *)
Definition null_underlying (items : list greeks_item) : Prop :=
  flatten items ≠ [] ∧
  has_column "underlying_price" (flatten items) = true ∧
  Forall (fun r => cell r "underlying_price" = None) (flatten items).

#[local] Instance null_underlying_dec items : Decision (null_underlying items).
Proof. unfold null_underlying. apply _. Defined.

(** A request of the derivation that the terminal answers with such a
    response. *)
Definition null_request (t : Terminal) (symbol date : string) (req : request) : Prop :=
  ∃ exp k r items,
    req = ReqGreeks symbol exp k r (format_date date) ∧
    greeks_of t symbol exp k r date = inr items ∧
    null_underlying items.

Definition no_null_request (t : Terminal) (symbol date : string)
    (l : list request) : Prop :=
  ∀ req, req ∈ l -> ¬ null_request t symbol date req.

Definition error_of {A} (res : error + A) : option error :=
  match res with
  | inl e => Some e
  | inr _ => None
  end.

(** The log ends with the first such request, and the call raised right
    there. *)
Definition stopped_at_null (t : Terminal) (symbol date : string)
    (l : list request) (e : option error) : Prop :=
  ∃ l0 req,
    l = l0 ++ [req] ∧ no_null_request t symbol date l0 ∧
    null_request t symbol date req ∧
    (e = Some EmptyUnderlying ∨ e = Some MissingTimestamp).

End ClientSpec.

(** ** Zero and gap repair, continued *)

Section CorrectorSpecMore.

Import Corrector.

(** Pass 3 of [fix_dataframe] on the rows left by pass 2. *)
Definition gap_filled (cols : list string) (rows : list (gmap string Z))
  : list (gmap string Z) :=
  if existsb id ((fun r => isna_all {| index := cols; values := r |}) <$> rows)
  then fill_gaps cols rows else rows.

(** Every cell of the row in [cols] holds a value. *)
Definition complete_row (cols : list string) (r : gmap string Z) : Prop :=
  ∀ l, l ∈ cols -> is_Some (r !! l).

(** No cell of the row in [cols] holds a value. *)
Definition void_row (cols : list string) (r : gmap string Z) : Prop :=
  ∀ l, l ∈ cols -> r !! l = None.

(** Every designated cell of the row holds a non-zero price. *)
Definition priced_row (df : DataFrame) (r : gmap string Z) : Prop :=
  ∀ l, l ∈ designated df -> ∃ v, r !! l = Some v ∧ v ≠ 0.

(** Every designated cell of the row is zero or missing. *)
Definition unpriced_row (df : DataFrame) (r : gmap string Z) : Prop :=
  ∀ l, l ∈ designated df -> r !! l = None ∨ r !! l = Some 0.

End CorrectorSpecMore.

(** ** Underlying-price derivation, continued *)

Section ClientSpecMore.

Import Corrector Client.

(** A request of the derivation for (symbol, date): it names the symbol and
    carries the date without dashes. *)
Definition request_for (symbol date : string) (req : request) : Prop :=
  match req with
  | ReqExpirations s d => s = symbol ∧ d = format_date date
  | ReqStrikes s _ d => s = symbol ∧ d = format_date date
  | ReqGreeks s _ _ _ d => s = symbol ∧ d = format_date date
  end.

(** A one-minute candle: exactly the six fields, the timestamp a whole
    minute, open and close between low and high, at least one observation. *)
Definition candle (r : gmap string Z) : Prop :=
  ∃ t o h l c v,
    r = {[ "timestamp"%string := t; "open"%string := o; "high"%string := h;
           "low"%string := l; "close"%string := c; "volume"%string := v ]} ∧
    t mod 60000 = 0 ∧ l <= o <= h ∧ l <= c <= h ∧ 1 <= v.

(** An observation of the price [p] in the minute [m]: a Greeks row with a
    timestamp in that minute and that underlying price. *)
Definition observed (rows : list (gmap string (option Z))) (m p : Z) : Prop :=
  ∃ r t, r ∈ rows ∧ cell r "timestamp" = Some t ∧ floor_minute t = m ∧
         cell r "underlying_price" = Some p.

(** The sum of the counts of a table. *)
Definition total_volume (rows : list (gmap string Z)) : Z :=
  foldr Z.add 0 ((fun c => default 0 (c !! "volume"%string)) <$> rows).

(** The timestamps of the rows increase strictly down the table. *)
Definition ascending_minutes (rows : list (gmap string Z)) : Prop :=
  ∀ i j ri rj, (i < j)%nat -> rows !! i = Some ri -> rows !! j = Some rj ->
    ∃ ti tj, ri !! "timestamp"%string = Some ti ∧
             rj !! "timestamp"%string = Some tj ∧ ti < tj.

End ClientSpecMore.

(** ** The underlying pipeline *)

Section PipelineSpec.

Import Corrector Client.

(** The series derived with [two_expiration_terminal]. *)
Definition two_expiration_series : UnderlyingData :=
  {| symbol := "SPX";
     udata :=
       {| columns := ["timestamp"; "open"; "high"; "low"; "close"; "volume"]%string;
          data := [ {[ "timestamp"%string := 60000; "open"%string := 5300;
                       "high"%string := 5300; "low"%string := 5300;
                       "close"%string := 5300; "volume"%string := 1 ]} ] |};
     date := "2024-06-05"; interval := "1m" |}.

(** What the client derives for each symbol, as the files of the pipeline. *)
Definition client_tables (o : join_order) (t : Terminal)
    (symbols : list string) (date : string) : list (string * DataFrame) :=
  omap (fun symbol =>
          match outcome o t symbol date "1m" with
          | inr u => Some (symbol +:+ "_" +:+ date, udata u)
          | inl _ => None
          end) symbols.

(** A request for a listing (of expirations or of strikes). *)
Definition listing_request (req : request) : Prop :=
  match req with
  | ReqGreeks _ _ _ _ _ => False
  | _ => True
  end.

(** The dtypes of the derived table: every column but the timestamp holds
    numbers. *)
Definition ohlc_numeric (df : DataFrame) : list string :=
  filter (fun c => c ≠ "timestamp"%string) (columns df).

End PipelineSpec.

(** ** The realtime session *)

Section RealtimeSpec.

Import Response Realtime.

(** [rows] is [all] without the rows that a later row of [all] repeats on
    the three key columns, in the order of [all]. *)
Definition latest_per_key (all rows : list (gmap string (option cellv))) : Prop :=
  rows `sublist_of` all ∧
  NoDup (subset_key SUBSET <$> rows) ∧
  ∀ r, r ∈ rows <->
       ∃ l1 l2, all = l1 ++ r :: l2 ∧
                subset_key SUBSET r ∉ subset_key SUBSET <$> l2.

End RealtimeSpec.

(** * Properties *)

(** ** Expiration selection *)

Section CalendarFacts.

Import CalendarUtils.

Lemma weekday_range d : 0 <= weekday d < 7.
Proof. unfold weekday. apply Z.mod_pos_bound. lia. Qed.

Lemma weekday_shift d k :
  0 <= weekday d + k < 7 -> weekday (d + k) = weekday d + k.
Proof.
  unfold weekday. intros Hk.
  replace (d + k + 6) with ((d + 6) mod 7 + k + (d + 6) / 7 * 7)
    by (pose proof (Z.div_mod (d + 6) 7); lia).
  rewrite Z_mod_plus_full. apply Z.mod_small. lia.
Qed.

Lemma weekday_friday d : weekday (friday_of_week d) = 4.
Proof.
  unfold friday_of_week. pose proof (weekday_range d).
  replace (d - weekday d + 4) with (d + (4 - weekday d)) by lia.
  rewrite weekday_shift; lia.
Qed.

Lemma weekday_wednesday d : weekday (wednesday_of_week d) = 2.
Proof.
  unfold wednesday_of_week. pose proof (weekday_range d).
  rewrite weekday_shift; lia.
Qed.

Lemma weekday_in_week d x :
  friday_of_week d - 4 <= x <= friday_of_week d -> weekday x < 5.
Proof.
  intros Hx. pose proof (weekday_friday d) as Hf.
  replace x with (friday_of_week d + (x - friday_of_week d)) by lia.
  rewrite weekday_shift; lia.
Qed.

Lemma scan_back_some friday c closed w :
  (∀ x, friday - 4 <= x <= friday -> weekday x < 5) ->
  c <= friday ->
  scan_back friday c closed = Some w ->
  (friday - 4 <= w <= c) ∧ (w ∉ closed) ∧ (∀ x, w < x <= c -> x ∈ closed).
Proof.
  intros Hwk. funelim (scan_back friday c closed).
  intros Hc Hs. clear Heqcall.
  destruct (decide (candidate >= friday - 4)) as [Hge|Hlt]; [|done].
  destruct (decide (weekday candidate < 5 ∧ candidate ∉ closed_dates)) as [[_ Hn]|Hn].
  - inversion Hs; subst. split; [lia|]. split; [done|]. intros x Hx. lia.
  - destruct (H Hge Hn w Hwk ltac:(lia) Hs) as (Hr & Hw & Hall).
    split; [lia|]. split; [done|].
    intros x Hx. destruct (decide (x = candidate)) as [->|Hne].
    + destruct (decide (candidate ∈ closed_dates)); [done|].
      exfalso. apply Hn. split; [apply Hwk; lia|done].
    + apply Hall. lia.
Qed.

Lemma scan_back_none friday c closed :
  (∀ x, friday - 4 <= x <= friday -> weekday x < 5) ->
  c <= friday ->
  scan_back friday c closed = None ->
  ∀ x, friday - 4 <= x <= c -> x ∈ closed.
Proof.
  intros Hwk. funelim (scan_back friday c closed).
  intros Hc Hs. clear Heqcall.
  destruct (decide (candidate >= friday - 4)) as [Hge|Hlt]; [|intros; lia].
  destruct (decide (weekday candidate < 5 ∧ candidate ∉ closed_dates)) as [Hy|Hn]; [done|].
  intros x Hx. destruct (decide (x = candidate)) as [->|Hne].
  - destruct (decide (candidate ∈ closed_dates)); [done|].
    exfalso. apply Hn. split; [apply Hwk; lia|done].
  - apply (H Hge Hn Hwk ltac:(lia) Hs). lia.
Qed.

Lemma friday_of_week_eq d : d + (4 - weekday d) = friday_of_week d.
Proof. unfold friday_of_week. lia. Qed.

(** The scan of [last_trading_day_of_week] finds exactly the last trading
    day of the week. *)
Lemma last_trading_day_of_week_spec d closed w :
  last_trading_day_of_week d closed = Some w <-> is_last_trading_day d closed w.
Proof.
  unfold last_trading_day_of_week, is_last_trading_day. cbv zeta.
  rewrite friday_of_week_eq. set (f := friday_of_week d).
  pose proof (weekday_in_week d) as Hwk. fold f in Hwk.
  split.
  - intros Hs. apply scan_back_some in Hs; [done|done|lia].
  - intros (Hr & Hw & Hall).
    destruct (scan_back f f closed) as [w'|] eqn:Hs.
    + apply scan_back_some in Hs as (Hr' & Hw' & Hall'); [|done|lia].
      f_equal. destruct (Z.lt_trichotomy w w') as [Hlt|[Heq|Hgt]]; [|done|].
      * exfalso. apply Hw'. apply Hall. lia.
      * exfalso. apply Hw. apply Hall'. lia.
    + exfalso. apply Hw. eapply scan_back_none; [exact Hwk| |exact Hs|]; lia.
Qed.

Lemma last_trading_day_of_week_none d closed :
  last_trading_day_of_week d closed = None <->
  ∀ x, friday_of_week d - 4 <= x <= friday_of_week d -> x ∈ closed.
Proof.
  split.
  - unfold last_trading_day_of_week. cbv zeta. rewrite friday_of_week_eq.
    intros Hs x Hx. eapply scan_back_none; [apply weekday_in_week| |exact Hs|]; lia.
  - intros Hall. destruct (last_trading_day_of_week d closed) as [w|] eqn:Hs; [|done].
    apply last_trading_day_of_week_spec in Hs as (Hr & Hw & _).
    exfalso. apply Hw, Hall, Hr.
Qed.

Lemma next_loop_some n c S e :
  next_loop n c S = Some e ->
  (c <= e < c + Z.of_nat n) ∧ e ∈ S ∧ (∀ x, c <= x < e -> x ∉ S).
Proof.
  revert c. induction n as [|n IH]; intros c; simpl; [done|].
  destruct (decide (c ∈ S)) as [Hin|Hnin].
  - intros [= <-]. split; [lia|]. split; [done|]. intros; lia.
  - intros Hs. apply IH in Hs as (Hr & He & Hall).
    split; [lia|]. split; [done|].
    intros x Hx. destruct (decide (x = c)) as [->|Hne]; [done|]. apply Hall. lia.
Qed.

Lemma next_loop_none n c S :
  next_loop n c S = None -> ∀ x, c <= x < c + Z.of_nat n -> x ∉ S.
Proof.
  revert c. induction n as [|n IH]; intros c; simpl; [intros; lia|].
  destruct (decide (c ∈ S)) as [Hin|Hnin]; [done|].
  intros Hs x Hx. destruct (decide (x = c)) as [->|Hne]; [done|].
  apply (IH _ Hs). lia.
Qed.

(** The 45-day search returns the first available expiration after the
    current date, and nothing exactly when there is none in the horizon. *)
Lemma get_next_valid_vix_expiration_spec d available e :
  get_next_valid_vix_expiration d (list_to_set available) = Some e <->
  next_available_after d available e.
Proof.
  unfold get_next_valid_vix_expiration, next_available_after. split.
  - intros Hs. apply next_loop_some in Hs as (Hr & He & Hall).
    apply elem_of_list_to_set in He.
    split; [lia|]. split; [done|].
    intros x Hx Hin. apply (Hall x); [lia|]. by apply elem_of_list_to_set.
  - intros (Hr & He & Hall).
    destruct (next_loop 45 (d + 1) (list_to_set available)) as [e'|] eqn:Hs.
    + apply next_loop_some in Hs as (Hr' & He' & Hall').
      f_equal. destruct (Z.lt_trichotomy e e') as [Hlt|[Heq|Hgt]]; [|done|].
      * exfalso. apply (Hall' e); [lia|]. by apply elem_of_list_to_set.
      * exfalso. apply (Hall e'); [lia|]. by apply elem_of_list_to_set in He'.
    + exfalso. apply (next_loop_none _ _ _ Hs e); [lia|].
      by apply elem_of_list_to_set.
Qed.


Lemma sorted_elements_singleton (x : Z) :
  merge_sort Z.le (elements ({[x]} : gset Z)) = [x].
Proof. rewrite elements_singleton. reflexivity. Qed.

Lemma sorted_elements_empty :
  merge_sort Z.le (elements (∅ : gset Z)) = [].
Proof. rewrite elements_empty. reflexivity. Qed.

Lemma elem_of_sorted_elements (x : Z) (X : gset Z) :
  x ∈ merge_sort Z.le (elements X) <-> x ∈ X.
Proof. rewrite merge_sort_Permutation. apply elem_of_elements. Qed.

Lemma vix_branch {A} (x y z : A) :
  (if bool_decide ("VIX"%string ∈ ["SPX"; "SPXW"; "SPY"; "QQQ"]%string) then x
   else if bool_decide ("VIX"%string = "VIX"%string) then y else z) = y.
Proof. reflexivity. Qed.

(** The fallback of the volatility-index class, as a list. *)
Lemma fallback_targets d available :
  merge_sort Z.le
    (elements (add_opt (get_next_valid_vix_expiration d (list_to_set available)) ∅)) =
  match get_next_valid_vix_expiration d (list_to_set available) with
  | Some e => [e]
  | None => []
  end.
Proof.
  destruct (get_next_valid_vix_expiration _ _) as [e|]; simpl.
  - rewrite (right_id_L ∅ (∪)). apply sorted_elements_singleton.
  - apply sorted_elements_empty.
Qed.

(** Every selected target is an available expiration. *)
Lemma select_target_expirations_available symbol d available closed x :
  x ∈ select_target_expirations symbol d available closed -> x ∈ available.
Proof.
  unfold select_target_expirations. cbv zeta.
  rewrite elem_of_sorted_elements.
  repeat case_bool_decide.
  - destruct (last_trading_day_of_week d closed) as [w|];
      repeat case_decide; set_unfold; naive_solver.
  - assert (Hnext : ∀ y,
      y ∈ add_opt (get_next_valid_vix_expiration d (list_to_set available)) ∅ ->
      y ∈ available).
    { intros y.
      destruct (get_next_valid_vix_expiration _ _) as [e|] eqn:He; simpl.
      - apply get_next_valid_vix_expiration_spec in He as (_ & He & _).
        set_unfold. naive_solver.
      - set_solver. }
    repeat case_decide; [set_unfold; naive_solver|apply Hnext|apply Hnext].
  - set_solver.
Qed.

(** C5: for every symbol, current date, list of available expirations and
    set of closed dates, the result of [select_target_expirations] is sorted
    ascending, has no duplicates and is a subset of the available
    expirations. *)
Theorem select_target_expirations_sorted_nodup_subset
    symbol d (available : list date) (closed : gset Z) :
  StronglySorted Z.le (select_target_expirations symbol d available closed) ∧
  Sorted Z.lt (select_target_expirations symbol d available closed) ∧
  NoDup (select_target_expirations symbol d available closed) ∧
  (∀ x, x ∈ select_target_expirations symbol d available closed -> x ∈ available).
Proof.
  assert (Hnd : NoDup (select_target_expirations symbol d available closed)).
  { unfold select_target_expirations. cbv zeta.
    rewrite merge_sort_Permutation. apply NoDup_elements. }
  assert (Hss : StronglySorted Z.le (select_target_expirations symbol d available closed)).
  { unfold select_target_expirations. cbv zeta.
    apply (StronglySorted_merge_sort Z.le). }
  split; [exact Hss|]. split; [|split; [exact Hnd|]].
  - induction Hss as [|a l Hl IH Hall]; [constructor|].
    apply NoDup_cons in Hnd as [Ha Hnd].
    constructor; [by apply IH|].
    destruct l as [|b l]; constructor.
    apply Forall_cons in Hall as [Hab _].
    destruct (decide (a = b)) as [->|Hne]; [|lia].
    exfalso. apply Ha. left.
  - apply select_target_expirations_available.
Qed.

(** C6: for a symbol of the same-day-plus-weekly class, the current date is
    a target whenever it is an available expiration, and so is the last
    trading day of the current week (the latest day from Monday to Friday
    that is not closed) whenever it exists, is an available expiration and
    differs from the current date. *)
Theorem same_day_weekly_targets symbol d (available : list date) (closed : gset Z) :
  symbol ∈ ["SPX"; "SPXW"; "SPY"; "QQQ"]%string ->
  (d ∈ available -> d ∈ select_target_expirations symbol d available closed) ∧
  (∀ w, is_last_trading_day d closed w -> w ∈ available -> w ≠ d ->
        w ∈ select_target_expirations symbol d available closed).
Proof.
  intros Hsym. unfold select_target_expirations. cbv zeta.
  rewrite bool_decide_eq_true_2 by done.
  split.
  - intros Hd. rewrite elem_of_sorted_elements.
    destruct (last_trading_day_of_week d closed) as [w|];
      repeat case_decide; set_unfold; naive_solver.
  - intros w Hw Hav Hne. rewrite elem_of_sorted_elements.
    apply last_trading_day_of_week_spec in Hw. rewrite Hw.
    repeat case_decide; set_unfold; naive_solver.
Qed.

Lemma same_day_weekly_targets_witness :
  ymd 2024 6 5 ∈ select_target_expirations "SPX" (ymd 2024 6 5)
                   [ymd 2024 6 5; ymd 2024 6 7] ∅ ∧
  ymd 2024 6 7 ∈ select_target_expirations "SPX" (ymd 2024 6 5)
                   [ymd 2024 6 5; ymd 2024 6 7] ∅.
Proof.
  destruct (same_day_weekly_targets "SPX" (ymd 2024 6 5)
              [ymd 2024 6 5; ymd 2024 6 7] ∅) as [H1 H2].
  - apply (bool_decide_eq_true_1 _). reflexivity.
  - split.
    + apply H1. apply (bool_decide_eq_true_1 _). reflexivity.
    + apply H2.
      * apply last_trading_day_of_week_spec. vm_compute. reflexivity.
      * apply (bool_decide_eq_true_1 _). reflexivity.
      * vm_compute. discriminate.
Defined.



End CalendarFacts.

(** ** Zero and gap repair *)

Section CorrectorFacts.

Import Corrector.

Lemma select_get columns cols (r : gmap string Z) l :
  l ∈ cols ->
  get (select {| index := columns; values := r |} cols) l = r !! l.
Proof. intros Hl. unfold get, select; simpl. by rewrite decide_True. Qed.

Lemma isna_any_false columns cols (r : gmap string Z) :
  (∀ l, l ∈ cols -> is_Some (r !! l)) ->
  isna_any (select {| index := columns; values := r |} cols) = false.
Proof.
  intros Hall. unfold isna_any. apply not_true_is_false. intros Hex.
  apply existsb_exists in Hex as (l & Hl & Hna).
  apply list_elem_of_In in Hl. simpl in Hl.
  apply bool_decide_eq_true_1 in Hna.
  rewrite select_get in Hna by done.
  destruct (Hall l Hl) as [v Hv]. congruence.
Qed.

Lemma isna_all_false cols (r : gmap string Z) l :
  l ∈ cols -> is_Some (r !! l) ->
  isna_all {| index := cols; values := r |} = false.
Proof.
  intros Hl [v Hv]. unfold isna_all. apply not_true_is_false. intros Hall.
  rewrite forallb_forall in Hall.
  specialize (Hall l ltac:(by apply list_elem_of_In)).
  apply bool_decide_eq_true_1 in Hall.
  unfold get in Hall; simpl in Hall. rewrite decide_True in Hall by done.
  congruence.
Qed.

Lemma replace_zero_id cols (r : gmap string Z) :
  (∀ l, l ∈ cols -> r !! l ≠ Some 0) -> replace_zero cols r = r.
Proof.
  unfold replace_zero. intros Hall.
  assert (Haux : ∀ m : gmap string Z,
    foldr (fun l m => if decide (r !! l = Some 0) then delete l m else m) m cols = m);
    [|apply Haux].
  induction cols as [|c cols IH]; intros m; simpl; [done|].
  rewrite decide_False by (apply Hall; left).
  apply IH. intros l Hl. apply Hall. by right.
Qed.

(** A row with every designated cell present is not touched by pass 2. *)
Lemma repair_row_complete o columns cols (r : gmap string Z) :
  (∀ l, l ∈ cols -> is_Some (r !! l)) ->
  repair_row o columns cols r = Some r.
Proof.
  intros Hall. unfold repair_row. cbv zeta.
  by rewrite isna_any_false.
Qed.

Lemma existsb_fmap_false {A} (f : A -> bool) (l : list A) :
  (∀ x, x ∈ l -> f x = false) -> existsb id (f <$> l) = false.
Proof.
  induction l as [|x l IH]; intros Hall; simpl; [done|].
  rewrite (Hall x) by left. apply IH. intros y Hy. apply Hall. by right.
Qed.

(** C9: a table with no zero and no missing value in its designated price
    columns is returned unchanged by the repair. *)
Theorem fix_dataframe_clean_unchanged o (df : DataFrame) :
  (∀ r c, r ∈ data df -> c ∈ PRICE_COLUMNS -> c ∈ columns df ->
          ∃ v, r !! c = Some v ∧ v ≠ 0) ->
  fix_dataframe o df = Some df.
Proof.
  intros Hclean. unfold fix_dataframe.
  destruct (empty df); [done|]. cbv zeta. fold (designated df).
  destruct (decide (designated df = [])) as [|Hne]; [done|].
  assert (Hcell : ∀ r l, r ∈ data df -> l ∈ designated df ->
                         ∃ v, r !! l = Some v ∧ v ≠ 0).
  { intros r l Hr Hl. unfold designated in Hl.
    apply list_elem_of_filter in Hl as [Hc Hp]. by apply Hclean. }
  assert (H1 : replace_zero (designated df) <$> data df = data df).
  { rewrite <- (list_fmap_id (data df)) at 2.
    apply list_fmap_ext. intros i r Hr. simpl.
    apply replace_zero_id. intros l Hl.
    destruct (Hcell r l (list_elem_of_lookup_2 _ _ _ Hr) Hl) as (v & Hv & Hnz).
    congruence. }
  rewrite H1.
  assert (H2 : mapM (repair_row o (columns df) (designated df)) (data df)
               = Some (data df)).
  { apply mapM_Some. apply Forall2_same_length_lookup. split; [done|].
    intros i r r' Hi Hi'. assert (r' = r) as -> by congruence.
    apply repair_row_complete. intros l Hl.
    destruct (Hcell r l (list_elem_of_lookup_2 _ _ _ Hi) Hl) as (v & Hv & _).
    by exists v. }
  rewrite H2. simpl.
  rewrite existsb_fmap_false; [by destruct df|].
  intros r Hr. destruct (designated df) as [|c cols] eqn:Hd; [done|].
  destruct (Hcell r c Hr ltac:(left)) as (v & Hv & _).
  apply (isna_all_false _ _ c); [left|by exists v].
Qed.

Lemma fix_dataframe_clean_unchanged_witness :
  fix_dataframe LabelSorted
    {| columns := ["timestamp"; "open"; "close"]%string;
       data := [ {[ "timestamp"%string := 0; "open"%string := 5; "close"%string := 6 ]} ] |}
  = Some
    {| columns := ["timestamp"; "open"; "close"]%string;
       data := [ {[ "timestamp"%string := 0; "open"%string := 5; "close"%string := 6 ]} ] |}.
Proof.
  apply fix_dataframe_clean_unchanged. simpl.
  intros r c Hr Hc Hcol.
  apply list_elem_of_singleton in Hr. subst r.
  apply list_elem_of_In in Hc. simpl in Hc.
  apply list_elem_of_In in Hcol. simpl in Hcol.
  destruct Hc as [<-|[<-|[<-|[<-|[<-|[]]]]]];
    destruct Hcol as [Hcol|[Hcol|[Hcol|[]]]]; try discriminate Hcol.
  - exists 5. split; [reflexivity|lia].
  - exists 6. split; [reflexivity|lia].
Defined.




Lemma forallb_false_exists {A} (f : A -> bool) (l : list A) :
  forallb f l = false -> ∃ x, x ∈ l ∧ f x = false.
Proof.
  induction l as [|x l IH]; simpl; [done|].
  destruct (f x) eqn:Hx; simpl.
  - intros (y & Hy & Hf)%IH. exists y. split; [by right|done].
  - intros _. exists x. split; [left|done].
Qed.



Lemma length_bfill l : length (bfill l) = length l.
Proof. induction l as [|x l IH]; simpl; [done|]. by rewrite IH. Qed.

Lemma length_ffill_from last l : length (ffill_from last l) = length l.
Proof.
  revert last. induction l as [|x l IH]; intros last; simpl; [done|].
  by rewrite IH.
Qed.

Lemma length_fill_gaps cols (rows : list (gmap string Z)) :
  length (fill_gaps cols rows) = length rows.
Proof.
  unfold fill_gaps.
  assert (Haux : ∀ rows0 : list (gmap string Z),
    length rows0 = length rows ->
    length (foldr (fun l rs =>
              set_column l (ffill (bfill (get_column l rows))) rs) rows0 cols)
    = length rows); [|by apply Haux].
  intros rows0 H0. induction cols as [|c cols IH]; simpl; [done|].
  unfold set_column at 1. rewrite length_zip_with, IH.
  unfold ffill, get_column.
  rewrite length_ffill_from, length_bfill, length_fmap. lia.
Qed.

(** The repair keeps the number of rows and the columns. *)
Lemma fix_dataframe_shape o (df df' : DataFrame) :
  fix_dataframe o df = Some df' ->
  columns df' = columns df ∧ length (data df') = length (data df).
Proof.
  unfold fix_dataframe. destruct (empty df); [by intros [= <-]|]. cbv zeta.
  destruct (decide _); [by intros [= <-]|].
  destruct (mapM _ _) as [rows2|] eqn:Hm; simpl; [|done].
  intros [= <-]. simpl. split; [done|].
  apply length_mapM in Hm. rewrite length_fmap in Hm.
  destruct (existsb id _); [|done].
  rewrite length_fill_gaps. done.
Qed.

Lemma fillna_get (s : Series) v l :
  l ∈ index s -> get (fillna s v) l = Some (default v (get s l)).
Proof.
  intros Hl. unfold get at 1. simpl. rewrite decide_True by done.
  assert (Haux : ∀ L : list string,
    foldr (fun l m => match get s l with
                      | Some _ => m
                      | None => <[l := v]> m
                      end) (values s) L !! l =
    if decide (l ∈ L ∧ get s l = None) then Some v else values s !! l).
  { induction L as [|c L IH].
    - simpl. destruct (decide (l ∈ [] ∧ get s l = None)) as [[H _]|_]; [|done].
      by apply elem_of_nil in H.
    - cbn [foldr].
      assert (Hcons : l ∈ c :: L ∧ get s l = None <->
                      (c = l ∧ get s l = None) ∨ (l ∈ L ∧ get s l = None)).
      { rewrite elem_of_cons. naive_solver. }
      destruct (get s c) as [x|] eqn:Hc.
      + rewrite IH.
        destruct (decide (l ∈ L ∧ get s l = None)) as [Hy|Hn];
          destruct (decide (l ∈ c :: L ∧ get s l = None)) as [Hy'|Hn'];
          try done.
        * exfalso. apply Hn', Hcons. by right.
        * exfalso. apply Hcons in Hy' as [[-> H2]|H]; [congruence|done].
      + destruct (decide (c = l)) as [->|Hne].
        * rewrite lookup_insert_eq.
          destruct (decide (l ∈ l :: L ∧ get s l = None)) as [_|Hn']; [done|].
          exfalso. apply Hn', Hcons. by left.
        * rewrite lookup_insert_ne by done. rewrite IH.
          destruct (decide (l ∈ L ∧ get s l = None)) as [Hy|Hn];
            destruct (decide (l ∈ c :: L ∧ get s l = None)) as [Hy'|Hn'];
            try done.
          -- exfalso. apply Hn', Hcons. by right.
          -- exfalso. apply Hcons in Hy' as [[-> H2]|H]; done. }
  rewrite Haux.
  assert (Hg : get s l = values s !! l)
    by (unfold get; by rewrite decide_True).
  rewrite Hg.
  destruct (decide (l ∈ index s ∧ values s !! l = None)) as [[_ ->]|Hn];
    [done|].
  destruct (values s !! l) as [x|]; [done|]. exfalso. by apply Hn.
Qed.

Lemma assign_lookup cols (s : Series) (r : gmap string Z) l :
  l ∈ cols -> assign cols s r !! l = get s l.
Proof.
  unfold assign. induction cols as [|c cols IH]; intros Hl;
    [by apply elem_of_nil in Hl|]. simpl.
  destruct (decide (c = l)) as [->|Hne].
  - destruct (get s l); [by rewrite lookup_insert_eq|by rewrite lookup_delete_eq].
  - apply elem_of_cons in Hl as [->|Hl]; [done|].
    destruct (get s c);
      [rewrite lookup_insert_ne by done|rewrite lookup_delete_ne by done];
      by apply IH.
Qed.

Lemma bfill_lookup_some l i x :
  l !! i = Some (Some x) -> bfill l !! i = Some (Some x).
Proof.
  revert i. induction l as [|y l IH]; intros [|i]; simpl; try done.
  - by intros [= ->].
  - apply IH.
Qed.

Lemma ffill_from_lookup_some last l i x :
  l !! i = Some (Some x) -> ffill_from last l !! i = Some (Some x).
Proof.
  revert last i. induction l as [|y l IH]; intros last [|i]; simpl; try done.
  - by intros [= ->].
  - apply IH.
Qed.

(** Pass 3 leaves a row alone whose designated cells are all present. *)
Lemma fill_gaps_complete cols (rows : list (gmap string Z)) i r :
  rows !! i = Some r ->
  (∀ l, l ∈ cols -> is_Some (r !! l)) ->
  fill_gaps cols rows !! i = Some r.
Proof.
  intros Hi. unfold fill_gaps.
  induction cols as [|c cols IH]; intros Hall; simpl; [done|].
  unfold set_column at 1. rewrite lookup_zip_with.
  rewrite IH by (intros l Hl; apply Hall; by right). simpl.
  destruct (Hall c ltac:(left)) as [x Hx].
  unfold ffill. erewrite ffill_from_lookup_some; [simpl; by rewrite insert_id|].
  apply bfill_lookup_some. unfold get_column.
  by rewrite list_lookup_fmap, Hi, <- Hx.
Qed.

Lemma close_designated (df : DataFrame) :
  "close"%string ∈ columns df -> "close"%string ∈ designated df.
Proof.
  intros Hc. unfold designated. apply list_elem_of_filter. split; [done|].
  unfold PRICE_COLUMNS. do 3 right. left.
Qed.

(** The part of the rule of pass 2 that holds: a row with some designated
    cells missing (zeros counting as missing) and its [close] present comes
    out of the repair with every missing designated cell equal to that
    close, and the others as they were. *)
Lemma intra_row_fill_from_close o (df df' : DataFrame) i r v :
  fix_dataframe o df = Some df' ->
  data df !! i = Some r ->
  "close"%string ∈ columns df ->
  replace_zero (designated df) r !! "close"%string = Some v ->
  ∃ r', data df' !! i = Some r' ∧
    ∀ l, l ∈ designated df ->
      r' !! l = Some (default v (replace_zero (designated df) r !! l)).
Proof.
  intros Hfix Hi Hclose Hv. unfold fix_dataframe in Hfix.
  destruct (empty df) eqn:Hem.
  { exfalso. unfold empty in Hem. apply orb_true_iff in Hem as [H|H];
      apply bool_decide_eq_true_1 in H.
    - rewrite H in Hclose. by apply elem_of_nil in Hclose.
    - by rewrite H in Hi. }
  cbv zeta in Hfix. fold (designated df) in Hfix.
  pose proof (close_designated df Hclose) as Hcd.
  destruct (decide (designated df = [])) as [He|_];
    [rewrite He in Hcd; by apply elem_of_nil in Hcd|].
  set (cols := designated df) in *. set (r1 := replace_zero cols r) in *.
  destruct (mapM _ _) as [rows2|] eqn:Hm; simpl in Hfix; [|done].
  apply mapM_Some in Hm.
  assert (Hi1 : (replace_zero cols <$> data df) !! i = Some r1)
    by (by rewrite list_lookup_fmap, Hi).
  destruct (Forall2_lookup_l _ _ _ _ _ Hm Hi1) as (r2 & Hi2 & Hr2).
  assert (Hcells : ∀ l, l ∈ cols -> r2 !! l = Some (default v (r1 !! l))).
  { intros l Hl. unfold repair_row in Hr2. cbv zeta in Hr2.
    destruct (isna_any _ && negb (isna_all _)) eqn:Hcond.
    - unfold get at 1 in Hr2. simpl in Hr2.
      rewrite decide_True, Hv in Hr2 by done. simpl in Hr2.
      injection Hr2 as <-. rewrite assign_lookup by done.
      rewrite fillna_get by done. by rewrite select_get.
    - injection Hr2 as <-.
      destruct (r1 !! l) as [x|] eqn:Hx; [done|].
      (* the row was not partial: no designated cell is missing *)
      exfalso. clear Hm Hi2 Hfix.
      assert (Hany : isna_any (select {| index := columns df; values := r1 |} cols)
                     = true).
      { unfold isna_any. apply existsb_exists. exists l.
        split; [by apply list_elem_of_In|].
        apply bool_decide_eq_true_2. by rewrite select_get. }
      assert (Hall : isna_all {| index := cols; values := r1 |} = false).
      { apply (isna_all_false cols r1 "close"); [done|by exists v]. }
      unfold select in Hany, Hcond. cbn [values] in Hany, Hcond.
      by rewrite Hany, Hall in Hcond. }
  exists r2. split; [|exact Hcells].
  injection Hfix as <-. simpl.
  destruct (existsb id _); [|done].
  apply fill_gaps_complete; [done|].
  intros l Hl. rewrite (Hcells l Hl). by eexists.
Qed.

(** C1 (the code departs from it): in a row with some but not all
    designated cells missing and [close] missing, the fill value is taken
    from the whole row, not from its designated columns in declaration
    order.  For the row open=5, high=7, low=0, close=0 the rule names 5;
    [fix_dataframe] writes the timestamp (labels kept in the row's order) or
    the high (labels sorted) into low and close. *)
Theorem intra_row_fill_not_first_designated :
  first_designated_value candle_table
    {[ "timestamp"%string := 60000; "open"%string := 5; "high"%string := 7;
       "low"%string := 0; "close"%string := 0; "volume"%string := 3 ]} = Some 5 ∧
  fix_dataframe LeftOrder candle_table = Some
    {| columns := columns candle_table;
       data := [ {[ "timestamp"%string := 60000; "open"%string := 5;
                    "high"%string := 7; "low"%string := 60000;
                    "close"%string := 60000; "volume"%string := 3 ]} ] |} ∧
  fix_dataframe LabelSorted candle_table = Some
    {| columns := columns candle_table;
       data := [ {[ "timestamp"%string := 60000; "open"%string := 5;
                    "high"%string := 7; "low"%string := 7;
                    "close"%string := 7; "volume"%string := 3 ]} ] |}.
Proof. repeat split; vm_compute; reflexivity. Qed.

(** C2 (the code departs from it): the repair can leave an exact zero in a
    designated column that was not zero or missing in every row.  In
    [counted_table] the close of the first row is zero and the close of the
    second is 6; the repair fills the first close from the zero trade count
    and returns the table as it was. *)
Theorem repair_leaves_zero o :
  fix_dataframe o counted_table = Some counted_table ∧
  ¬ void_column "close" counted_table ∧
  ¬ clean_column "close" counted_table.
Proof.
  split; [destruct o; vm_compute; reflexivity|]. split.
  - intros Hvoid.
    destruct (Hvoid {[ "count"%string := 2; "open"%string := 6;
                       "high"%string := 6; "low"%string := 6;
                       "close"%string := 6 ]}) as [H|H].
    + right. left.
    + vm_compute in H. discriminate.
    + vm_compute in H. discriminate.
  - intros Hclean.
    destruct (Hclean {[ "count"%string := 0; "open"%string := 5;
                        "high"%string := 5; "low"%string := 5;
                        "close"%string := 0 ]}) as (v & Hv & Hnz).
    + left.
    + vm_compute in Hv. congruence.
Qed.

(** C3 (the code departs from it): repairing [gap_table] twice does not give
    what repairing it once gives.  The first repair copies the zero close of
    the second row back into the first; the second repair then fills that
    close from the first row's own trade count. *)
Theorem repair_not_idempotent o :
  fix_dataframe o gap_table = Some gap_table_once ∧
  fix_dataframe o gap_table_once = Some gap_table_twice ∧
  gap_table_once ≠ gap_table_twice.
Proof.
  split; [destruct o; vm_compute; reflexivity|].
  split; [destruct o; vm_compute; reflexivity|].
  intros Heq.
  apply (f_equal (fun df => r ← data df !! 0%nat; r !! "close"%string)) in Heq.
  vm_compute in Heq. discriminate.
Qed.

End CorrectorFacts.

(** ** Underlying-price derivation *)

Section ClientFacts.

Import Corrector Client.

Ltac run_monad :=
  unfold mbind, M_bind, mret, M_ret, raise, lift, fetch, parse_response in *;
  simpl in *.

Lemma get_expirations_run t symbol date log :
  get_expirations t symbol date log =
  (log ++ [ReqExpirations symbol (format_date date)], expirations_of t symbol date).
Proof.
  unfold expirations_of, get_expirations. run_monad.
  destruct (list_expirations t symbol (format_date date)) as [resp|]; [|done].
  by destruct (decide (env_error resp = EmptyString)).
Qed.

Lemma get_strikes_run t symbol expiration date log :
  get_strikes t symbol expiration date log =
  (log ++ [ReqStrikes symbol expiration (format_date date)],
   strikes_of t symbol expiration date).
Proof.
  unfold strikes_of, get_strikes. run_monad.
  destruct (list_strikes t symbol expiration (format_date date)) as [resp|]; [|done].
  by destruct (decide (env_error resp = EmptyString)).
Qed.

Lemma aggregate_run rows log : aggregate rows log = (log, (aggregate rows []).2).
Proof. unfold aggregate. by destruct (has_column "timestamp" rows). Qed.

Lemma derive_from_items_run o symbol date interval items log :
  derive_from_items o symbol date interval items log =
  (log, derived_of o symbol date interval items).
Proof.
  unfold derived_of, derive_from_items.
  destruct (decide (items = [])); [done|]. cbv zeta.
  destruct (frame_empty _ || negb _); [done|].
  run_monad. rewrite (aggregate_run _ log).
  destruct (aggregate (flatten items) []) as [l0 [e|ohlc]]; simpl; [done|].
  destruct (fix_dataframe o ohlc) as [df|]; run_monad; [|done].
  unfold mkUnderlyingData. by destruct (empty df).
Qed.

Lemma try_right_run o t symbol date interval exp strike r log :
  try_right o t symbol date interval exp strike r log =
  (log ++ [ReqGreeks symbol exp strike r (format_date date)],
   match greeks_of t symbol exp strike r date with
   | inl e => inl e
   | inr items => derived_of o symbol date interval items
   end).
Proof.
  unfold try_right, greeks_of. cbv zeta.
  unfold mbind at 1, M_bind, fetch.
  destruct (greeks_first_order t symbol exp strike r (format_date date))
    as [resp|]; [|done].
  unfold mbind, M_bind, parse_response.
  destruct (decide (env_error resp = EmptyString)); [|done].
  unfold mret, M_ret. apply derive_from_items_run.
Qed.

Lemma try_expiration_run o t symbol date interval exp log :
  try_expiration o t symbol date interval exp log =
  match strikes_of t symbol exp date with
  | inl e => (log ++ [ReqStrikes symbol exp (format_date date)], inl e)
  | inr strikes =>
      if decide (strikes = [])
      then (log ++ [ReqStrikes symbol exp (format_date date)], inr None)
      else for_each [Call; Put]
             (try_right o t symbol date interval exp (atm_strike strikes))
             (log ++ [ReqStrikes symbol exp (format_date date)])
  end.
Proof.
  unfold try_expiration. unfold mbind at 1, M_bind.
  rewrite get_strikes_run.
  destruct (strikes_of t symbol exp date) as [e|strikes]; [done|].
  by destruct (decide (strikes = [])).
Qed.

Lemma fetch_underlying_ohlc_run o t symbol date interval log :
  fetch_underlying_ohlc o t symbol date interval log =
  match expirations_of t symbol date with
  | inl e => (log ++ [ReqExpirations symbol (format_date date)], inl e)
  | inr exps =>
      if decide (exps = [])
      then (log ++ [ReqExpirations symbol (format_date date)], inl NoExpirations)
      else
        match for_each (take 2 exps) (try_expiration o t symbol date interval)
                (log ++ [ReqExpirations symbol (format_date date)]) with
        | (l, inl e) => (l, inl e)
        | (l, inr (Some u)) => (l, inr u)
        | (l, inr None) => (l, inl DerivationFailed)
        end
  end.
Proof.
  unfold fetch_underlying_ohlc. unfold mbind at 1, M_bind.
  rewrite get_expirations_run.
  destruct (expirations_of t symbol date) as [e|exps]; [done|].
  destruct (decide (exps = [])); [done|].
  unfold mbind, M_bind.
  by destruct (for_each _ _ _) as [l [e|[u|]]].
Qed.

Lemma derived_of_unfold o symbol date interval items :
  derived_of o symbol date interval items =
  if usable items then
    if has_column "timestamp" (flatten items) then
      match fix_dataframe o (ohlc_frame (flatten items)) with
      | Some df =>
          if empty df then inl EmptyUnderlying
          else inr (Some {| symbol := symbol; udata := df;
                            date := date; interval := interval |})
      | None => inl RepairFailed
      end
    else inl MissingTimestamp
  else inr None.
Proof.
  unfold derived_of, derive_from_items, usable.
  destruct (decide (items = [])) as [->|Hne]; [done|].
  rewrite bool_decide_eq_true_2 by done. cbv zeta. simpl.
  destruct (frame_empty (flatten items)); simpl; [done|].
  destruct (has_column "underlying_price" (flatten items)); simpl; [|done].
  unfold aggregate. run_monad.
  destruct (has_column "timestamp" (flatten items)); simpl; [|done].
  destruct (fix_dataframe o (ohlc_frame (flatten items))) as [df|]; simpl; [|done].
  unfold mkUnderlyingData. by destruct (empty df).
Qed.



Lemma derived_of_nonempty o symbol date interval items u :
  derived_of o symbol date interval items = inr (Some u) ->
  empty (udata u) = false.
Proof.
  rewrite derived_of_unfold. destruct (usable items); [|done].
  destruct (has_column "timestamp" (flatten items)); [|done].
  destruct (fix_dataframe o _) as [df|]; [|done].
  destruct (empty df) eqn:He; [done|]. by intros [= <-].
Qed.



Lemma strikes_of_sorted t symbol exp date strikes :
  strikes_of t symbol exp date = inr strikes -> Sorted Z.le strikes.
Proof.
  unfold strikes_of, get_strikes. run_monad.
  destruct (list_strikes t symbol exp (format_date date)) as [resp|]; [|done].
  destruct (decide (env_error resp = EmptyString)); [|done].
  intros [= <-]. apply (Sorted_merge_sort Z.le).
Qed.


(** *** Loops *)


Lemma for_each_stop {X A} (xs : list X) (body : X -> M (option A)) log log' res :
  for_each xs body log = (log', res) ->
  res ≠ inr None ->
  ∃ x l, x ∈ xs ∧ body x l = (log', res).
Proof.
  revert log. induction xs as [|x xs IH]; intros log Hrun Hres.
  - simpl in Hrun. unfold mret, M_ret in Hrun. congruence.
  - simpl in Hrun. unfold mbind, M_bind in Hrun.
    destruct (body x log) as [l1 [e|[a|]]] eqn:Hb.
    + inversion Hrun; subst. exists x, log. split; [left|done].
    + unfold mret, M_ret in Hrun. inversion Hrun; subst.
      exists x, log. split; [left|done].
    + destruct (IH l1 Hrun Hres) as (y & l & Hy & Hby).
      exists y, l. split; [by right|done].
Qed.

(** A property of the pair (request log, outcome) that every iteration
    establishes from a good log holds when the loop ends. *)
Lemma for_each_inv {X A} (P : list request -> Prop)
    (Q : list request -> error + option A -> Prop)
    (xs : list X) (body : X -> M (option A)) log :
  P log ->
  (∀ l, P l -> Q l (inr None)) ->
  (∀ x l, x ∈ xs -> P l ->
     (P (body x l).1 ∧ (body x l).2 = inr None) ∨
     ((body x l).2 ≠ inr None ∧ Q (body x l).1 (body x l).2)) ->
  Q (for_each xs body log).1 (for_each xs body log).2.
Proof.
  intros HP HQ Hbody. revert log HP.
  induction xs as [|x xs IH]; intros log HP; simpl.
  - by apply HQ.
  - unfold mbind, M_bind.
    destruct (Hbody x log ltac:(left) HP) as [[HP' Hn]|[Hn HQ']];
      destruct (body x log) as [l1 [e|[a|]]]; simpl in *; try done.
    apply IH; [|done]. intros y l Hy. apply Hbody. by right.
Qed.

Lemma for_each_log {X A} (P : list request -> Prop)
    (xs : list X) (body : X -> M (option A)) log :
  P log ->
  (∀ x l, x ∈ xs -> P l -> P (body x l).1) ->
  P (for_each xs body log).1.
Proof.
  intros HP Hbody. revert log HP.
  induction xs as [|x xs IH]; intros log HP; simpl; [done|].
  unfold mbind, M_bind.
  pose proof (Hbody x log ltac:(left) HP) as HP'.
  destruct (body x log) as [l1 [e|[a|]]]; simpl in *; try done.
  apply IH; [|done]. intros y l Hy. apply Hbody. by right.
Qed.

Lemma for_each_cons {X A} (x : X) (xs : list X) (body : X -> M (option A)) :
  for_each (x :: xs) body =
  (r ← body x;
   match r with
   | Some a => mret (Some a)
   | None => for_each xs body
   end).
Proof. reflexivity. Qed.

#[local] Arguments for_each : simpl never.

(** *** Outcome of the derivation *)



Lemma null_price_outcome o :
  fetch_underlying_ohlc o null_price_terminal "SPX" "2024-06-05" "1m" [] =
  ([ReqExpirations "SPX" "20240605";
    ReqStrikes "SPX" "20240607" "20240605";
    ReqGreeks "SPX" "20240607" 100 Call "20240605"],
   inl EmptyUnderlying).
Proof. destruct o; vm_compute; reflexivity. Qed.



(** *** The middle strike *)

(** Trying an expiration always asks for its strikes. *)
Lemma try_expiration_requests o t symbol date interval exp log :
  ReqStrikes symbol exp (format_date date)
    ∈ (try_expiration o t symbol date interval exp log).1.
Proof.
  rewrite try_expiration_run.
  assert (Hin : ReqStrikes symbol exp (format_date date)
                  ∈ log ++ [ReqStrikes symbol exp (format_date date)])
    by (apply elem_of_app; right; left).
  destruct (strikes_of t symbol exp date) as [e|strikes]; [done|].
  destruct (decide (strikes = [])); [done|].
  apply (for_each_log (fun l => ReqStrikes symbol exp (format_date date) ∈ l));
    [done|].
  intros r l _ Hl. rewrite try_right_run. simpl. apply elem_of_app. by left.
Qed.

Lemma atm_strike_lookup (strikes : list Z) :
  strikes ≠ [] ->
  strikes !! (length strikes `div` 2)%nat = Some (atm_strike strikes).
Proof.
  intros Hne. unfold atm_strike. apply list_lookup_lookup_total_lt.
  destruct strikes as [|k strikes]; [done|].
  apply Nat.div_lt; simpl; lia.
Qed.

(** C7: every Greeks request of the derivation is for one of the first two
    expirations and uses the strike at the integer-division midpoint index of
    that expiration's sorted strike list, which is not empty (an expiration
    without strikes gets no Greeks request, and the search moves on to the
    second expiration); for the strikes 90, 95, 100, 105, 110 the strike is
    100, also when the first expiration has no strikes. *)
Theorem atm_proxy_strike o t symbol date interval :
  Forall (midpoint_request t symbol date) (requests o t symbol date interval) ∧
  (∀ e1 e2 rest,
     expirations_of t symbol date = inr (e1 :: e2 :: rest) ->
     strikes_of t symbol e1 date = inr [] ->
     ReqStrikes symbol e2 (format_date date) ∈ requests o t symbol date interval) ∧
  atm_strike [90; 95; 100; 105; 110] = 100 ∧
  requests o two_expiration_terminal "SPX" "2024-06-05" "1m" =
    [ReqExpirations "SPX" "20240605";
     ReqStrikes "SPX" "20240607" "20240605";
     ReqStrikes "SPX" "20240614" "20240605";
     ReqGreeks "SPX" "20240614" 100 Call "20240605"].
Proof.
  split; [|split; [|split; [reflexivity|destruct o; vm_compute; reflexivity]]].
  2: { intros e1 e2 rest He Hs1. unfold requests.
       rewrite fetch_underlying_ohlc_run, He.
       rewrite decide_False by done.
       change (take 2 (e1 :: e2 :: rest)) with [e1; e2].
       rewrite for_each_cons. unfold mbind at 1, M_bind.
       rewrite try_expiration_run, Hs1, decide_True by done.
       rewrite for_each_cons. unfold mbind at 1, M_bind.
       pose proof (try_expiration_requests o t symbol date interval e2
         ([ReqExpirations symbol (format_date date)] ++
          [ReqStrikes symbol e1 (format_date date)])) as Hin.
       destruct (try_expiration o t symbol date interval e2 _)
         as [l [e|[u|]]]; exact Hin. }
  unfold requests. rewrite fetch_underlying_ohlc_run. unfold listed_expirations.
  destruct (expirations_of t symbol date) as [e|exps] eqn:He; simpl.
  { by repeat constructor. }
  destruct (decide (exps = [])); simpl; [by repeat constructor|].
  match goal with
  | |- Forall ?P (let (l, s) := ?run in _).1 =>
      assert (Hlog : Forall P run.1); [|by destruct run as [l [e|[u|]]]]
  end.
  apply (for_each_log (Forall (midpoint_request t symbol date)));
    [by repeat constructor|].
  intros exp l Hexp Hl. rewrite try_expiration_run.
  assert (Hl1 : Forall (midpoint_request t symbol date)
                  (l ++ [ReqStrikes symbol exp (format_date date)])).
  { apply Forall_app. split; [done|by repeat constructor]. }
  destruct (strikes_of t symbol exp date) as [e|strikes] eqn:Hs; [done|].
  destruct (decide (strikes = [])) as [|Hne]; [done|].
  apply (for_each_log (Forall (midpoint_request t symbol date))); [done|].
  intros r l' _ Hl'. rewrite try_right_run. simpl.
  apply Forall_app. split; [done|]. constructor; [|constructor].
  unfold midpoint_request, listed_expirations. rewrite He. split; [done|].
  exists strikes. split; [done|]. split; [by eapply strikes_of_sorted|].
  split; [done|]. by apply atm_strike_lookup.
Qed.

(** *** The empty-table guard *)

Lemma omap_all_none {A B} (f : A -> option B) (l : list A) :
  Forall (fun x => f x = None) l -> omap f l = [].
Proof.
  induction 1 as [|x l Hx _ IH]; [done|]. simpl. by rewrite Hx.
Qed.

Lemma ohlc_frame_null rows :
  Forall (fun r => cell r "underlying_price" = None) rows ->
  data (ohlc_frame rows) = [].
Proof.
  intros Hnull. unfold ohlc_frame. cbv zeta. simpl.
  rewrite (omap_all_none _ rows).
  - reflexivity.
  - eapply Forall_impl; [exact Hnull|]. intros r Hr. simpl. by rewrite Hr.
Qed.

Lemma fix_dataframe_empty o df : empty df = true -> fix_dataframe o df = Some df.
Proof. intros He. unfold fix_dataframe. by rewrite He. Qed.

Lemma null_underlying_usable items : null_underlying items -> usable items = true.
Proof.
  intros (Hrows & Hcol & _). unfold usable. rewrite Hcol.
  rewrite bool_decide_eq_true_2 by (by intros ->). simpl.
  rewrite andb_true_r. apply negb_true_iff. unfold frame_empty.
  rewrite bool_decide_eq_false_2 by done. simpl.
  apply bool_decide_eq_false_2. intros Hall.
  unfold has_column in Hcol. apply bool_decide_eq_true_1 in Hcol.
  apply Exists_exists in Hcol as (r & Hr & [v Hv]).
  rewrite Forall_forall in Hall. rewrite (Hall r Hr) in Hv. done.
Qed.

(** Such a response is neither skipped nor returned: processing it raises. *)
Lemma derived_of_null o symbol date interval items :
  null_underlying items ->
  derived_of o symbol date interval items =
  inl (if has_column "timestamp" (flatten items)
       then EmptyUnderlying else MissingTimestamp).
Proof.
  intros Hnull. rewrite derived_of_unfold, null_underlying_usable by done.
  destruct (has_column "timestamp" (flatten items)); [|done].
  destruct Hnull as (_ & _ & Hall).
  assert (He : empty (ohlc_frame (flatten items)) = true).
  { unfold empty. rewrite (ohlc_frame_null _ Hall).
    rewrite (bool_decide_eq_true_2 ([] = [])) by done. apply orb_true_r. }
  rewrite fix_dataframe_empty by done. by rewrite He.
Qed.

Lemma no_null_request_snoc t symbol date l req :
  no_null_request t symbol date l ->
  ¬ null_request t symbol date req ->
  no_null_request t symbol date (l ++ [req]).
Proof.
  intros Hl Hreq x Hx. apply elem_of_app in Hx as [Hx|Hx]; [by apply Hl|].
  apply list_elem_of_singleton in Hx. by subst.
Qed.

Lemma search_stops_at_null o t symbol date interval exps log :
  no_null_request t symbol date log ->
  no_null_request t symbol date
    (for_each (take 2 exps) (try_expiration o t symbol date interval) log).1 ∨
  stopped_at_null t symbol date
    (for_each (take 2 exps) (try_expiration o t symbol date interval) log).1
    (error_of (for_each (take 2 exps)
                 (try_expiration o t symbol date interval) log).2).
Proof.
  intros Hlog.
  apply (for_each_inv (no_null_request t symbol date)
           (fun l res => no_null_request t symbol date l ∨
                         stopped_at_null t symbol date l (error_of res)));
    [done|by left|].
  intros exp l _ Hl. rewrite try_expiration_run.
  assert (Hl1 : no_null_request t symbol date
                  (l ++ [ReqStrikes symbol exp (format_date date)])).
  { apply no_null_request_snoc; [done|]. by intros (? & ? & ? & ? & ? & _). }
  destruct (strikes_of t symbol exp date) as [e|strikes].
  { right. split; [done|by left]. }
  destruct (decide (strikes = [])); [by left|].
  apply (for_each_inv (no_null_request t symbol date)
           (fun l res =>
              (no_null_request t symbol date l ∧ res = inr None) ∨
              (res ≠ inr None ∧
               (no_null_request t symbol date l ∨
                stopped_at_null t symbol date l (error_of res)))));
    [done|by left|].
  intros r l' _ Hl'. rewrite try_right_run. simpl.
  destruct (greeks_of t symbol exp (atm_strike strikes) r date)
    as [e|items] eqn:Hg.
  { right. split; [done|]. right. split; [done|]. left.
    apply no_null_request_snoc; [done|].
    intros (? & ? & ? & ? & [= <- <- <-] & Hg' & _). congruence. }
  destruct (decide (null_underlying items)) as [Hnull|Hnn].
  - rewrite (derived_of_null _ _ _ _ _ Hnull).
    right. split; [done|]. right. split; [done|]. right.
    exists l', (ReqGreeks symbol exp (atm_strike strikes) r (format_date date)).
    split; [done|]. split; [done|].
    split; [by exists exp, (atm_strike strikes), r, items|].
    simpl. destruct (has_column "timestamp" (flatten items)); tauto.
  - assert (Hl2 : no_null_request t symbol date
      (l' ++ [ReqGreeks symbol exp (atm_strike strikes) r (format_date date)])).
    { apply no_null_request_snoc; [done|].
      intros (? & ? & ? & ? & [= <- <- <-] & Hg' & Hn). congruence. }
    destruct (derived_of o symbol date interval items) as [e|[u|]].
    + right. split; [done|]. right. split; [done|]. by left.
    + right. split; [done|]. right. split; [done|]. by left.
    + by left.
Qed.

(** C10: a successful derivation returns a non-empty table, because the
    [UnderlyingData] constructor rejects an empty one; and when a Greeks
    request of the derivation is answered by a table that has the
    underlying-price column but no value in it, the call raises (the
    empty-table error, or the missing-column error when the table has no
    timestamp column either) and that request is its last: no empty series is
    returned and the search does not go on. *)
Theorem empty_table_guard o t symbol date interval :
  (∀ u, outcome o t symbol date interval = inr u ->
        empty (udata u) = false ∧ data (udata u) ≠ []) ∧
  (∀ req, req ∈ requests o t symbol date interval ->
          null_request t symbol date req ->
          (outcome o t symbol date interval = inl EmptyUnderlying ∨
           outcome o t symbol date interval = inl MissingTimestamp) ∧
          last (requests o t symbol date interval) = Some req).
Proof.
  split.
  - intros u. unfold outcome. rewrite fetch_underlying_ohlc_run.
    destruct (expirations_of t symbol date) as [e|exps]; [done|].
    destruct (decide (exps = [])); [done|].
    destruct (for_each (take 2 exps) _ _) as [l [e|[u'|]]] eqn:Hrun; simpl;
      [done| |done].
    intros [= ->].
    apply for_each_stop in Hrun as (exp & l0 & _ & Hb); [|done].
    rewrite try_expiration_run in Hb.
    destruct (strikes_of t symbol exp date) as [e|strikes]; [done|].
    destruct (decide (strikes = [])); [done|].
    apply for_each_stop in Hb as (r & l1 & _ & Hr); [|done].
    rewrite try_right_run in Hr. inversion Hr as [[Hl Hd]].
    destruct (greeks_of t symbol exp (atm_strike strikes) r date); [done|].
    apply derived_of_nonempty in Hd. split; [done|].
    unfold empty in Hd. apply orb_false_iff in Hd as [_ Hd].
    by apply bool_decide_eq_false_1 in Hd.
  - assert (Hinv :
      no_null_request t symbol date (requests o t symbol date interval) ∨
      stopped_at_null t symbol date (requests o t symbol date interval)
        (error_of (outcome o t symbol date interval))).
    { unfold requests, outcome. rewrite fetch_underlying_ohlc_run. simpl.
      assert (H0 : no_null_request t symbol date
                     [ReqExpirations symbol (format_date date)]).
      { intros x Hx. apply list_elem_of_singleton in Hx. subst.
        by intros (? & ? & ? & ? & ? & _). }
      destruct (expirations_of t symbol date) as [e|exps]; [by left|].
      destruct (decide (exps = [])); [by left|].
      pose proof (search_stops_at_null o t symbol date interval exps _ H0) as Hs.
      destruct (for_each (take 2 exps) _ _) as [l [e|[u|]]]; simpl in *.
      - exact Hs.
      - exact Hs.
      - destruct Hs as [Hs|(? & ? & _ & _ & _ & [?|?])]; [by left|done|done]. }
    intros req Hreq Hnull.
    destruct Hinv as [Hno|(l0 & req' & Hl & Hno & Hnull' & Herr)];
      [by destruct (Hno req Hreq)|].
    rewrite Hl in Hreq. apply elem_of_app in Hreq as [Hreq|Hreq];
      [by destruct (Hno req Hreq)|].
    apply list_elem_of_singleton in Hreq. subst req'.
    split.
    + destruct (outcome o t symbol date interval) as [e|u]; simpl in Herr;
        [|by destruct Herr].
      destruct Herr as [[= ->]|[= ->]]; tauto.
    + rewrite Hl. apply last_snoc.
Qed.

Lemma empty_table_guard_witness :
  outcome LabelSorted null_price_terminal "SPX" "2024-06-05" "1m"
    = inl EmptyUnderlying ∨
  outcome LabelSorted null_price_terminal "SPX" "2024-06-05" "1m"
    = inl MissingTimestamp.
Proof.
  apply (empty_table_guard LabelSorted null_price_terminal "SPX" "2024-06-05" "1m")
    with (req := ReqGreeks "SPX" "20240607" 100 Call "20240605").
  - unfold requests. rewrite null_price_outcome. simpl. right. right. left.
  - exists "20240607"%string, 100, Call,
      [Flat {[ "timestamp"%string := Some 60000;
               "underlying_price"%string := None ]}].
    split; [reflexivity|]. split; [reflexivity|].
    split; [discriminate|]. split; [reflexivity|].
    constructor; [reflexivity|constructor].
Defined.

End ClientFacts.

(** * Further properties *)

(** ** calendar_utils.py and the trading days of bulk.py *)

Section CalendarMore.

Import CalendarUtils Bulk.

Lemma weekday_monday d : weekday (friday_of_week d - 4) = 0.
Proof.
  pose proof (weekday_friday d) as Hf.
  replace (friday_of_week d - 4) with (friday_of_week d + (-4)) by lia.
  rewrite weekday_shift; lia.
Qed.

(** X1: [last_trading_day_of_week] returns the latest day of the current
    Monday-to-Friday window that is not closed, which is a weekday of the
    week of [d]; it returns nothing exactly when all five days are closed. *)
Theorem last_trading_day_of_week_result d (closed : gset Z) :
  (weekday (friday_of_week d - 4) = 0 ∧
   friday_of_week d - 4 <= d <= friday_of_week d + 2) ∧
  match last_trading_day_of_week d closed with
  | Some w =>
      (friday_of_week d - 4 <= w <= friday_of_week d) ∧
      weekday w = w - (friday_of_week d - 4) ∧
      (w ∉ closed) ∧
      (∀ x, w < x <= friday_of_week d -> x ∈ closed)
  | None => ∀ x, friday_of_week d - 4 <= x <= friday_of_week d -> x ∈ closed
  end.
Proof.
  split.
  - split; [apply weekday_monday|].
    unfold friday_of_week. pose proof (weekday_range d). lia.
  - destruct (last_trading_day_of_week d closed) as [w|] eqn:Hw.
    + apply last_trading_day_of_week_spec in Hw as (Hr & Hc & Hall).
      split; [done|]. split; [|done].
      pose proof (weekday_monday d) as Hm.
      replace w with (friday_of_week d - 4 + (w - (friday_of_week d - 4)))
        at 1 by lia.
      rewrite weekday_shift; lia.
    + by apply last_trading_day_of_week_none.
Qed.

(** X2: [wednesday_of_week] returns the Wednesday of the Monday-to-Sunday
    week of its argument: between four days back and two days ahead, the same
    for every day of that week, and a fixed point of the function. *)
Theorem wednesday_of_week_in_week d :
  weekday (wednesday_of_week d) = 2 ∧
  (d - 4 <= wednesday_of_week d <= d + 2) ∧
  wednesday_of_week d = friday_of_week d - 2 ∧
  wednesday_of_week (wednesday_of_week d) = wednesday_of_week d ∧
  (∀ d', d' - weekday d' = d - weekday d ->
         wednesday_of_week d' = wednesday_of_week d).
Proof.
  pose proof (weekday_range d) as Hr.
  split; [apply weekday_wednesday|].
  split; [unfold wednesday_of_week; lia|].
  split; [unfold wednesday_of_week, friday_of_week; lia|].
  split.
  - pose proof (weekday_wednesday d) as Hw.
    unfold wednesday_of_week at 1. rewrite Hw. lia.
  - intros d' Hd'. unfold wednesday_of_week. lia.
Qed.

Lemma same_day_weekly_elem symbol d (available : list date) (closed : gset Z) x :
  symbol ∈ ["SPX"; "SPXW"; "SPY"; "QQQ"]%string ->
  x ∈ select_target_expirations symbol d available closed <->
  (x = d ∧ d ∈ available) ∨
  (is_last_trading_day d closed x ∧ x ≠ d ∧ x ∈ available).
Proof.
  intros Hsym. unfold select_target_expirations. cbv zeta.
  rewrite bool_decide_eq_true_2 by done.
  rewrite elem_of_sorted_elements.
  destruct (last_trading_day_of_week d closed) as [w|] eqn:Hw.
  - assert (Hiff : ∀ y, is_last_trading_day d closed y <-> y = w).
    { intros y. rewrite <- last_trading_day_of_week_spec, Hw. naive_solver. }
    setoid_rewrite Hiff.
    repeat case_decide; set_unfold; naive_solver.
  - assert (Hno : ∀ y, ¬ is_last_trading_day d closed y).
    { intros y Hy. apply last_trading_day_of_week_spec in Hy. congruence. }
    case_decide; set_unfold; rewrite ?elem_of_list_to_set in *; naive_solver.
Qed.

Lemma NoDup_length_le_2 (l : list Z) (a b : Z) :
  NoDup l -> (∀ x, x ∈ l -> x = a ∨ x = b) -> (length l <= 2)%nat.
Proof.
  intros Hnd Hin.
  destruct l as [|x [|y [|z l]]]; simpl; try lia.
  exfalso.
  apply NoDup_cons in Hnd as [Hx Hnd].
  apply NoDup_cons in Hnd as [Hy Hnd].
  apply NoDup_cons in Hnd as [Hz _].
  pose proof (Hin x ltac:(left)).
  pose proof (Hin y ltac:(right; left)).
  pose proof (Hin z ltac:(right; right; left)).
  set_unfold. naive_solver.
Qed.

(** X3: for a symbol of the same-day-plus-weekly class the targets are
    exactly the current date, when it is available, and the last trading day
    of the week, when it is available and differs from the current date:
    nothing else is ever selected, so there are at most two targets. *)
Theorem same_day_weekly_exact symbol d (available : list date) (closed : gset Z) :
  symbol ∈ ["SPX"; "SPXW"; "SPY"; "QQQ"]%string ->
  (∀ x, x ∈ select_target_expirations symbol d available closed <->
        (x = d ∧ d ∈ available) ∨
        (is_last_trading_day d closed x ∧ x ≠ d ∧ x ∈ available)) ∧
  (length (select_target_expirations symbol d available closed) <= 2)%nat.
Proof.
  intros Hsym. split; [intros x; by apply same_day_weekly_elem|].
  assert (Hnd : NoDup (select_target_expirations symbol d available closed)).
  { unfold select_target_expirations. cbv zeta.
    rewrite merge_sort_Permutation. apply NoDup_elements. }
  destruct (last_trading_day_of_week d closed) as [w|] eqn:Hw.
  - apply (NoDup_length_le_2 _ d w); [done|].
    intros x Hx.
    apply (same_day_weekly_elem _ _ _ _ _ Hsym) in Hx as [[-> _]|[Hl _]];
      [by left|].
    right. apply last_trading_day_of_week_spec in Hl. congruence.
  - apply (NoDup_length_le_2 _ d d); [done|].
    intros x Hx.
    apply (same_day_weekly_elem _ _ _ _ _ Hsym) in Hx as [[-> _]|[Hl _]];
      [by left|].
    apply last_trading_day_of_week_spec in Hl. congruence.
Qed.

Lemma same_day_weekly_exact_witness :
  (∀ x, x ∈ select_target_expirations "SPY" (ymd 2024 6 5)
              [ymd 2024 6 5; ymd 2024 6 7] ∅ <->
        (x = ymd 2024 6 5 ∧ ymd 2024 6 5 ∈ [ymd 2024 6 5; ymd 2024 6 7]) ∨
        (is_last_trading_day (ymd 2024 6 5) ∅ x ∧ x ≠ ymd 2024 6 5 ∧
         x ∈ [ymd 2024 6 5; ymd 2024 6 7])) ∧
  (length (select_target_expirations "SPY" (ymd 2024 6 5)
             [ymd 2024 6 5; ymd 2024 6 7] ∅) <= 2)%nat.
Proof.
  apply (same_day_weekly_exact "SPY" (ymd 2024 6 5) [ymd 2024 6 5; ymd 2024 6 7] ∅).
  apply (bool_decide_eq_true_1 _). reflexivity.
Defined.

Lemma vix_result d (available : list date) (closed : gset Z) :
  select_target_expirations "VIX" d available closed =
  if decide (weekday d ∈ [0; 1]) then
    if decide (wednesday_of_week d ∈ (list_to_set available : gset Z)
               ∧ wednesday_of_week d ∉ closed)
    then [wednesday_of_week d]
    else match get_next_valid_vix_expiration d (list_to_set available) with
         | Some e => [e]
         | None => []
         end
  else match get_next_valid_vix_expiration d (list_to_set available) with
       | Some e => [e]
       | None => []
       end.
Proof.
  unfold select_target_expirations. cbv zeta. rewrite vix_branch.
  repeat case_decide;
    try apply fallback_targets; apply sorted_elements_singleton.
Qed.

Lemma vix_target_ahead d (available : list date) (closed : gset Z) x :
  x ∈ select_target_expirations "VIX" d available closed -> d < x <= d + 45.
Proof.
  rewrite vix_result.
  pose proof (weekday_range d) as Hr.
  assert (Hnext : x ∈ match get_next_valid_vix_expiration d
                             (list_to_set available) with
                      | Some e => [e]
                      | None => []
                      end -> d < x <= d + 45).
  { destruct (get_next_valid_vix_expiration _ _) as [e|] eqn:He;
      [|by intros ?%elem_of_nil].
    intros ->%list_elem_of_singleton.
    by apply get_next_valid_vix_expiration_spec in He as (? & _). }
  destruct (decide (weekday d ∈ [0; 1])) as [Hwd|_]; [|done].
  case_decide; [|done].
  intros ->%list_elem_of_singleton.
  unfold wednesday_of_week. set_unfold. lia.
Qed.

Lemma other_symbol_no_target symbol d (available : list date) (closed : gset Z) :
  symbol ∉ ["SPX"; "SPXW"; "SPY"; "QQQ"; "VIX"]%string ->
  select_target_expirations symbol d available closed = [].
Proof.
  intros Hsym. unfold select_target_expirations. cbv zeta.
  rewrite bool_decide_eq_false_2 by (set_unfold; naive_solver).
  rewrite bool_decide_eq_false_2 by (set_unfold; naive_solver).
  apply sorted_elements_empty.
Qed.

(** X4: for VIX at most one expiration is selected, and it lies strictly
    after the current date and at most 45 days ahead, whichever branch chose
    it; a symbol of neither class gets no target. *)
Theorem vix_window symbol d (available : list date) (closed : gset Z) :
  (length (select_target_expirations "VIX" d available closed) <= 1)%nat ∧
  (∀ x, x ∈ select_target_expirations "VIX" d available closed ->
        d < x <= d + 45) ∧
  (symbol ∉ ["SPX"; "SPXW"; "SPY"; "QQQ"; "VIX"]%string ->
   select_target_expirations symbol d available closed = []).
Proof.
  split; [|split].
  - rewrite vix_result.
    repeat case_decide; try destruct (get_next_valid_vix_expiration _ _);
      simpl; lia.
  - intros x. apply vix_target_ahead.
  - apply other_symbol_no_target.
Qed.

Lemma trading_day_weekly d (closed : gset Z) :
  weekday d < 5 -> d ∉ closed ->
  ∃ w, last_trading_day_of_week d closed = Some w ∧ d <= w <= friday_of_week d.
Proof.
  intros Hwd Hc. pose proof (weekday_range d) as Hr.
  destruct (last_trading_day_of_week d closed) as [w|] eqn:Hw.
  - exists w. split; [done|].
    apply last_trading_day_of_week_spec in Hw as (Hrw & _ & Hall).
    split; [|lia].
    destruct (decide (d <= w)); [done|].
    exfalso. apply Hc, Hall. unfold friday_of_week. lia.
  - exfalso. apply Hc.
    apply (proj1 (last_trading_day_of_week_none d closed) Hw).
    unfold friday_of_week. lia.
Qed.

(** X5: on a trading day (a weekday that is not closed) the week always has
    a last trading day, and every target of the same-day-plus-weekly class
    lies between the current date and that week's Friday. *)
Theorem trading_day_targets_in_week symbol d (available : list date) (closed : gset Z) :
  weekday d < 5 -> d ∉ closed ->
  symbol ∈ ["SPX"; "SPXW"; "SPY"; "QQQ"]%string ->
  is_Some (last_trading_day_of_week d closed) ∧
  ∀ x, x ∈ select_target_expirations symbol d available closed ->
       d <= x <= friday_of_week d.
Proof.
  intros Hwd Hc Hsym.
  destruct (trading_day_weekly d closed Hwd Hc) as (w & Hw & Hdw).
  split; [by rewrite Hw|].
  intros x Hx.
  apply (same_day_weekly_elem _ _ _ _ _ Hsym) in Hx as [[-> _]|[Hl _]]; [lia|].
  apply last_trading_day_of_week_spec in Hl. assert (x = w) as -> by congruence.
  done.
Qed.

Lemma trading_day_targets_in_week_witness :
  is_Some (last_trading_day_of_week (ymd 2024 6 5) ∅) ∧
  ∀ x, x ∈ select_target_expirations "SPX" (ymd 2024 6 5)
             [ymd 2024 6 5; ymd 2024 6 7] ∅ ->
       ymd 2024 6 5 <= x <= friday_of_week (ymd 2024 6 5).
Proof.
  apply (trading_day_targets_in_week "SPX" (ymd 2024 6 5)
           [ymd 2024 6 5; ymd 2024 6 7] ∅).
  - vm_compute. reflexivity.
  - apply not_elem_of_empty.
  - apply (bool_decide_eq_true_1 _). reflexivity.
Defined.

Lemma trading_days_loop_elem d end_date closed acc x :
  x ∈ trading_days_loop d end_date closed acc <->
  x ∈ acc ∨ ((d <= x <= end_date) ∧ weekday x < 5 ∧ x ∉ closed).
Proof.
  funelim (trading_days_loop d end_date closed acc). clear Heqcall.
  destruct (decide (d <= end_date)) as [Hle|Hgt]; [|intuition lia].
  rewrite H by done.
  destruct (decide (weekday d < 5 ∧ d ∉ closed_dates)) as [[Hw Hc]|Hn].
  - rewrite elem_of_app, list_elem_of_singleton.
    split; [intros [[?| ->]|?]|intros [?|?]]; try tauto.
    + right. split; [lia|tauto].
    + right. split; [lia|tauto].
    + destruct (decide (x = d)) as [->|?]; [tauto|].
      right. split; [lia|tauto].
  - split; [intros [?|?]|intros [?|?]]; try tauto.
    + right. split; [lia|tauto].
    + destruct (decide (x = d)) as [->|?]; [tauto|].
      right. split; [lia|tauto].
Qed.

Lemma TlRel_lt_all (l : list Z) d : (∀ x, x ∈ l -> x < d) -> TlRel Z.lt d l.
Proof.
  intros Hlt. destruct l as [|y l _] using rev_ind; constructor.
  apply Hlt, elem_of_app. right. left.
Qed.

Lemma trading_days_loop_sorted d end_date closed acc :
  Sorted Z.lt acc -> (∀ x, x ∈ acc -> x < d) ->
  Sorted Z.lt (trading_days_loop d end_date closed acc).
Proof.
  funelim (trading_days_loop d end_date closed acc). clear Heqcall.
  intros Hs Hlt.
  destruct (decide (d <= end_date)) as [Hle|Hgt]; [|done].
  apply H; [done| |].
  - destruct (decide (weekday d < 5 ∧ d ∉ closed_dates)); [|done].
    apply Sorted_snoc; [done|]. by apply TlRel_lt_all.
  - intros x Hx.
    destruct (decide (weekday d < 5 ∧ d ∉ closed_dates)).
    + apply elem_of_app in Hx as [Hx|Hx%list_elem_of_singleton];
        [specialize (Hlt x Hx)|]; lia.
    + specialize (Hlt x Hx). lia.
Qed.

Lemma trading_days_elem start_date end_date (closed : gset Z) x :
  x ∈ trading_days start_date end_date closed <->
  (start_date <= x <= end_date) ∧ weekday x < 5 ∧ x ∉ closed.
Proof.
  unfold trading_days. rewrite trading_days_loop_elem.
  split; [intros [?%elem_of_nil|?]|]; tauto.
Qed.

(** X6: the trading days the worker collects are exactly the days of the
    requested range that are weekdays and not closed, each once and in
    ascending order; a range whose start is after its end gives none. *)
Theorem trading_days_spec start_date end_date (closed : gset Z) :
  (∀ x, x ∈ trading_days start_date end_date closed <->
        (start_date <= x <= end_date) ∧ weekday x < 5 ∧ x ∉ closed) ∧
  Sorted Z.lt (trading_days start_date end_date closed) ∧
  (end_date < start_date -> trading_days start_date end_date closed = []).
Proof.
  split; [|split].
  - intros x. apply trading_days_elem.
  - apply trading_days_loop_sorted; [constructor|]. by intros x ?%elem_of_nil.
  - intros Hlt. apply elem_of_nil_inv. intros x Hx.
    apply trading_days_elem in Hx. lia.
Qed.

(** X7: for every trading day the worker iterates over, and every symbol, no
    selected expiration precedes that day. *)
Theorem no_target_before_trading_day
    start_date end_date (closed : gset Z) symbol (available : list date) day x :
  day ∈ trading_days start_date end_date closed ->
  x ∈ select_target_expirations symbol day available closed ->
  day <= x.
Proof.
  intros Hday Hx.
  apply trading_days_elem in Hday as (_ & Hwd & Hc).
  destruct (decide (symbol ∈ ["SPX"; "SPXW"; "SPY"; "QQQ"]%string)) as [Hs|Hs].
  - apply (same_day_weekly_elem _ _ _ _ _ Hs) in Hx as [[-> _]|[Hl _]]; [lia|].
    destruct (trading_day_weekly day closed Hwd Hc) as (w & Hw & Hdw).
    apply last_trading_day_of_week_spec in Hl. assert (x = w) as -> by congruence.
    lia.
  - destruct (decide (symbol = "VIX"%string)) as [->|Hv].
    + apply vix_target_ahead in Hx. lia.
    + rewrite other_symbol_no_target in Hx by (set_unfold; naive_solver).
      by apply elem_of_nil in Hx.
Qed.

Lemma no_target_before_trading_day_witness :
  (ymd 2024 6 5 <=? ymd 2024 6 7) = true.
Proof.
  apply Z.leb_le.
  apply (no_target_before_trading_day (ymd 2024 6 3) (ymd 2024 6 7) ∅ "SPX"
           [ymd 2024 6 5; ymd 2024 6 7] (ymd 2024 6 5) (ymd 2024 6 7)).
  - apply (bool_decide_eq_true_1 _). vm_compute. reflexivity.
  - apply (bool_decide_eq_true_1 _). vm_compute. reflexivity.
Defined.

End CalendarMore.

(** ** corrector.py *)

Section CorrectorMore.

Import Corrector.

Lemma replace_zero_lookup cols (r : gmap string Z) l :
  replace_zero cols r !! l =
  if decide (l ∈ cols ∧ r !! l = Some 0) then None else r !! l.
Proof.
  unfold replace_zero.
  assert (Haux : ∀ m : gmap string Z,
    foldr (fun l m => if decide (r !! l = Some 0) then delete l m else m) m cols !! l
    = if decide (l ∈ cols ∧ r !! l = Some 0) then None else m !! l);
    [|apply Haux].
  induction cols as [|c cols IH]; intros m.
  - simpl. destruct (decide (l ∈ [] ∧ r !! l = Some 0)) as [[H _]|_]; [|done].
    by apply elem_of_nil in H.
  - cbn [foldr].
    assert (Hcons : l ∈ c :: cols ∧ r !! l = Some 0 <->
                    (c = l ∧ r !! l = Some 0) ∨ (l ∈ cols ∧ r !! l = Some 0)).
    { rewrite elem_of_cons. naive_solver. }
    destruct (decide (r !! c = Some 0)) as [Hz|Hz].
    + destruct (decide (c = l)) as [->|Hne].
      * rewrite lookup_delete_eq.
        destruct (decide (l ∈ l :: cols ∧ r !! l = Some 0)) as [_|Hn]; [done|].
        exfalso. apply Hn, Hcons. by left.
      * rewrite lookup_delete_ne by done. rewrite IH.
        destruct (decide (l ∈ cols ∧ r !! l = Some 0)) as [Hy|Hn];
          destruct (decide (l ∈ c :: cols ∧ r !! l = Some 0)) as [Hy'|Hn'];
          try done.
        -- exfalso. apply Hn', Hcons. by right.
        -- exfalso. apply Hcons in Hy' as [[-> _]|H]; done.
    + rewrite IH.
      destruct (decide (l ∈ cols ∧ r !! l = Some 0)) as [Hy|Hn];
        destruct (decide (l ∈ c :: cols ∧ r !! l = Some 0)) as [Hy'|Hn'];
        try done.
      * exfalso. apply Hn', Hcons. by right.
      * exfalso. apply Hcons in Hy' as [[-> H2]|H]; [congruence|done].
Qed.

Lemma assign_lookup_ne cols (s : Series) (r : gmap string Z) l :
  l ∉ cols -> assign cols s r !! l = r !! l.
Proof.
  unfold assign. induction cols as [|c cols IH]; intros Hl; simpl; [done|].
  apply not_elem_of_cons in Hl as [Hne Hl].
  destruct (get s c);
    [rewrite lookup_insert_ne by done|rewrite lookup_delete_ne by done];
    by apply IH.
Qed.

Lemma isna_all_true cols (r : gmap string Z) :
  (∀ l, l ∈ cols -> r !! l = None) ->
  isna_all {| index := cols; values := r |} = true.
Proof.
  intros Hall. unfold isna_all. apply forallb_forall. intros l Hl.
  apply list_elem_of_In in Hl. simpl in Hl.
  apply bool_decide_eq_true_2. unfold get; simpl.
  rewrite decide_True by done. by apply Hall.
Qed.

Lemma isna_all_inv cols (r : gmap string Z) l :
  isna_all {| index := cols; values := r |} = true -> l ∈ cols -> r !! l = None.
Proof.
  unfold isna_all. rewrite forallb_forall. intros Hall Hl.
  specialize (Hall l ltac:(by apply list_elem_of_In)).
  apply bool_decide_eq_true_1 in Hall.
  unfold get in Hall; simpl in Hall. by rewrite decide_True in Hall.
Qed.

Lemma isna_any_inv columns cols (r : gmap string Z) l :
  isna_any (select {| index := columns; values := r |} cols) = false ->
  l ∈ cols -> is_Some (r !! l).
Proof.
  unfold isna_any. intros Hany Hl.
  apply not_eq_None_Some. intros Hnone.
  apply not_true_iff_false in Hany. apply Hany.
  apply existsb_exists. exists l. split; [by apply list_elem_of_In|].
  apply bool_decide_eq_true_2. by rewrite select_get.
Qed.

(** What pass 2 does to one row. *)
Lemma repair_row_facts o columns cols (r1 r2 : gmap string Z) :
  (∀ l, l ∈ cols -> l ∈ columns) ->
  repair_row o columns cols r1 = Some r2 ->
  (∀ l, l ∉ cols -> r2 !! l = r1 !! l) ∧
  (∀ l v, r1 !! l = Some v -> r2 !! l = Some v) ∧
  ((∀ l, l ∈ cols -> r1 !! l = None) -> r2 = r1) ∧
  ((∃ l, l ∈ cols ∧ is_Some (r1 !! l)) -> ∀ l, l ∈ cols -> is_Some (r2 !! l)) ∧
  (∀ l v, l ∈ cols -> r1 !! l = None -> r2 !! l = Some v ->
          ∃ l', l' ∈ columns ∧ r1 !! l' = Some v).
Proof.
  intros Hsub Hrep. unfold repair_row in Hrep. cbv zeta in Hrep.
  destruct (isna_any _) eqn:Hany; simpl in Hrep.
  2: { injection Hrep as <-. repeat split; try done.
       - intros _ l Hl. by eapply isna_any_inv.
       - intros l v _ Hn Hv. congruence. }
  destruct (isna_all _) eqn:Hall; simpl in Hrep.
  { injection Hrep as <-. repeat split; try done.
    - intros (l & Hl & [v Hv]) l' Hl'.
      unfold select in Hall. cbn [values] in Hall.
      rewrite (isna_all_inv _ _ l Hall Hl) in Hv. done.
    - intros l v _ Hn Hv. congruence. }
  destruct (match get {| index := columns; values := r1 |} "close" with
            | Some v => Some v
            | None => iloc0 (dropna (combine_first o
                        {| index := columns; values := r1 |}
                        (select {| index := columns; values := r1 |} cols)))
            end) as [valid_val|] eqn:Hval; simpl in Hrep; [|done].
  injection Hrep as <-.
  assert (Hcell : ∀ l, l ∈ cols ->
    assign cols (fillna (select {| index := columns; values := r1 |} cols) valid_val) r1
      !! l = Some (default valid_val (r1 !! l))).
  { intros l Hl. rewrite assign_lookup by done.
    rewrite fillna_get by done. by rewrite select_get. }
  split; [intros l Hl; by apply assign_lookup_ne|].
  split.
  { intros l v Hv. destruct (decide (l ∈ cols)) as [Hl|Hl].
    - by rewrite Hcell, Hv.
    - by rewrite assign_lookup_ne. }
  split.
  { intros Hvoid. exfalso.
    unfold select in Hall. cbn [values] in Hall.
    rewrite isna_all_true in Hall; done. }
  split; [intros _ l Hl; rewrite Hcell by done; by eexists|].
  intros l v Hl Hn Hv. rewrite Hcell, Hn in Hv by done. simpl in Hv.
  injection Hv as ->.
  destruct (get {| index := columns; values := r1 |} "close") as [c|] eqn:Hc.
  - injection Hval as ->. unfold get in Hc. simpl in Hc.
    destruct (decide ("close"%string ∈ columns)); [|done]. by exists "close"%string.
  - unfold iloc0, dropna in Hval. simpl in Hval.
    destruct (head _) as [l0|] eqn:Hh; simpl in Hval; [|done].
    apply head_Some_elem_of in Hh.
    apply list_elem_of_filter in Hh as [_ Hidx].
    unfold get in Hval. simpl in Hval.
    destruct (decide (l0 ∈ filter _ _)); [|done].
    apply elem_of_list_to_map_2 in Hval.
    apply list_elem_of_omap in Hval as (l1 & Hl1 & Hsome).
    destruct (decide (l1 ∈ columns)) as [Hc1|Hc1];
      destruct (decide (l1 ∈ cols)) as [Hc2|Hc2];
      destruct (r1 !! l1) as [w|] eqn:Hr; simplify_eq/=; eauto.
Qed.

(** *** Backward and forward fill of one column *)

Lemma bfill_next l i j v :
  l !! j = Some (Some v) -> (i <= j)%nat ->
  (∀ k, (i <= k < j)%nat -> l !! k = Some None) ->
  bfill l !! i = Some (Some v).
Proof.
  revert i j. induction l as [|x t IH]; intros i j Hj Hij Hgap; [done|].
  destruct i as [|i].
  - destruct j as [|j]; simpl in *.
    + by injection Hj as ->.
    + pose proof (Hgap 0%nat ltac:(lia)) as H0. simpl in H0. injection H0 as ->.
      rewrite head_lookup.
      rewrite (IH 0%nat j); [done|done|lia|].
      intros k Hk. apply (Hgap (S k)). lia.
  - destruct j as [|j]; [lia|]. simpl in *.
    apply (IH i j); [done|lia|].
    intros k Hk. apply (Hgap (S k)). lia.
Qed.

Lemma bfill_before l i j v :
  l !! j = Some (Some v) -> (i <= j)%nat -> ∃ w, bfill l !! i = Some (Some w).
Proof.
  revert i j. induction l as [|x t IH]; intros i j Hj Hij; [done|].
  destruct i as [|i].
  - destruct x as [x|]; simpl; [by eexists|].
    destruct j as [|j]; [done|]. simpl in Hj.
    destruct (IH 0%nat j Hj ltac:(lia)) as [w Hw].
    exists w. by rewrite head_lookup, Hw.
  - destruct j as [|j]; [lia|]. simpl in *. apply (IH i j); [done|lia].
Qed.

Lemma bfill_none_after l i :
  (i < length l)%nat ->
  (∀ k, (i <= k < length l)%nat -> l !! k = Some None) ->
  bfill l !! i = Some None.
Proof.
  revert i. induction l as [|x t IH]; intros i Hi Hall; [simpl in Hi; lia|].
  destruct i as [|i]; simpl in *.
  - pose proof (Hall 0%nat ltac:(lia)) as H0. simpl in H0. injection H0 as ->.
    destruct t as [|y t]; [done|].
    rewrite head_lookup, (IH 0%nat); [done|simpl; lia|].
    intros k Hk. apply (Hall (S k)). simpl in *. lia.
  - apply IH; [lia|]. intros k Hk. apply (Hall (S k)). lia.
Qed.

Lemma bfill_source l i v :
  bfill l !! i = Some (Some v) -> ∃ j, l !! j = Some (Some v).
Proof.
  revert i. induction l as [|x t IH]; intros i Hi; [done|].
  destruct i as [|i]; simpl in Hi.
  - destruct x as [x|].
    + exists 0%nat. simpl. congruence.
    + rewrite head_lookup in Hi.
      destruct (bfill t !! 0%nat) as [[y|]|] eqn:Hy; simplify_eq/=.
      destruct (IH 0%nat Hy) as [j Hj]. by exists (S j).
  - destruct (IH i Hi) as [j Hj]. by exists (S j).
Qed.

Lemma ffill_from_some_last last l i :
  is_Some last -> (i < length l)%nat ->
  ∃ w, ffill_from last l !! i = Some (Some w).
Proof.
  revert last i. induction l as [|x t IH]; intros last i [w Hw] Hi;
    [simpl in Hi; lia|]. subst last.
  destruct i as [|i]; simpl in *.
  - destruct x; by eexists.
  - apply IH; [destruct x; by eexists|lia].
Qed.

Lemma ffill_from_after last l i j v :
  l !! j = Some (Some v) -> (j <= i < length l)%nat ->
  ∃ w, ffill_from last l !! i = Some (Some w).
Proof.
  revert last i j. induction l as [|x t IH]; intros last i j Hj Hi; [done|].
  destruct j as [|j]; simpl in Hj.
  - injection Hj as ->. destruct i as [|i]; simpl; [by eexists|].
    apply ffill_from_some_last; [by eexists|simpl in Hi; lia].
  - destruct i as [|i]; [lia|]. simpl in *. eapply IH; [done|lia].
Qed.

Lemma ffill_from_carry last l i j v :
  l !! j = Some (Some v) -> (j <= i < length l)%nat ->
  (∀ k, (j < k <= i)%nat -> l !! k = Some None) ->
  ffill_from last l !! i = Some (Some v).
Proof.
  revert last i j. induction l as [|x t IH]; intros last i j Hj Hi Hgap; [done|].
  destruct j as [|j]; simpl in Hj.
  - injection Hj as ->. destruct i as [|i]; [done|]. simpl.
    clear IH. revert i Hi Hgap.
    assert (Hgen : ∀ (t : list (option Z)) i,
      (i < length t)%nat -> (∀ k, (k <= i)%nat -> t !! k = Some None) ->
      ffill_from (Some v) t !! i = Some (Some v)).
    { clear. induction t as [|y t IH]; intros i Hi Hn; [simpl in Hi; lia|].
      pose proof (Hn 0%nat ltac:(lia)) as H0. simpl in H0. injection H0 as ->.
      destruct i as [|i]; simpl; [done|].
      apply IH; [simpl in Hi; lia|]. intros k Hk. apply (Hn (S k)). lia. }
    intros i Hi Hgap. apply Hgen; [simpl in Hi; lia|].
    intros k Hk. apply (Hgap (S k)). lia.
  - destruct i as [|i]; [lia|]. simpl in *.
    apply (IH _ i j); [done|lia|]. intros k Hk. apply (Hgap (S k)). lia.
Qed.

Lemma ffill_from_source last l i v :
  ffill_from last l !! i = Some (Some v) ->
  last = Some v ∨ ∃ j, l !! j = Some (Some v).
Proof.
  revert last i. induction l as [|x t IH]; intros last i Hi; [done|].
  destruct i as [|i]; simpl in Hi.
  - destruct x as [x|]; [|left; congruence].
    right. exists 0%nat. simpl. congruence.
  - apply IH in Hi as [Hi|[j Hj]]; [|right; by exists (S j)].
    destruct x as [x|]; [|by left].
    right. exists 0%nat. simpl. congruence.
Qed.

(** [bfill().ffill()] leaves values in place, invents none, fills the whole
    column once it has a value, and does nothing to a column without one. *)
Lemma fill_keep l i x :
  l !! i = Some (Some x) -> ffill (bfill l) !! i = Some (Some x).
Proof. intros H. by apply ffill_from_lookup_some, bfill_lookup_some. Qed.

Lemma fill_source l i v :
  ffill (bfill l) !! i = Some (Some v) -> ∃ j, l !! j = Some (Some v).
Proof.
  intros H. apply ffill_from_source in H as [H|[j Hj]]; [done|].
  by apply bfill_source in Hj.
Qed.

Lemma fill_total l i j v :
  l !! j = Some (Some v) -> (i < length l)%nat ->
  ∃ w, ffill (bfill l) !! i = Some (Some w).
Proof.
  intros Hj Hi. destruct (decide (i <= j)%nat) as [Hle|Hgt].
  - destruct (bfill_before l i j v Hj Hle) as [w Hw].
    exists w. by apply ffill_from_lookup_some.
  - apply (ffill_from_after _ _ i j v).
    + by apply bfill_lookup_some.
    + rewrite length_bfill. lia.
Qed.

Lemma fill_void l : Forall (fun x => x = None) l -> ffill (bfill l) = l.
Proof.
  intros Hall.
  assert (Hb : bfill l = l).
  { induction l as [|x t IH]; [done|].
    apply Forall_cons in Hall as [-> Ht]. simpl. rewrite IH by done.
    f_equal. destruct t as [|y t]; [done|].
    apply Forall_cons in Ht as [-> _]. done. }
  rewrite Hb. unfold ffill. clear Hb.
  induction l as [|x t IH]; [done|].
  apply Forall_cons in Hall as [-> Ht]. simpl. f_equal. by apply IH.
Qed.

(** *** Pass 3 on the rows *)

Lemma fill_gaps_lookup cols (rows : list (gmap string Z)) i r :
  rows !! i = Some r ->
  ∃ r', fill_gaps cols rows !! i = Some r' ∧
    ∀ l, r' !! l =
         if decide (l ∈ cols)
         then mjoin (ffill (bfill (get_column l rows)) !! i)
         else r !! l.
Proof.
  intros Hi. unfold fill_gaps.
  induction cols as [|c cols IH].
  - exists r. split; [done|]. intros l. by rewrite decide_False by apply not_elem_of_nil.
  - destruct IH as (r0 & Hr0 & Hcells). cbn [foldr].
    assert (Hlen : (i < length (ffill (bfill (get_column c rows))))%nat).
    { unfold ffill, get_column.
      rewrite length_ffill_from, length_bfill, length_fmap.
      by eapply lookup_lt_Some. }
    apply lookup_lt_is_Some in Hlen as [x Hx].
    exists (match x with Some z => <[c := z]> r0 | None => delete c r0 end).
    split.
    + unfold set_column at 1. rewrite lookup_zip_with, Hr0. simpl. by rewrite Hx.
    + intros l. destruct (decide (l = c)) as [->|Hne].
      * rewrite decide_True by left. rewrite Hx. simpl.
        destruct x; [by rewrite lookup_insert_eq|by rewrite lookup_delete_eq].
      * assert (Hl : r0 !! l = if decide (l ∈ c :: cols)
                               then mjoin (ffill (bfill (get_column l rows)) !! i)
                               else r !! l).
        { rewrite Hcells. destruct (decide (l ∈ cols)) as [Hin|Hnin].
          - by rewrite decide_True by by right.
          - rewrite decide_False; [done|]. by intros [?|?]%elem_of_cons. }
        destruct x; [by rewrite lookup_insert_ne|by rewrite lookup_delete_ne].
Qed.

Lemma gap_filled_length cols (rows : list (gmap string Z)) :
  length (gap_filled cols rows) = length rows.
Proof.
  unfold gap_filled. destruct (existsb id _); [apply length_fill_gaps|done].
Qed.

Lemma gap_filled_lookup cols (rows : list (gmap string Z)) i r :
  rows !! i = Some r ->
  ∃ r', gap_filled cols rows !! i = Some r' ∧
    (∀ l, l ∉ cols -> r' !! l = r !! l) ∧
    (∀ l v, r !! l = Some v -> r' !! l = Some v) ∧
    (∀ l v, l ∈ cols -> r' !! l = Some v ->
            ∃ j rj, rows !! j = Some rj ∧ rj !! l = Some v).
Proof.
  intros Hi. unfold gap_filled. destruct (existsb id _).
  2: { exists r. repeat split; try done. intros l v _ Hv. by exists i, r. }
  destruct (fill_gaps_lookup cols rows i r Hi) as (r' & Hr' & Hcells).
  exists r'. split; [done|]. split; [|split].
  - intros l Hl. by rewrite Hcells, decide_False.
  - intros l v Hv. rewrite Hcells. destruct (decide (l ∈ cols)); [|done].
    erewrite fill_keep; [done|].
    unfold get_column. by rewrite list_lookup_fmap, Hi, <- Hv.
  - intros l v Hl Hv. rewrite Hcells, decide_True in Hv by done.
    destruct (ffill _ !! i) as [[w|]|] eqn:Hf; simplify_eq/=.
    apply fill_source in Hf as [j Hj].
    unfold get_column in Hj. rewrite list_lookup_fmap in Hj.
    destruct (rows !! j) as [rj|] eqn:Hrj; simplify_eq/=.
    by exists j, rj.
Qed.

Lemma gap_filled_complete cols (rows : list (gmap string Z)) j rj i r' :
  (∀ k rk, rows !! k = Some rk -> complete_row cols rk ∨ void_row cols rk) ->
  rows !! j = Some rj -> complete_row cols rj ->
  gap_filled cols rows !! i = Some r' ->
  complete_row cols r'.
Proof.
  intros Hrows Hj Hcj Hi.
  assert (Hlt : (i < length rows)%nat)
    by (rewrite <- (gap_filled_length cols); by eapply lookup_lt_Some).
  apply lookup_lt_is_Some in Hlt as [r Hr].
  unfold gap_filled in Hi. destruct (existsb id _) eqn:Hex.
  - destruct (fill_gaps_lookup cols rows i r Hr) as (r'' & Hr'' & Hcells).
    assert (r'' = r') as -> by congruence.
    intros l Hl. rewrite Hcells, decide_True by done.
    destruct (Hcj l Hl) as [v Hv].
    destruct (fill_total (get_column l rows) i j v) as [w Hw].
    + unfold get_column. by rewrite list_lookup_fmap, Hj, <- Hv.
    + unfold get_column. rewrite length_fmap. by eapply lookup_lt_Some.
    + rewrite Hw. by eexists.
  - assert (r = r') as -> by congruence.
    destruct (Hrows i r' Hr) as [Hc|Hv]; [done|].
    exfalso. apply not_true_iff_false in Hex. apply Hex.
    apply existsb_exists. exists true. split; [|done].
    apply list_elem_of_In, list_elem_of_fmap. exists r'.
    split; [by rewrite isna_all_true|by eapply list_elem_of_lookup_2].
Qed.

Lemma gap_filled_void cols (rows : list (gmap string Z)) :
  (∀ k rk, rows !! k = Some rk -> void_row cols rk) ->
  gap_filled cols rows = rows.
Proof.
  intros Hvoid. apply list_eq. intros i.
  destruct (rows !! i) as [r|] eqn:Hr.
  - unfold gap_filled. destruct (existsb id _); [|done].
    destruct (fill_gaps_lookup cols rows i r Hr) as (r' & Hr' & Hcells).
    rewrite Hr'. f_equal. apply map_eq. intros l. rewrite Hcells.
    destruct (decide (l ∈ cols)) as [Hl|Hl]; [|done].
    rewrite fill_void.
    + unfold get_column. rewrite list_lookup_fmap, Hr. simpl.
      by rewrite (Hvoid i r Hr l Hl).
    + unfold get_column. apply Forall_fmap, Forall_lookup. intros k rk Hk. simpl.
      by apply (Hvoid k rk Hk).
  - apply lookup_ge_None. rewrite gap_filled_length. by apply lookup_ge_None.
Qed.

(** *** The three passes together *)

Lemma fix_dataframe_unfold o (df : DataFrame) :
  fix_dataframe o df =
  if empty df then Some df
  else if decide (designated df = []) then Some df
  else
    rows2 ← mapM (repair_row o (columns df) (designated df))
                 (replace_zero (designated df) <$> data df);
    Some {| columns := columns df; data := gap_filled (designated df) rows2 |}.
Proof. reflexivity. Qed.

Lemma designated_columns (df : DataFrame) l :
  l ∈ designated df <-> l ∈ columns df ∧ l ∈ PRICE_COLUMNS.
Proof. unfold designated. rewrite list_elem_of_filter. tauto. Qed.

(** The rows through the three passes, one index at a time. *)
Lemma fix_dataframe_passes o (df df' : DataFrame) :
  fix_dataframe o df = Some df' ->
  df' = df ∧ (data df = [] ∨ designated df = []) ∨
  ∃ rows2,
    data df' = gap_filled (designated df) rows2 ∧
    columns df' = columns df ∧
    length rows2 = length (data df) ∧
    ∀ i r, data df !! i = Some r ->
      ∃ r2, rows2 !! i = Some r2 ∧
        repair_row o (columns df) (designated df)
          (replace_zero (designated df) r) = Some r2.
Proof.
  rewrite fix_dataframe_unfold. destruct (empty df) eqn:Hem.
  { intros [= <-]. left. split; [done|].
    unfold empty in Hem. apply orb_true_iff in Hem as [H|H];
      apply bool_decide_eq_true_1 in H; [right|by left].
    unfold designated. rewrite H. clear.
    induction PRICE_COLUMNS as [|c l IH]; [done|].
    rewrite filter_cons_False; [done|]. apply not_elem_of_nil. }
  destruct (decide (designated df = [])); [intros [= <-]; left; tauto|].
  destruct (mapM _ _) as [rows2|] eqn:Hm; simpl; [|done].
  intros [= <-]. right. exists rows2. simpl.
  apply mapM_Some in Hm.
  split; [done|]. split; [done|].
  split; [apply Forall2_length in Hm; by rewrite length_fmap in Hm|].
  intros i r Hi.
  assert (Hi1 : (replace_zero (designated df) <$> data df) !! i
                = Some (replace_zero (designated df) r))
    by (by rewrite list_lookup_fmap, Hi).
  destruct (Forall2_lookup_l _ _ _ _ _ Hm Hi1) as (r2 & Hi2 & Hr2).
  by exists r2.
Qed.

Lemma designated_sub (df : DataFrame) :
  ∀ l, l ∈ designated df -> l ∈ columns df.
Proof. intros l Hl. by apply designated_columns in Hl as [? _]. Qed.

Lemma repaired_row_state o (df : DataFrame) (r r2 : gmap string Z) :
  repair_row o (columns df) (designated df) (replace_zero (designated df) r)
    = Some r2 ->
  (unpriced_row df r ∧ r2 = replace_zero (designated df) r ∧
   void_row (designated df) r2) ∨
  (¬ unpriced_row df r ∧ complete_row (designated df) r2).
Proof.
  intros Hrep.
  destruct (repair_row_facts _ _ _ _ _ (designated_sub df) Hrep)
    as (_ & _ & Hvoid & Hfill & _).
  destruct (isna_all {| index := designated df;
                        values := replace_zero (designated df) r |}) eqn:Hall.
  - left.
    assert (Hv : void_row (designated df) (replace_zero (designated df) r))
      by (intros l Hl; by eapply isna_all_inv).
    rewrite (Hvoid Hv). split; [|done].
    intros l Hl. specialize (Hv l Hl). rewrite replace_zero_lookup in Hv.
    destruct (decide _) as [[_ ?]|_]; [by right|by left].
  - right. apply forallb_false_exists in Hall as (l & Hl & Hf). simpl in Hl.
    apply bool_decide_eq_false_1 in Hf. unfold get in Hf. simpl in Hf.
    rewrite decide_True in Hf by done.
    split.
    + intros Hun. apply Hf. rewrite replace_zero_lookup.
      destruct (decide _) as [|Hn]; [done|].
      destruct (Hun l Hl) as [?|?]; [done|]. exfalso. by apply Hn.
    + unfold complete_row. apply Hfill.
      exists l. split; [done|]. by apply not_eq_None_Some.
Qed.


(** X9: the repair changes a cell only if it is a designated price cell
    that was zero or missing: every other column, and every non-zero price,
    comes out as it went in. *)
Theorem only_unpriced_cells_change o (df df' : DataFrame) i (r : gmap string Z) :
  fix_dataframe o df = Some df' ->
  data df !! i = Some r ->
  ∃ r', data df' !! i = Some r' ∧
    ∀ l, r' !! l ≠ r !! l ->
         l ∈ designated df ∧ (r !! l = None ∨ r !! l = Some 0).
Proof.
  intros Hfix Hi.
  destruct (fix_dataframe_passes o df df' Hfix)
    as [[-> _]|(rows2 & Hd & Hc & Hlen & Hrows)]; [by exists r|].
  destruct (Hrows i r Hi) as (r2 & Hi2 & Hrep).
  destruct (repair_row_facts _ _ _ _ _ (designated_sub df) Hrep)
    as (F1 & F2 & _).
  destruct (gap_filled_lookup (designated df) rows2 i r2 Hi2)
    as (r' & Hr' & G1 & G2 & _).
  exists r'. rewrite Hd. split; [done|]. intros l Hne.
  destruct (decide (l ∈ designated df)) as [Hl|Hl].
  - split; [done|]. destruct (r !! l) as [v|] eqn:Hv; [|by left].
    destruct (decide (v = 0)) as [->|Hnz]; [by right|].
    exfalso. apply Hne. apply G2, F2. rewrite replace_zero_lookup, Hv.
    rewrite decide_False; [done|]. intros [_ [= ?]]. done.
  - exfalso. apply Hne. rewrite G1, F1 by done.
    rewrite replace_zero_lookup. by rewrite decide_False by tauto.
Qed.

Lemma only_unpriced_cells_change_witness :
  ∃ r', data counted_table !! 1%nat = Some r' ∧
    ∀ l, r' !! l ≠
         ({[ "count"%string := 2; "open"%string := 6; "high"%string := 6;
             "low"%string := 6; "close"%string := 6 ]} : gmap string Z) !! l ->
         l ∈ designated counted_table ∧
         ((({[ "count"%string := 2; "open"%string := 6; "high"%string := 6;
               "low"%string := 6; "close"%string := 6 ]} : gmap string Z) !! l
           = None) ∨
          (({[ "count"%string := 2; "open"%string := 6; "high"%string := 6;
               "low"%string := 6; "close"%string := 6 ]} : gmap string Z) !! l
           = Some 0)).
Proof.
  apply (only_unpriced_cells_change LabelSorted counted_table counted_table 1%nat).
  - vm_compute. reflexivity.
  - reflexivity.
Defined.

(** X10: once some row holds a non-zero price in a designated column, no
    designated cell is missing after the repair; when no row holds one, every
    designated cell comes out missing. *)
Theorem no_missing_price_left o (df df' : DataFrame) :
  fix_dataframe o df = Some df' ->
  ((∃ r, r ∈ data df ∧ ¬ unpriced_row df r) ->
   ∀ r', r' ∈ data df' -> complete_row (designated df) r') ∧
  ((∀ r, r ∈ data df -> unpriced_row df r) ->
   ∀ r', r' ∈ data df' -> void_row (designated df) r').
Proof.
  intros Hfix.
  destruct (fix_dataframe_passes o df df' Hfix)
    as [[-> Htriv]|(rows2 & Hd & Hc & Hlen & Hrows)].
  { split.
    - intros (r & Hr & Hnot) r' Hr'. exfalso. apply Hnot.
      destruct Htriv as [He|He]; [rewrite He in Hr; by apply elem_of_nil in Hr|].
      intros l Hl. rewrite He in Hl. by apply elem_of_nil in Hl.
    - intros Hall r' Hr' l Hl.
      destruct Htriv as [He|He]; [rewrite He in Hr'; by apply elem_of_nil in Hr'|].
      rewrite He in Hl. by apply elem_of_nil in Hl. }
  assert (Hstate : ∀ k rk, rows2 !! k = Some rk ->
    ∃ r, data df !! k = Some r ∧
      ((unpriced_row df r ∧ void_row (designated df) rk) ∨
       (¬ unpriced_row df r ∧ complete_row (designated df) rk))).
  { intros k rk Hk.
    assert (Hlt : (k < length (data df))%nat)
      by (rewrite <- Hlen; by eapply lookup_lt_Some).
    apply lookup_lt_is_Some in Hlt as [r Hr].
    destruct (Hrows k r Hr) as (r2 & Hk2 & Hrep).
    assert (r2 = rk) as -> by congruence.
    exists r. split; [done|].
    destruct (repaired_row_state o df r rk Hrep) as [(? & _ & ?)|?]; tauto. }
  rewrite Hd. split.
  - intros (r & Hr & Hnot) r' Hr'.
    apply list_elem_of_lookup in Hr as [j Hj].
    destruct (Hrows j r Hj) as (rj & Hj2 & Hrep).
    destruct (repaired_row_state o df r rj Hrep) as [(? & _)|[_ Hcj]]; [done|].
    apply list_elem_of_lookup in Hr' as [i Hi'].
    apply (gap_filled_complete (designated df) rows2 j rj i r'); try done.
    intros k rk Hk. destruct (Hstate k rk Hk) as (? & _ & [[_ ?]|[_ ?]]); tauto.
  - intros Hall r' Hr'.
    rewrite gap_filled_void in Hr'.
    + apply list_elem_of_lookup in Hr' as [i Hi'].
      destruct (Hstate i r' Hi') as (r & Hr & [[_ ?]|[Hnot _]]); [done|].
      exfalso. apply Hnot, Hall. by eapply list_elem_of_lookup_2.
    + intros k rk Hk.
      destruct (Hstate k rk Hk) as (r & Hr & [[_ ?]|[Hnot _]]); [done|].
      exfalso. apply Hnot, Hall. by eapply list_elem_of_lookup_2.
Qed.

Lemma no_missing_price_left_witness :
  Forall (complete_row (designated gap_table)) (data gap_table_once).
Proof.
  apply Forall_forall.
  apply (no_missing_price_left LabelSorted gap_table gap_table_once).
  - vm_compute. reflexivity.
  - exists {[ "count"%string := 0; "open"%string := 5; "high"%string := 5;
              "low"%string := 5; "close"%string := 0 ]}.
    split; [right; left|].
    intros Hun. destruct (Hun "open"%string) as [H|H].
    + apply (bool_decide_eq_true_1 _). reflexivity.
    + vm_compute in H. discriminate.
    + vm_compute in H. discriminate.
Defined.

(** A table whose rows are all priced, or all void, is a fixed point. *)
Lemma fix_dataframe_fixed o (df : DataFrame) :
  (∀ r, r ∈ data df -> priced_row df r) ∨
  (∀ r, r ∈ data df -> void_row (designated df) r) ->
  fix_dataframe o df = Some df.
Proof.
  intros Hrows. rewrite fix_dataframe_unfold.
  destruct (empty df); [done|].
  destruct (decide (designated df = [])) as [|Hne]; [done|].
  assert (H1 : replace_zero (designated df) <$> data df = data df).
  { rewrite <- (list_fmap_id (data df)) at 2.
    apply list_fmap_ext. intros i r Hr. simpl.
    apply replace_zero_id. intros l Hl.
    apply list_elem_of_lookup_2 in Hr.
    destruct Hrows as [Hp|Hv].
    - destruct (Hp r Hr l Hl) as (v & Hv & Hnz). congruence.
    - rewrite (Hv r Hr l Hl). done. }
  rewrite H1.
  assert (H2 : mapM (repair_row o (columns df) (designated df)) (data df)
               = Some (data df)).
  { apply mapM_Some. apply Forall2_same_length_lookup. split; [done|].
    intros i r r' Hi Hi'. assert (r' = r) as -> by congruence.
    apply list_elem_of_lookup_2 in Hi.
    destruct Hrows as [Hp|Hv].
    - apply repair_row_complete. intros l Hl.
      destruct (Hp r Hi l Hl) as (v & Hv & _). by exists v.
    - unfold repair_row. cbv zeta. unfold select. cbn [values].
      rewrite (isna_all_true _ _ (Hv r Hi)). by rewrite andb_false_r. }
  rewrite H2. simpl. f_equal.
  destruct Hrows as [Hp|Hv].
  - unfold gap_filled. rewrite existsb_fmap_false; [by destruct df|].
    intros r Hr. destruct (designated df) as [|c cols] eqn:Hd; [done|].
    destruct (Hp r Hr c) as (v & Hv & _); [rewrite Hd; left|].
    apply (isna_all_false _ _ c); [left|by exists v].
  - rewrite gap_filled_void; [by destruct df|].
    intros k rk Hk. apply Hv. by eapply list_elem_of_lookup_2.
Qed.

(** X11: when no column outside the designated ones holds an exact zero,
    the repair leaves no zero in a designated column, and repairing its
    result again changes nothing. *)
Theorem repair_clean_when_no_foreign_zero o (df df' : DataFrame) :
  fix_dataframe o df = Some df' ->
  (∀ r l, r ∈ data df -> l ∈ columns df -> l ∉ PRICE_COLUMNS ->
          r !! l ≠ Some 0) ->
  (∀ r' l, r' ∈ data df' -> l ∈ designated df -> r' !! l ≠ Some 0) ∧
  fix_dataframe o df' = Some df'.
Proof.
  intros Hfix Hforeign.
  destruct (fix_dataframe_passes o df df' Hfix)
    as [[-> Htriv]|(rows2 & Hd & Hc & Hlen & Hrows)].
  { split.
    - intros r' l Hr' Hl.
      destruct Htriv as [He|He]; [rewrite He in Hr'; by apply elem_of_nil in Hr'|].
      rewrite He in Hl. by apply elem_of_nil in Hl.
    - apply fix_dataframe_fixed. left. intros r Hr l Hl.
      destruct Htriv as [He|He]; [rewrite He in Hr; by apply elem_of_nil in Hr|].
      rewrite He in Hl. by apply elem_of_nil in Hl. }
  assert (Hrow2 : ∀ k rk, rows2 !! k = Some rk ->
    ∃ r, data df !! k = Some r ∧
         repair_row o (columns df) (designated df)
           (replace_zero (designated df) r) = Some rk).
  { intros k rk Hk.
    assert (Hlt : (k < length (data df))%nat)
      by (rewrite <- Hlen; by eapply lookup_lt_Some).
    apply lookup_lt_is_Some in Hlt as [r Hr].
    destruct (Hrows k r Hr) as (r2 & Hk2 & Hrep).
    exists r. split; [done|]. congruence. }
  assert (Hnz2 : ∀ k rk l, rows2 !! k = Some rk -> l ∈ designated df ->
                           rk !! l ≠ Some 0).
  { intros k rk l Hk Hl Hz.
    destruct (Hrow2 k rk Hk) as (r & Hr & Hrep).
    destruct (repair_row_facts _ _ _ _ _ (designated_sub df) Hrep)
      as (_ & F2 & _ & _ & F5).
    destruct (replace_zero (designated df) r !! l) as [v|] eqn:Hv.
    - rewrite (F2 l v Hv) in Hz. injection Hz as ->.
      rewrite replace_zero_lookup in Hv.
      destruct (decide _) as [|Hn]; [done|]. apply Hn. tauto.
    - destruct (F5 l 0 Hl Hv Hz) as (l' & Hl' & Hsrc).
      rewrite replace_zero_lookup in Hsrc.
      destruct (decide _) as [|Hn]; [done|].
      destruct (decide (l' ∈ designated df)) as [Hd'|Hd']; [apply Hn; tauto|].
      apply (Hforeign r l'); [by eapply list_elem_of_lookup_2|done| |done].
      intros Hp. apply Hd'. by apply designated_columns. }
  assert (Hnz : ∀ r' l, r' ∈ data df' -> l ∈ designated df -> r' !! l ≠ Some 0).
  { intros r' l Hr' Hl Hz. rewrite Hd in Hr'.
    apply list_elem_of_lookup in Hr' as [i Hi'].
    assert (Hlt : (i < length rows2)%nat)
      by (rewrite <- (gap_filled_length (designated df)); by eapply lookup_lt_Some).
    apply lookup_lt_is_Some in Hlt as [r2 Hr2].
    destruct (gap_filled_lookup (designated df) rows2 i r2 Hr2)
      as (r'' & Hr'' & _ & _ & G3).
    assert (r'' = r') as -> by congruence.
    destruct (G3 l 0 Hl Hz) as (j & rj & Hj & Hjz).
    by apply (Hnz2 j rj l). }
  split; [exact Hnz|].
  assert (Hdes : designated df' = designated df)
    by (unfold designated; by rewrite Hc).
  assert (Hstate : ∀ k rk, rows2 !! k = Some rk ->
            complete_row (designated df) rk ∨ void_row (designated df) rk).
  { intros k rk Hk. destruct (Hrow2 k rk Hk) as (r & _ & Hrep).
    destruct (repaired_row_state o df r rk Hrep) as [(_ & _ & ?)|[_ ?]]; tauto. }
  apply fix_dataframe_fixed. rewrite Hdes.
  destruct (Forall_Exists_dec
    (fun r => isna_all {| index := designated df; values := r |} = true)
    (fun r => isna_all {| index := designated df; values := r |} = false)
    (fun r => match isna_all {| index := designated df; values := r |} as b
                    return {b = true} + {b = false} with
              | true => left eq_refl
              | false => right eq_refl
              end) rows2) as [Hall|Hex].
  - right. rewrite Hd, gap_filled_void.
    + intros r Hr. rewrite Forall_forall in Hall.
      intros l Hl. by eapply isna_all_inv; [apply Hall|].
    + intros k rk Hk. rewrite Forall_forall in Hall.
      intros l Hl. eapply isna_all_inv; [apply Hall|done].
      by eapply list_elem_of_lookup_2.
  - left. apply Exists_exists in Hex as (rj & Hrj & Hnv).
    apply list_elem_of_lookup in Hrj as [j Hj].
    assert (Hcj : complete_row (designated df) rj).
    { destruct (Hstate j rj Hj) as [?|Hv]; [done|].
      rewrite isna_all_true in Hnv; done. }
    intros r' Hr' l Hl. unfold priced_row in *. rewrite Hdes in Hl.
    assert (Hin := Hr'). rewrite Hd in Hin.
    apply list_elem_of_lookup in Hin as [i Hi'].
    destruct (gap_filled_complete (designated df) rows2 j rj i r' Hstate Hj Hcj Hi'
                l Hl) as [v Hv].
    exists v. split; [done|]. intros ->. by apply (Hnz r' l).
Qed.

Lemma repair_clean_when_no_foreign_zero_witness :
  fix_dataframe LeftOrder
    {| columns := columns candle_table;
       data := [ {[ "timestamp"%string := 60000; "open"%string := 5;
                    "high"%string := 7; "low"%string := 60000;
                    "close"%string := 60000; "volume"%string := 3 ]} ] |}
  = Some
    {| columns := columns candle_table;
       data := [ {[ "timestamp"%string := 60000; "open"%string := 5;
                    "high"%string := 7; "low"%string := 60000;
                    "close"%string := 60000; "volume"%string := 3 ]} ] |}.
Proof.
  apply (repair_clean_when_no_foreign_zero LeftOrder candle_table).
  - vm_compute. reflexivity.
  - intros r l Hr Hl Hp Hz.
    apply list_elem_of_singleton in Hr. subst r.
    apply list_elem_of_In in Hl. simpl in Hl.
    destruct Hl as [<-|[<-|[<-|[<-|[<-|[<-|[]]]]]]];
      vm_compute in Hz; try discriminate Hz;
      apply Hp; apply (bool_decide_eq_true_1 _); reflexivity.
Defined.

(** X12: a row without any price takes its designated cells from the
    nearest later row that has one; a row with no such later row takes them
    from the nearest earlier row that has one. *)
Theorem gap_row_takes_nearest_priced o (df df' : DataFrame) i j rj rj' r' :
  fix_dataframe o df = Some df' ->
  data df !! j = Some rj -> ¬ unpriced_row df rj ->
  data df' !! j = Some rj' ->
  data df' !! i = Some r' ->
  ((i < j)%nat ->
   (∀ k rk, (i <= k < j)%nat -> data df !! k = Some rk -> unpriced_row df rk) ->
   ∀ l, l ∈ designated df -> r' !! l = rj' !! l) ∧
  ((j < i)%nat ->
   (∀ k rk, (j < k)%nat -> data df !! k = Some rk -> unpriced_row df rk) ->
   ∀ l, l ∈ designated df -> r' !! l = rj' !! l).
Proof.
  intros Hfix Hj Hpriced Hj' Hi'.
  destruct (fix_dataframe_passes o df df' Hfix)
    as [[-> Htriv]|(rows2 & Hd & Hc & Hlen & Hrows)].
  { exfalso. apply Hpriced. intros l Hl.
    destruct Htriv as [He|He]; [by rewrite He in Hj|].
    rewrite He in Hl. by apply elem_of_nil in Hl. }
  destruct (Hrows j rj Hj) as (r2j & Hj2 & Hrepj).
  destruct (repaired_row_state o df rj r2j Hrepj) as [(? & _)|[_ Hcj]]; [done|].
  assert (Hvoid : ∀ k rk, data df !! k = Some rk -> unpriced_row df rk ->
                  ∃ r2, rows2 !! k = Some r2 ∧ void_row (designated df) r2).
  { intros k rk Hk Hun. destruct (Hrows k rk Hk) as (r2 & Hk2 & Hrep).
    exists r2. split; [done|].
    destruct (repaired_row_state o df rk r2 Hrep) as [(_ & _ & ?)|[? _]]; done. }
  assert (Hlti : (i < length (data df))%nat).
  { rewrite <- Hlen, <- (gap_filled_length (designated df)), <- Hd.
    by eapply lookup_lt_Some. }
  assert (Hgen : ∀ l, l ∈ designated df ->
    (∃ ri, data df !! i = Some ri ∧ unpriced_row df ri) ->
    (∀ v, rows2 !! j ≫= (.!! l) = Some v ->
          ffill (bfill (get_column l rows2)) !! i = Some (Some v)) ->
    r' !! l = rj' !! l).
  { intros l Hl (ri & Hri & Huni) Hfill.
    destruct (Hvoid i ri Hri Huni) as (r2i & Hi2 & Hvi).
    assert (Hex : existsb id
      ((fun r => isna_all {| index := designated df; values := r |}) <$> rows2)
      = true).
    { apply existsb_exists. exists true. split; [|done].
      apply list_elem_of_In, list_elem_of_fmap. exists r2i.
      split; [by rewrite isna_all_true|by eapply list_elem_of_lookup_2]. }
    rewrite Hd in Hi', Hj'. unfold gap_filled in Hi', Hj'. rewrite Hex in Hi', Hj'.
    destruct (fill_gaps_lookup (designated df) rows2 i r2i Hi2) as (x & Hx & Hxc).
    destruct (fill_gaps_lookup (designated df) rows2 j r2j Hj2) as (y & Hy & Hyc).
    assert (x = r') as -> by congruence.
    assert (y = rj') as -> by congruence.
    rewrite Hxc, Hyc, !decide_True by done.
    destruct (Hcj l Hl) as [v Hv].
    rewrite (Hfill v) by (by rewrite Hj2).
    erewrite fill_keep; [done|].
    unfold get_column. by rewrite list_lookup_fmap, Hj2, <- Hv. }
  apply lookup_lt_is_Some in Hlti as [ri Hri].
  split.
  - intros Hij Hgap l Hl. apply Hgen; [done| |].
    + exists ri. split; [done|]. apply (Hgap i ri); [lia|done].
    + intros v Hv. rewrite Hj2 in Hv. simpl in Hv.
      apply ffill_from_lookup_some.
      apply (bfill_next _ i j v); [|lia|].
      * unfold get_column. by rewrite list_lookup_fmap, Hj2, <- Hv.
      * intros k Hk.
        assert (Hltk : (k < length (data df))%nat)
          by (apply lookup_lt_Some in Hj; lia).
        apply lookup_lt_is_Some in Hltk as [rk Hrk].
        destruct (Hvoid k rk Hrk (Hgap k rk Hk Hrk)) as (r2 & Hk2 & Hvk).
        unfold get_column. rewrite list_lookup_fmap, Hk2. simpl.
        by rewrite (Hvk l Hl).
  - intros Hji Hgap l Hl. apply Hgen; [done| |].
    + exists ri. split; [done|]. apply (Hgap i ri); [lia|done].
    + intros v Hv. rewrite Hj2 in Hv. simpl in Hv.
      assert (Hcol : ∀ k, (j < k < length rows2)%nat ->
                          get_column l rows2 !! k = Some None).
      { intros k Hk.
        assert (Hltk : (k < length (data df))%nat) by lia.
        apply lookup_lt_is_Some in Hltk as [rk Hrk].
        destruct (Hvoid k rk Hrk (Hgap k rk ltac:(lia) Hrk)) as (r2 & Hk2 & Hvk).
        unfold get_column. rewrite list_lookup_fmap, Hk2. simpl.
        by rewrite (Hvk l Hl). }
      apply (ffill_from_carry _ _ i j v).
      * apply bfill_lookup_some.
        unfold get_column. by rewrite list_lookup_fmap, Hj2, <- Hv.
      * rewrite length_bfill. unfold get_column. rewrite length_fmap.
        apply lookup_lt_Some in Hri. lia.
      * intros k Hk. apply bfill_none_after.
        -- unfold get_column. rewrite length_fmap.
           apply lookup_lt_Some in Hri. lia.
        -- intros k' Hk'. apply Hcol.
           unfold get_column in Hk'. rewrite length_fmap in Hk'. lia.
Qed.

Lemma gap_row_takes_nearest_priced_witness :
  Forall (fun l =>
    ({[ "count"%string := 7; "open"%string := 5; "high"%string := 5;
        "low"%string := 5; "close"%string := 0 ]} : gmap string Z) !! l
    = ({[ "count"%string := 0; "open"%string := 5; "high"%string := 5;
          "low"%string := 5; "close"%string := 0 ]} : gmap string Z) !! l)
    (designated gap_table).
Proof.
  apply Forall_forall.
  refine (proj1 (gap_row_takes_nearest_priced LabelSorted gap_table gap_table_once
            0%nat 1%nat
            {[ "count"%string := 0; "open"%string := 5; "high"%string := 5;
               "low"%string := 5; "close"%string := 0 ]}
            _ _ _ _ _ _ _) _ _).
  - vm_compute. reflexivity.
  - reflexivity.
  - intros Hun. destruct (Hun "open"%string) as [H|H].
    + apply (bool_decide_eq_true_1 _). reflexivity.
    + vm_compute in H. discriminate.
    + vm_compute in H. discriminate.
  - reflexivity.
  - reflexivity.
  - lia.
  - intros k rk Hk Hrk. assert (k = 0%nat) as -> by lia.
    injection Hrk as <-. intros l Hl. right.
    apply list_elem_of_In in Hl. vm_compute in Hl.
    destruct Hl as [<-|[<-|[<-|[<-|[]]]]]; vm_compute; reflexivity.
Defined.

(** The repair reads and writes designated columns only. *)
Lemma fix_dataframe_untouched o (df df' : DataFrame) i r' :
  fix_dataframe o df = Some df' ->
  data df' !! i = Some r' ->
  ∃ r, data df !! i = Some r ∧ ∀ l, l ∉ designated df -> r' !! l = r !! l.
Proof.
  intros Hfix Hi'.
  destruct (fix_dataframe_passes o df df' Hfix)
    as [[-> _]|(rows2 & Hd & Hc & Hlen & Hrows)]; [by exists r'|].
  assert (Hlt : (i < length (data df))%nat).
  { rewrite <- Hlen, <- (gap_filled_length (designated df)), <- Hd.
    by eapply lookup_lt_Some. }
  apply lookup_lt_is_Some in Hlt as [r Hr].
  destruct (Hrows i r Hr) as (r2 & Hi2 & Hrep).
  destruct (repair_row_facts _ _ _ _ _ (designated_sub df) Hrep) as (F1 & _).
  destruct (gap_filled_lookup (designated df) rows2 i r2 Hi2)
    as (r'' & Hr'' & G1 & _).
  assert (r'' = r') as -> by congruence.
  exists r. split; [done|]. intros l Hl.
  rewrite G1, F1 by done. rewrite replace_zero_lookup.
  by rewrite decide_False by tauto.
Qed.

(** After the repair either every row has all its designated cells, or no
    row has any. *)
Lemma fix_dataframe_complete_or_void o (df df' : DataFrame) :
  fix_dataframe o df = Some df' ->
  (∀ r', r' ∈ data df' -> complete_row (designated df) r') ∨
  (∀ r', r' ∈ data df' -> void_row (designated df) r').
Proof.
  intros Hfix.
  destruct (fix_dataframe_passes o df df' Hfix)
    as [[-> Htriv]|(rows2 & Hd & Hc & Hlen & Hrows)].
  { left. intros r Hr l Hl.
    destruct Htriv as [He|He]; [rewrite He in Hr; by apply elem_of_nil in Hr|].
    rewrite He in Hl. by apply elem_of_nil in Hl. }
  assert (Hstate : ∀ k rk, rows2 !! k = Some rk ->
            complete_row (designated df) rk ∨ void_row (designated df) rk).
  { intros k rk Hk.
    assert (Hlt : (k < length (data df))%nat)
      by (rewrite <- Hlen; by eapply lookup_lt_Some).
    apply lookup_lt_is_Some in Hlt as [r Hr].
    destruct (Hrows k r Hr) as (r2 & Hk2 & Hrep).
    assert (r2 = rk) as -> by congruence.
    destruct (repaired_row_state o df r rk Hrep) as [(_ & _ & ?)|[_ ?]]; tauto. }
  rewrite Hd.
  destruct (Forall_Exists_dec
    (fun r => isna_all {| index := designated df; values := r |} = true)
    (fun r => isna_all {| index := designated df; values := r |} = false)
    (fun r => match isna_all {| index := designated df; values := r |} as b
                    return {b = true} + {b = false} with
              | true => left eq_refl
              | false => right eq_refl
              end) rows2) as [Hall|Hex].
  - right. rewrite Forall_forall in Hall. rewrite gap_filled_void.
    + intros r Hr l Hl. by eapply isna_all_inv; [apply Hall|].
    + intros k rk Hk l Hl. eapply isna_all_inv; [apply Hall|done].
      by eapply list_elem_of_lookup_2.
  - left. apply Exists_exists in Hex as (rj & Hrj & Hnv).
    apply list_elem_of_lookup in Hrj as [j Hj].
    assert (Hcj : complete_row (designated df) rj).
    { destruct (Hstate j rj Hj) as [?|Hv]; [done|].
      rewrite isna_all_true in Hnv; done. }
    intros r' Hr'. apply list_elem_of_lookup in Hr' as [i Hi'].
    by apply (gap_filled_complete (designated df) rows2 j rj i r').
Qed.

End CorrectorMore.

(** ** client.py *)

Section ClientMore.

Import Corrector Client.

#[local] Instance str_le_total : Total str_le.
Proof. intros a b. apply String.leb_total. Qed.

Lemma remove_dashes_idem s : remove_dashes (remove_dashes s) = remove_dashes s.
Proof.
  induction s as [|c s IH]; [done|]. simpl.
  destruct (Ascii.eqb c "-") eqn:Hc; [done|]. simpl. by rewrite Hc, IH.
Qed.

(** X13: the expirations [get_expirations] returns are sorted ascending,
    none is earlier than the requested date (as strings), none contains a
    dash, and the dashed and the compact form of a date give the same
    list. *)
Theorem get_expirations_result t symbol date exps :
  expirations_of t symbol date = inr exps ->
  Sorted str_le exps ∧
  (∀ e, e ∈ exps -> str_le (format_date date) e ∧ remove_dashes e = e) ∧
  expirations_of t symbol (format_date date) = inr exps.
Proof.
  intros He.
  assert (Hsame : expirations_of t symbol (format_date date)
                  = expirations_of t symbol date).
  { unfold expirations_of, get_expirations, format_date.
    by rewrite remove_dashes_idem. }
  rewrite Hsame. split; [|split; [|done]]; clear Hsame;
    unfold expirations_of, get_expirations in He; cbv zeta in He;
    unfold mbind, M_bind, fetch, parse_response, mret, M_ret, raise in He;
    destruct (list_expirations t symbol (format_date date)) as [resp|];
    [|done| |done];
    destruct (decide (env_error resp = EmptyString)) as [_|]; [|done| |done];
    simpl in He; injection He as <-.
  - apply (Sorted_merge_sort str_le).
  - intros e. rewrite merge_sort_Permutation, list_elem_of_filter.
    intros [Hle Hin]. split; [done|].
    apply list_elem_of_omap in Hin as (item & _ & Hitem).
    destruct item as [[v|]|v]; simpl in Hitem; try done;
      destruct (decide (v = EmptyString)); try done;
      injection Hitem as <-; apply remove_dashes_idem.
Qed.

Lemma get_expirations_result_witness :
  Sorted str_le ["20240607"; "20240614"]%string ∧
  (∀ e, e ∈ ["20240607"; "20240614"]%string ->
        str_le (format_date "2024-06-05") e ∧ remove_dashes e = e) ∧
  expirations_of two_expiration_terminal "SPX" (format_date "2024-06-05")
    = inr ["20240607"; "20240614"]%string.
Proof.
  apply (get_expirations_result two_expiration_terminal "SPX" "2024-06-05").
  vm_compute. reflexivity.
Defined.

(** *** The requests of one derivation *)

#[local] Arguments for_each : simpl never.

(** A loop whose iterations each append at most [k] requests, all in [ok],
    appends at most [k] per element. *)
Lemma for_each_added {X A} (ok : request -> Prop) (k : nat)
    (xs : list X) (body : X -> M (option A)) :
  (∀ x l, ∃ added, (body x l).1 = l ++ added ∧
                   (length added <= k)%nat ∧ Forall ok added) ->
  ∀ l, ∃ added, (for_each xs body l).1 = l ++ added ∧
                (length added <= k * length xs)%nat ∧ Forall ok added.
Proof.
  intros Hbody. induction xs as [|x xs IH]; intros l.
  - exists []. rewrite app_nil_r. split; [reflexivity|].
    split; [simpl; lia|constructor].
  - rewrite for_each_cons. unfold mbind, M_bind.
    destruct (Hbody x l) as (a1 & H1 & Hk1 & Hok1).
    destruct (body x l) as [l1 [e|[a|]]]; simpl in H1; subst l1.
    + exists a1. simpl. split; [done|]. split; [lia|done].
    + exists a1. simpl. split; [done|]. split; [lia|done].
    + destruct (IH (l ++ a1)) as (a2 & H2 & Hk2 & Hok2).
      exists (a1 ++ a2). rewrite H2, app_assoc. split; [done|].
      split; [rewrite length_app; simpl; lia|by apply Forall_app].
Qed.

Lemma try_expiration_added o t symbol date interval exp l :
  ∃ added, (try_expiration o t symbol date interval exp l).1 = l ++ added ∧
           (length added <= 3)%nat ∧ Forall (request_for symbol date) added.
Proof.
  rewrite try_expiration_run.
  assert (Hone : ∃ added,
    l ++ [ReqStrikes symbol exp (format_date date)] = l ++ added ∧
    (length added <= 3)%nat ∧ Forall (request_for symbol date) added).
  { eexists. split; [done|]. split; [simpl; lia|by repeat constructor]. }
  destruct (strikes_of t symbol exp date) as [e|strikes]; [done|].
  destruct (decide (strikes = [])); [done|].
  destruct (for_each_added (request_for symbol date) 1 [Call; Put]
    (try_right o t symbol date interval exp (atm_strike strikes))) with
    (l := l ++ [ReqStrikes symbol exp (format_date date)])
    as (added & Hl & Hk & Hok).
  { intros r l'. rewrite try_right_run. eexists. split; [done|].
    split; [simpl; lia|by repeat constructor]. }
  exists (ReqStrikes symbol exp (format_date date) :: added).
  rewrite Hl, <- app_assoc. split; [done|].
  split; [simpl in *; lia|]. constructor; [done|exact Hok].
Qed.

(** X14: one derivation makes at most seven requests (one expiration
    listing, at most two strike listings and four Greeks histories); the
    first is the expiration listing, and every request names the symbol and
    carries the date without dashes. *)
Theorem request_budget o t symbol date interval :
  (length (requests o t symbol date interval) <= 7)%nat ∧
  head (requests o t symbol date interval)
    = Some (ReqExpirations symbol (format_date date)) ∧
  Forall (request_for symbol date) (requests o t symbol date interval).
Proof.
  unfold requests. rewrite fetch_underlying_ohlc_run. simpl.
  assert (Hone : (length [ReqExpirations symbol (format_date date)] <= 7)%nat ∧
    head [ReqExpirations symbol (format_date date)]
      = Some (ReqExpirations symbol (format_date date)) ∧
    Forall (request_for symbol date) [ReqExpirations symbol (format_date date)]).
  { split; [simpl; lia|]. split; [done|by repeat constructor]. }
  destruct (expirations_of t symbol date) as [e|exps]; [done|].
  destruct (decide (exps = [])); [done|].
  destruct (for_each_added (request_for symbol date) 3 (take 2 exps)
    (try_expiration o t symbol date interval)
    (try_expiration_added o t symbol date interval)
    [ReqExpirations symbol (format_date date)]) as (added & Hl & Hk & Hok).
  assert (Hres : (for_each (take 2 exps) (try_expiration o t symbol date interval)
                    [ReqExpirations symbol (format_date date)]).1
                 = ReqExpirations symbol (format_date date) :: added) by done.
  assert (Hlen : (length (take 2 exps) <= 2)%nat)
    by (rewrite length_take; lia).
  destruct (for_each _ _ _) as [l [e|[u|]]]; simpl in Hres; subst l; simpl;
    (split; [lia|]; split; [done|]; constructor; [done|exact Hok]).
Qed.

(** X15: a derived series comes from the answer to the last request made:
    a Greeks history of one of the first two expirations at the middle
    strike, aggregated and repaired; it carries the symbol, the date as
    given and the interval of the call. *)
Theorem derived_from_last_request o t symbol date interval u :
  outcome o t symbol date interval = inr u ->
  ∃ l exp strikes r items,
    requests o t symbol date interval
      = l ++ [ReqGreeks symbol exp (atm_strike strikes) r (format_date date)] ∧
    exp ∈ take 2 (listed_expirations t symbol date) ∧
    strikes_of t symbol exp date = inr strikes ∧
    greeks_of t symbol exp (atm_strike strikes) r date = inr items ∧
    usable items = true ∧
    fix_dataframe o (ohlc_frame (flatten items)) = Some (udata u) ∧
    Client.symbol u = symbol ∧ Client.date u = date ∧
    Client.interval u = interval.
Proof.
  unfold outcome, requests, listed_expirations.
  rewrite fetch_underlying_ohlc_run.
  destruct (expirations_of t symbol date) as [e|exps]; [done|].
  destruct (decide (exps = [])); [done|].
  destruct (for_each (take 2 exps) _ _) as [l [e|[u'|]]] eqn:Hrun; simpl;
    [done| |done].
  intros [= ->].
  apply for_each_stop in Hrun as (exp & l0 & Hexp & Hb); [|done].
  rewrite try_expiration_run in Hb.
  destruct (strikes_of t symbol exp date) as [e|strikes] eqn:Hs; [done|].
  destruct (decide (strikes = [])); [done|].
  apply for_each_stop in Hb as (r & l1 & _ & Hr); [|done].
  rewrite try_right_run in Hr. inversion Hr as [[Hl Hd]]. clear Hr.
  destruct (greeks_of t symbol exp (atm_strike strikes) r date)
    as [e|items] eqn:Hg; [done|].
  exists l1, exp, strikes, r, items.
  split; [done|]. split; [done|]. split; [done|]. split; [done|].
  rewrite derived_of_unfold in Hd.
  destruct (usable items); [|done]. split; [done|].
  destruct (has_column "timestamp" (flatten items)); [|done].
  destruct (fix_dataframe o (ohlc_frame (flatten items))) as [df|]; [|done].
  destruct (empty df); [done|]. by injection Hd as <-.
Qed.

Lemma derived_from_last_request_witness :
  ∃ l exp strikes r items,
    requests LabelSorted two_expiration_terminal "SPX" "2024-06-05" "1m"
      = l ++ [ReqGreeks "SPX" exp (atm_strike strikes) r (format_date "2024-06-05")] ∧
    exp ∈ take 2 (listed_expirations two_expiration_terminal "SPX" "2024-06-05") ∧
    strikes_of two_expiration_terminal "SPX" exp "2024-06-05" = inr strikes ∧
    greeks_of two_expiration_terminal "SPX" exp (atm_strike strikes) r "2024-06-05"
      = inr items ∧
    usable items = true ∧
    fix_dataframe LabelSorted (ohlc_frame (flatten items))
      = Some {| columns := ["timestamp"; "open"; "high"; "low"; "close"; "volume"]%string;
                data := [ {[ "timestamp"%string := 60000; "open"%string := 5300;
                             "high"%string := 5300; "low"%string := 5300;
                             "close"%string := 5300; "volume"%string := 1 ]} ] |} ∧
    "SPX"%string = "SPX"%string ∧ "2024-06-05"%string = "2024-06-05"%string ∧
    "1m"%string = "1m"%string.
Proof.
  apply (derived_from_last_request LabelSorted two_expiration_terminal
           "SPX" "2024-06-05" "1m"
           {| symbol := "SPX";
              udata :=
                {| columns := ["timestamp"; "open"; "high"; "low"; "close"; "volume"]%string;
                   data := [ {[ "timestamp"%string := 60000; "open"%string := 5300;
                                "high"%string := 5300; "low"%string := 5300;
                                "close"%string := 5300; "volume"%string := 1 ]} ] |};
              date := "2024-06-05"; interval := "1m" |}).
  vm_compute. reflexivity.
Defined.

(** *** The aggregated table *)

Lemma foldr_min_max_bounds (p : Z) (ps : list Z) x :
  x ∈ p :: ps -> foldr Z.min p ps <= x <= foldr Z.max p ps.
Proof.
  induction ps as [|q ps IH]; intros Hx.
  - apply list_elem_of_singleton in Hx as ->. simpl. lia.
  - simpl. apply elem_of_cons in Hx as [->|Hx].
    + specialize (IH ltac:(left)). lia.
    + apply elem_of_cons in Hx as [->|Hx]; [lia|].
      specialize (IH ltac:(by right)). lia.
Qed.

Lemma last_elem_of (p : Z) (ps : list Z) : List.last ps p ∈ p :: ps.
Proof.
  destruct ps as [|q ps]; [left|]. right. revert q.
  induction ps as [|q' ps IH]; intros q; [left|].
  right. apply (IH q').
Qed.

Lemma sorted_nodup_lookup_lt (l : list Z) i j a b :
  StronglySorted Z.le l -> NoDup l -> (i < j)%nat ->
  l !! i = Some a -> l !! j = Some b -> a < b.
Proof.
  intros Hs. revert i j. induction Hs as [|x l Hl IH Hall]; intros i j Hnd Hij Hi Hj;
    [done|].
  apply NoDup_cons in Hnd as [Hx Hnd].
  destruct j as [|j]; [lia|]. simpl in Hj.
  destruct i as [|i]; simpl in Hi.
  - injection Hi as ->. apply list_elem_of_lookup_2 in Hj.
    rewrite Forall_forall in Hall. specialize (Hall b Hj).
    destruct (decide (a = b)) as [->|]; [done|lia].
  - apply (IH i j); [done|lia|done|done].
Qed.

Lemma ohlc_row_timestamp m prices :
  ohlc_row m prices !! "timestamp"%string = Some m.
Proof. destruct prices; apply lookup_insert_eq. Qed.

(** The rows of the aggregated table: one per minute, in the order of the
    sorted minutes. *)
Lemma ohlc_frame_data rows :
  ∃ (ms : list Z) (prices : Z -> list Z),
    data (ohlc_frame rows) = (fun m => ohlc_row m (prices m)) <$> ms ∧
    StronglySorted Z.le ms ∧ NoDup ms ∧
    ∀ m, m ∈ ms -> m mod 60000 = 0 ∧ prices m ≠ [].
Proof.
  unfold ohlc_frame. cbv zeta. cbn [data].
  set (df := merge_sort ts_le _).
  set (minutes := list_to_set _ : gset Z).
  exists (merge_sort Z.le (elements minutes)),
    (fun m => omap (fun x : option Z * Z =>
       if decide (floor_minute <$> x.1 = Some m) then Some x.2 else None) df).
  split; [done|].
  split; [apply (StronglySorted_merge_sort Z.le)|].
  split; [rewrite merge_sort_Permutation; apply NoDup_elements|].
  intros m. rewrite merge_sort_Permutation, elem_of_elements.
  intros (x & Hx & Hfm)%elem_of_list_to_set%list_elem_of_omap.
  split.
  - destruct x.1 as [ts|]; [|done]. simpl in Hfm. injection Hfm as <-.
    unfold floor_minute. by apply Z.mod_mul.
  - intros Hnil.
    assert (Hp : x.2 ∈ omap (fun x : option Z * Z =>
                   if decide (floor_minute <$> x.1 = Some m) then Some x.2 else None) df).
    { apply list_elem_of_omap. exists x. split; [done|]. by rewrite decide_True. }
    rewrite Hnil in Hp. by apply elem_of_nil in Hp.
Qed.

Lemma ohlc_row_candle m p ps :
  m mod 60000 = 0 -> candle (ohlc_row m (p :: ps)).
Proof.
  intros Hmod.
  exists m, p, (foldr Z.max p ps), (foldr Z.min p ps), (List.last ps p),
    (Z.of_nat (length (p :: ps))).
  split; [done|]. split; [done|].
  split; [apply foldr_min_max_bounds; left|].
  split; [apply foldr_min_max_bounds, last_elem_of|simpl; lia].
Qed.

Lemma ohlc_frame_ascending rows : ascending_minutes (data (ohlc_frame rows)).
Proof.
  destruct (ohlc_frame_data rows) as (ms & prices & -> & Hs & Hnd & Hms).
  intros i j ri rj Hij. rewrite !list_lookup_fmap.
  destruct (ms !! i) as [mi|] eqn:Hi; [|done].
  destruct (ms !! j) as [mj|] eqn:Hj; [|done].
  simpl. intros [= <-] [= <-].
  exists mi, mj. rewrite !ohlc_row_timestamp.
  split; [done|]. split; [done|].
  by eapply (sorted_nodup_lookup_lt ms i j).
Qed.

(** X16: every row of the table aggregated from the Greeks rows is a
    one-minute candle: exactly the six fields, a whole-minute timestamp,
    open and close between low and high, and a count of at least one; the
    rows are in strictly increasing time order. *)
Theorem ohlc_frame_candles rows :
  columns (ohlc_frame rows)
    = ["timestamp"; "open"; "high"; "low"; "close"; "volume"]%string ∧
  Forall candle (data (ohlc_frame rows)) ∧
  ascending_minutes (data (ohlc_frame rows)).
Proof.
  split; [done|]. split; [|apply ohlc_frame_ascending].
  destruct (ohlc_frame_data rows) as (ms & prices & -> & _ & _ & Hms).
  apply Forall_fmap, Forall_forall. intros m Hm.
  destruct (Hms m Hm) as [Hmod Hne]. simpl.
  destruct (prices m) as [|p ps]; [done|]. by apply ohlc_row_candle.
Qed.

(** *** Observations and candles *)

(** The groups behind the aggregated table. *)
Lemma ohlc_frame_groups rows :
  ∃ (df : list (option Z * Z)) (ms : list Z),
    df ≡ₚ omap (fun r => p ← cell r "underlying_price";
                         Some (cell r "timestamp", p)) rows ∧
    NoDup ms ∧
    (∀ m, m ∈ ms <-> ∃ x, x ∈ df ∧ floor_minute <$> x.1 = Some m) ∧
    data (ohlc_frame rows) =
      (fun m => ohlc_row m
         (omap (fun x : option Z * Z =>
                  if decide (floor_minute <$> x.1 = Some m)
                  then Some x.2 else None) df)) <$> ms.
Proof.
  unfold ohlc_frame. cbv zeta. cbn [data].
  set (df := merge_sort ts_le _).
  set (minutes := list_to_set _ : gset Z).
  exists df, (merge_sort Z.le (elements minutes)).
  split; [apply merge_sort_Permutation|].
  split; [rewrite merge_sort_Permutation; apply NoDup_elements|].
  split; [|done].
  intros m. rewrite merge_sort_Permutation, elem_of_elements.
  unfold minutes. rewrite elem_of_list_to_set, list_elem_of_omap. done.
Qed.

Lemma observation_row (rows : list (gmap string (option Z))) (x : option Z * Z) :
  x ∈ omap (fun r => p ← cell r "underlying_price";
                     Some (cell r "timestamp", p)) rows <->
  ∃ r, r ∈ rows ∧ cell r "timestamp" = x.1 ∧ cell r "underlying_price" = Some x.2.
Proof.
  rewrite list_elem_of_omap. split.
  - intros (r & Hr & Hx). exists r. split; [done|].
    destruct (cell r "underlying_price") as [p|]; simplify_eq/=. done.
  - intros (r & Hr & Ht & Hp). exists r. split; [done|].
    rewrite Hp. simpl. rewrite Ht. by destruct x.
Qed.

Lemma foldr_max_elem (p : Z) (ps : list Z) : foldr Z.max p ps ∈ p :: ps.
Proof.
  induction ps as [|q ps IH]; [left|]. simpl.
  destruct (Z.max_spec q (foldr Z.max p ps)) as [[_ ->]|[_ ->]].
  - apply elem_of_cons in IH as [->|IH]; [left|right; by right].
  - right; left.
Qed.

Lemma foldr_min_elem (p : Z) (ps : list Z) : foldr Z.min p ps ∈ p :: ps.
Proof.
  induction ps as [|q ps IH]; [left|]. simpl.
  destruct (Z.min_spec q (foldr Z.min p ps)) as [[_ ->]|[_ ->]].
  - right; left.
  - apply elem_of_cons in IH as [->|IH]; [left|right; by right].
Qed.

Lemma ohlc_row_volume m prices :
  ohlc_row m prices !! "volume"%string = Some (Z.of_nat (length prices)).
Proof. destruct prices; by simplify_map_eq. Qed.

Lemma indicator_sum_zero (ms : list Z) (o : option Z) :
  (∀ m, m ∈ ms -> o ≠ Some m) ->
  sum_list ((fun m => if decide (o = Some m) then 1%nat else 0%nat) <$> ms) = 0%nat.
Proof.
  induction ms as [|m ms IH]; intros Hno; [done|]. rewrite fmap_cons.
  change (sum_list (?a :: ?b)) with (a + sum_list b)%nat.
  rewrite decide_False by (apply Hno; left).
  rewrite IH; [done|]. intros m' Hm'. apply Hno. by right.
Qed.

Lemma indicator_sum_one (ms : list Z) (m0 : Z) :
  NoDup ms -> m0 ∈ ms ->
  sum_list ((fun m => if decide (Some m0 = Some m) then 1%nat else 0%nat) <$> ms)
  = 1%nat.
Proof.
  induction 1 as [|m ms Hm Hnd IH]; intros Hin; [by apply elem_of_nil in Hin|].
  rewrite fmap_cons.
  change (sum_list (?a :: ?b)) with (a + sum_list b)%nat.
  destruct (decide (m0 = m)) as [->|Hne].
  - rewrite decide_True by done. rewrite indicator_sum_zero; [done|].
    intros m' Hm' [= ->]. done.
  - rewrite decide_False by congruence.
    apply elem_of_cons in Hin as [->|Hin]; [done|]. by rewrite IH.
Qed.

(** Each observation with a timestamp is counted in exactly one group. *)
Lemma group_sizes (ms : list Z) (df : list (option Z * Z)) :
  NoDup ms ->
  (∀ x, x ∈ df -> ∀ m, floor_minute <$> x.1 = Some m -> m ∈ ms) ->
  sum_list ((fun m => length (omap (fun x : option Z * Z =>
                        if decide (floor_minute <$> x.1 = Some m)
                        then Some x.2 else None) df)) <$> ms)
  = length (filter (fun x : option Z * Z => is_Some x.1) df).
Proof.
  intros Hnd. induction df as [|x df IH]; intros Hin.
  - simpl. clear. induction ms as [|m ms IH]; [done|]. by rewrite fmap_cons.
  - assert (Hsplit : ∀ l : list Z,
      sum_list ((fun m => length (omap (fun x : option Z * Z =>
                            if decide (floor_minute <$> x.1 = Some m)
                            then Some x.2 else None) (x :: df))) <$> l)
      = (sum_list ((fun m => if decide (floor_minute <$> x.1 = Some m)
                             then 1%nat else 0%nat) <$> l)
         + sum_list ((fun m => length (omap (fun x : option Z * Z =>
                            if decide (floor_minute <$> x.1 = Some m)
                            then Some x.2 else None) df)) <$> l))%nat).
    { clear. induction l as [|m l IH]; [done|]. rewrite !fmap_cons.
      change (sum_list (?a :: ?b)) with (a + sum_list b)%nat. rewrite IH.
      set (f := fun x0 : option Z * Z =>
                  if decide (floor_minute <$> x0.1 = Some m) then Some x0.2 else None).
      change (omap f (x :: df))
        with (match f x with Some y => y :: omap f df | None => omap f df end).
      unfold f at 1.
      destruct (decide (floor_minute <$> x.1 = Some m)); cbn [length]; lia. }
    rewrite Hsplit, IH by (intros y Hy; apply Hin; by right).
    rewrite filter_cons.
    destruct x as [[t|] p].
    + change (floor_minute <$> (Some t, p).1) with (Some (floor_minute t)).
      rewrite indicator_sum_one; [|done|].
      * rewrite decide_True by (by eexists). done.
      * apply (Hin (Some t, p)); [left|done].
    + change (floor_minute <$> (None, p).1) with (@None Z).
      rewrite indicator_sum_zero by done.
      rewrite decide_False by (by intros [? ?]). done.
Qed.

Lemma total_volume_groups (ms : list Z) (prices : Z -> list Z) :
  total_volume ((fun m => ohlc_row m (prices m)) <$> ms)
  = Z.of_nat (sum_list ((fun m => length (prices m)) <$> ms)).
Proof.
  unfold total_volume. induction ms as [|m ms IH]; [done|].
  rewrite !fmap_cons. cbn [foldr]. rewrite IH, ohlc_row_volume. simpl.
  change (sum_list (?a :: ?b)) with (a + sum_list b)%nat. lia.
Qed.

Lemma observations_with_time (rows : list (gmap string (option Z))) :
  length (filter (fun x : option Z * Z => is_Some x.1)
            (omap (fun r => p ← cell r "underlying_price";
                            Some (cell r "timestamp", p)) rows))
  = length (filter (fun r => is_Some (cell r "timestamp") ∧
                             is_Some (cell r "underlying_price")) rows).
Proof.
  induction rows as [|r rows IH]; [done|].
  set (f := fun r : gmap string (option Z) =>
              p ← cell r "underlying_price"; Some (cell r "timestamp", p)) in *.
  change (omap f (r :: rows))
    with (match f r with Some y => y :: omap f rows | None => omap f rows end).
  rewrite (filter_cons _ r). unfold f at 1.
  destruct (cell r "underlying_price") as [p|] eqn:Hp; cbn [mbind option_bind].
  - rewrite filter_cons. cbn [fst].
    destruct (decide (is_Some (cell r "timestamp"))) as [Ht|Ht].
    + rewrite decide_True by (split; [done|by eexists]).
      cbn [length]. by rewrite IH.
    + rewrite decide_False by tauto. done.
  - rewrite decide_False; [done|]. intros [_ [? ?]]. done.
Qed.

(** X25: the aggregation loses and invents nothing.  Each open, high, low
    and close of a candle is the price of an observation in the candle's
    minute; every observation with a timestamp lies in the candle of its
    minute, between that candle's low and high; and the counts of the
    candles add up to the number of observations with a timestamp. *)
Theorem ohlc_frame_observations rows :
  (∀ c, c ∈ data (ohlc_frame rows) ->
     ∃ m, c !! "timestamp"%string = Some m ∧
          ∀ k, k ∈ ["open"; "high"; "low"; "close"]%string ->
               ∃ p, c !! k = Some p ∧ observed rows m p) ∧
  (∀ r t p, r ∈ rows -> cell r "timestamp" = Some t ->
            cell r "underlying_price" = Some p ->
     ∃ c lo hi, c ∈ data (ohlc_frame rows) ∧
                c !! "timestamp"%string = Some (floor_minute t) ∧
                c !! "low"%string = Some lo ∧ c !! "high"%string = Some hi ∧
                lo <= p <= hi) ∧
  total_volume (data (ohlc_frame rows))
  = Z.of_nat (length (filter (fun r => is_Some (cell r "timestamp") ∧
                                       is_Some (cell r "underlying_price")) rows)).
Proof.
  destruct (ohlc_frame_groups rows) as (df & ms & Hdf & Hnd & Hms & ->).
  assert (Hobs : ∀ m p,
    p ∈ omap (fun x : option Z * Z =>
                if decide (floor_minute <$> x.1 = Some m) then Some x.2 else None) df ->
    observed rows m p).
  { intros m p (x & Hx & Hsel)%list_elem_of_omap.
    destruct (decide (floor_minute <$> x.1 = Some m)) as [Hfm|]; [|done].
    injection Hsel as <-.
    rewrite Hdf in Hx. apply observation_row in Hx as (r & Hr & Ht & Hp).
    destruct x.1 as [t|] eqn:Hx1; [|done]. simpl in Hfm. injection Hfm as <-.
    by exists r, t. }
  split; [|split].
  - intros c (m & -> & Hm)%list_elem_of_fmap.
    exists m. split; [apply ohlc_row_timestamp|].
    apply Hms in Hm as (x & Hx & Hfm).
    assert (Hp : x.2 ∈ omap (fun x : option Z * Z =>
                   if decide (floor_minute <$> x.1 = Some m) then Some x.2 else None) df).
    { apply list_elem_of_omap. exists x. split; [done|]. by rewrite decide_True. }
    destruct (omap _ df) as [|p ps] eqn:Hprices; [by apply elem_of_nil in Hp|].
    intros k Hk. simpl.
    rewrite !elem_of_cons in Hk.
    destruct Hk as [->|[->|[->|[->|[]%elem_of_nil]]]].
    + exists p. split; [by simplify_map_eq|]. apply Hobs. rewrite Hprices. left.
    + exists (foldr Z.max p ps). split; [by simplify_map_eq|].
      apply Hobs. rewrite Hprices. apply foldr_max_elem.
    + exists (foldr Z.min p ps). split; [by simplify_map_eq|].
      apply Hobs. rewrite Hprices. apply foldr_min_elem.
    + exists (List.last ps p). split; [by simplify_map_eq|].
      apply Hobs. rewrite Hprices. apply last_elem_of.
  - intros r t p Hr Ht Hp.
    assert (Hx : (Some t, p) ∈ df).
    { rewrite Hdf. apply observation_row. by exists r. }
    assert (Hm : floor_minute t ∈ ms) by (apply Hms; by exists (Some t, p)).
    assert (Hin : p ∈ omap (fun x : option Z * Z =>
                    if decide (floor_minute <$> x.1 = Some (floor_minute t))
                    then Some x.2 else None) df).
    { apply list_elem_of_omap. exists (Some t, p). split; [done|].
      simpl. by rewrite decide_True. }
    destruct (omap _ df) as [|q qs] eqn:Hprices; [by apply elem_of_nil in Hin|].
    exists (ohlc_row (floor_minute t) (q :: qs)), (foldr Z.min q qs), (foldr Z.max q qs).
    split.
    { apply list_elem_of_fmap. exists (floor_minute t). by rewrite Hprices. }
    split; [apply ohlc_row_timestamp|].
    split; [by simplify_map_eq|]. split; [by simplify_map_eq|].
    by apply foldr_min_max_bounds.
  - rewrite total_volume_groups, group_sizes.
    + by rewrite Hdf, observations_with_time.
    + done.
    + intros x Hx m Hfm. apply Hms. by exists x.
Qed.

(** *** The derived table *)

Lemma outcome_table o t symbol date interval u :
  outcome o t symbol date interval = inr u ->
  ∃ rows, fix_dataframe o (ohlc_frame rows) = Some (udata u) ∧
          empty (udata u) = false.
Proof.
  unfold outcome. rewrite fetch_underlying_ohlc_run.
  destruct (expirations_of t symbol date) as [e|exps]; [done|].
  destruct (decide (exps = [])); [done|].
  destruct (for_each (take 2 exps) _ _) as [l [e|[u'|]]] eqn:Hrun; simpl;
    [done| |done].
  intros [= ->].
  apply for_each_stop in Hrun as (exp & l0 & Hexp & Hb); [|done].
  rewrite try_expiration_run in Hb.
  destruct (strikes_of t symbol exp date) as [e|strikes] eqn:Hs; [done|].
  destruct (decide (strikes = [])); [done|].
  apply for_each_stop in Hb as (r & l1 & _ & Hr); [|done].
  rewrite try_right_run in Hr. inversion Hr as [[Hl Hd]]. clear Hr.
  destruct (greeks_of t symbol exp (atm_strike strikes) r date)
    as [e|items] eqn:Hg; [done|].
  exists (flatten items). rewrite derived_of_unfold in Hd.
  destruct (usable items); [|done].
  destruct (has_column "timestamp" (flatten items)); [|done].
  destruct (fix_dataframe o (ohlc_frame (flatten items))) as [df|]; [|done].
  destruct (empty df) eqn:He; [done|]. by injection Hd as <-.
Qed.

Lemma designated_ohlc_frame rows :
  designated (ohlc_frame rows) = ["open"; "high"; "low"; "close"]%string.
Proof. reflexivity. Qed.

Lemma candle_cells r :
  candle r ->
  (∃ t, r !! "timestamp"%string = Some t ∧ t mod 60000 = 0) ∧
  (∃ v, r !! "volume"%string = Some v ∧ 1 <= v) ∧
  (∀ l, l ∉ ["timestamp"; "open"; "high"; "low"; "close"; "volume"]%string ->
        r !! l = None).
Proof.
  intros (t & o & h & l & c & v & -> & Ht & _ & _ & Hv).
  split; [exists t; split; [apply lookup_insert_eq|done]|].
  split; [exists v; split; [by simplify_map_eq|done]|].
  intros k Hk. rewrite !not_elem_of_cons in Hk.
  destruct Hk as (? & ? & ? & ? & ? & ? & _).
  by simplify_map_eq.
Qed.

(** The rows of a repaired aggregate, against the candles they come from. *)
Lemma derived_rows o rows (df' : DataFrame) :
  fix_dataframe o (ohlc_frame rows) = Some df' ->
  columns df' = ["timestamp"; "open"; "high"; "low"; "close"; "volume"]%string ∧
  ∀ i r', data df' !! i = Some r' ->
    ∃ c, data (ohlc_frame rows) !! i = Some c ∧ candle c ∧
         ∀ l, l ∉ ["open"; "high"; "low"; "close"]%string -> r' !! l = c !! l.
Proof.
  intros Hfix. split; [by apply fix_dataframe_shape in Hfix as [-> _]|].
  intros i r' Hi'.
  destruct (fix_dataframe_untouched o _ _ i r' Hfix Hi') as (c & Hc & Hsame).
  exists c. split; [done|]. split; [|exact Hsame].
  destruct (ohlc_frame_data rows) as (ms & prices & Hd & _ & _ & Hms).
  pose proof Hc as Hc'. rewrite Hd, list_lookup_fmap in Hc'.
  destruct (ms !! i) as [m|] eqn:Hm; [|done]. simpl in Hc'. injection Hc' as <-.
  destruct (Hms m) as [Hmod Hne]; [by eapply list_elem_of_lookup_2|].
  destruct (prices m) as [|p ps]; [done|]. by apply ohlc_row_candle.
Qed.

(** X17: the table of a derived series has the six columns and at least one
    row; the repair leaves the timestamps and the counts of the aggregate in
    place, so every row has a whole-minute timestamp, strictly later than
    the row before, and a count of at least one. *)
Theorem derived_table_minutes o t symbol date interval u :
  outcome o t symbol date interval = inr u ->
  columns (udata u)
    = ["timestamp"; "open"; "high"; "low"; "close"; "volume"]%string ∧
  data (udata u) ≠ [] ∧
  ascending_minutes (data (udata u)) ∧
  Forall (fun r => ∃ ts v, r !! "timestamp"%string = Some ts ∧ ts mod 60000 = 0 ∧
                           r !! "volume"%string = Some v ∧ 1 <= v)
         (data (udata u)).
Proof.
  intros Hout. apply outcome_table in Hout as (rows & Hfix & Hne).
  destruct (derived_rows o rows (udata u) Hfix) as [Hcols Hrows].
  split; [done|]. split.
  { unfold empty in Hne.
    by apply orb_false_iff in Hne as [_ Hne%bool_decide_eq_false_1]. }
  assert (Hts : ∀ l, l = "timestamp"%string ∨ l = "volume"%string ->
                     l ∉ ["open"; "high"; "low"; "close"]%string).
  { intros l [-> | ->]; rewrite !not_elem_of_cons;
      repeat split; try done; apply not_elem_of_nil. }
  split.
  - intros i j ri rj Hij Hi Hj.
    destruct (Hrows i ri Hi) as (ci & Hci & _ & Hsi).
    destruct (Hrows j rj Hj) as (cj & Hcj & _ & Hsj).
    rewrite Hsi, Hsj by (apply Hts; by left).
    by apply (ohlc_frame_ascending rows i j).
  - apply Forall_lookup. intros i r Hi.
    destruct (Hrows i r Hi) as (c & Hc & Hcandle & Hs).
    destruct (candle_cells c Hcandle) as ((ts & Hts1 & Hmod) & (v & Hv & Hv1) & _).
    exists ts, v. rewrite !Hs by (apply Hts; tauto). done.
Qed.

Lemma derived_table_minutes_witness :
  columns (udata two_expiration_series)
    = ["timestamp"; "open"; "high"; "low"; "close"; "volume"]%string ∧
  data (udata two_expiration_series) ≠ [] ∧
  ascending_minutes (data (udata two_expiration_series)) ∧
  Forall (fun r => ∃ ts v, r !! "timestamp"%string = Some ts ∧ ts mod 60000 = 0 ∧
                           r !! "volume"%string = Some v ∧ 1 <= v)
         (data (udata two_expiration_series)).
Proof.
  apply (derived_table_minutes LabelSorted two_expiration_terminal
           "SPX" "2024-06-05" "1m" two_expiration_series).
  vm_compute. reflexivity.
Defined.

End ClientMore.

(** ** utils.py and pipeline.py *)

Section PipelineMore.

Import Corrector Client Response Utils Pipeline.

#[local] Arguments for_each : simpl never.

(** The outcome of a loop does not depend on the requests logged before. *)
Lemma for_each_frame {X A} (xs : list X) (body : X -> M (option A)) :
  (∀ x l, (body x l).2 = (body x []).2) ->
  ∀ l, (for_each xs body l).2 = (for_each xs body []).2.
Proof.
  intros Hbody. induction xs as [|x xs IH]; intros l; [done|].
  rewrite for_each_cons. unfold mbind, M_bind.
  pose proof (Hbody x l) as Hx.
  destruct (body x l) as [l1 r1], (body x []) as [l0 r0]. simpl in Hx. subst r1.
  destruct r0 as [e|[a|]]; [done|done|].
  by rewrite (IH l1), (IH l0).
Qed.

Lemma try_expiration_frame o t symbol date interval exp l :
  (try_expiration o t symbol date interval exp l).2
  = (try_expiration o t symbol date interval exp []).2.
Proof.
  rewrite !try_expiration_run.
  destruct (strikes_of t symbol exp date) as [e|strikes]; [done|].
  destruct (decide (strikes = [])); [done|].
  assert (Hbody : ∀ r l',
    (try_right o t symbol date interval exp (atm_strike strikes) r l').2
    = (try_right o t symbol date interval exp (atm_strike strikes) r []).2)
    by (intros r l'; by rewrite !try_right_run).
  by rewrite (for_each_frame _ _ Hbody (l ++ _)), (for_each_frame _ _ Hbody ([] ++ _)).
Qed.

Lemma fetch_underlying_ohlc_result o t symbol date interval log :
  (fetch_underlying_ohlc o t symbol date interval log).2
  = outcome o t symbol date interval.
Proof.
  unfold outcome. rewrite !fetch_underlying_ohlc_run.
  destruct (expirations_of t symbol date) as [e|exps]; [done|].
  destruct (decide (exps = [])); [done|].
  pose proof (for_each_frame (take 2 exps) _
    (try_expiration_frame o t symbol date interval)) as Hframe.
  pose proof (Hframe (log ++ [ReqExpirations symbol (format_date date)])) as H1.
  pose proof (Hframe ([] ++ [ReqExpirations symbol (format_date date)])) as H2.
  destruct (for_each _ _ (log ++ _)) as [l1 r1], (for_each _ _ ([] ++ _)) as [l2 r2].
  simpl in H1, H2. rewrite <- H2 in H1. subst r1.
  by destruct r2 as [e|[u|]].
Qed.

(** *** Integrity check and gap fill on a derived table *)

Lemma null_count_zero c (rows : list (gmap string Z)) :
  (∀ r, r ∈ rows -> is_Some (r !! c)) ->
  length (filter (fun r => r !! c = None) rows) = 0%nat.
Proof.
  induction rows as [|r rows IH]; intros Hall; [done|].
  rewrite filter_cons_False.
  - apply IH. intros r' Hr'. apply Hall. by right.
  - destruct (Hall r ltac:(left)) as [v Hv]. congruence.
Qed.

Lemma sum_list_zero {C} (f : C -> nat) (l : list C) :
  (∀ c, c ∈ l -> f c = 0%nat) -> sum_list (f <$> l) = 0%nat.
Proof.
  induction l as [|c l IH]; intros Hall; [done|]. rewrite fmap_cons.
  change (sum_list (f c :: (f <$> l))) with (f c + sum_list (f <$> l))%nat.
  rewrite (Hall c) by left. rewrite IH; [done|].
  intros c' Hc'. apply Hall. by right.
Qed.

Lemma verify_data_integrity_complete (df : DataFrame) :
  empty df = false ->
  (∀ r c, r ∈ data df -> c ∈ columns df -> is_Some (r !! c)) ->
  verify_data_integrity df = true.
Proof.
  intros Hne Hall. unfold verify_data_integrity. rewrite Hne. cbv zeta.
  rewrite sum_list_zero; [done|].
  intros c Hc. apply null_count_zero. intros r Hr. by apply Hall.
Qed.

(** Back- and forward-filling changes nothing when every column is either
    full or empty. *)
Lemma fill_gaps_fixed cols (rows : list (gmap string Z)) :
  (∀ l, l ∈ cols -> (∀ r, r ∈ rows -> is_Some (r !! l)) ∨
                    (∀ r, r ∈ rows -> r !! l = None)) ->
  fill_gaps cols rows = rows.
Proof.
  intros Hcols. apply list_eq. intros i.
  destruct (rows !! i) as [r|] eqn:Hr.
  - destruct (fill_gaps_lookup cols rows i r Hr) as (r' & Hr' & Hcells).
    rewrite Hr'. f_equal. apply map_eq. intros l. rewrite Hcells.
    destruct (decide (l ∈ cols)) as [Hl|Hl]; [|done].
    destruct (Hcols l Hl) as [Hfull|Hnone].
    + destruct (Hfull r) as [v Hv]; [by eapply list_elem_of_lookup_2|].
      erewrite fill_keep; [by rewrite Hv|].
      unfold get_column. by rewrite list_lookup_fmap, Hr, <- Hv.
    + rewrite fill_void.
      * unfold get_column. by rewrite list_lookup_fmap, Hr.
      * unfold get_column. apply Forall_fmap, Forall_forall. intros rk Hk. simpl.
        by apply Hnone.
  - apply lookup_ge_None. rewrite length_fill_gaps. by apply lookup_ge_None.
Qed.

Lemma fix_empty_rows_fixed numeric (df : DataFrame) :
  (∀ r l, r ∈ data df -> l ∈ numeric -> r !! l ≠ Some 0) ->
  (∀ l, l ∈ columns df -> (∀ r, r ∈ data df -> is_Some (r !! l)) ∨
                          (∀ r, r ∈ data df -> r !! l = None)) ->
  fix_empty_rows numeric df = df.
Proof.
  intros Hnz Hcols. unfold fix_empty_rows. cbv zeta.
  assert (H1 : replace_zero numeric <$> data df = data df).
  { rewrite <- (list_fmap_id (data df)) at 2.
    apply list_fmap_ext. intros i r Hr. simpl.
    apply replace_zero_id. intros l Hl.
    apply (Hnz r l); [by eapply list_elem_of_lookup_2|done]. }
  rewrite H1, fill_gaps_fixed by done. by destruct df.
Qed.

(** The integrity check passes a derived table, or the gap fill has
    nothing to change in it. *)
Lemma checked_table_derived o rows numeric (u : UnderlyingData) :
  fix_dataframe o (ohlc_frame rows) = Some (udata u) ->
  "timestamp"%string ∉ numeric (udata u) ->
  checked_table numeric u = udata u.
Proof.
  intros Hfix Hts. unfold checked_table. cbv zeta.
  destruct (verify_data_integrity (udata u)) eqn:Hver; [done|]. simpl.
  destruct (derived_rows o rows (udata u) Hfix) as [Hcols Hrows].
  assert (Hcell : ∀ r', r' ∈ data (udata u) ->
    is_Some (r' !! "timestamp"%string) ∧
    (∃ v, r' !! "volume"%string = Some v ∧ 1 <= v) ∧
    (∀ l, l ∉ ["timestamp"; "open"; "high"; "low"; "close"; "volume"]%string ->
          r' !! l = None)).
  { intros r' [i Hi]%list_elem_of_lookup.
    destruct (Hrows i r' Hi) as (c & _ & Hcandle & Hsame).
    destruct (candle_cells c Hcandle) as ((ts & Ht & _) & (v & Hv & Hv1) & Hout).
    split; [|split].
    - rewrite Hsame, Ht; [by eexists|].
      rewrite !not_elem_of_cons. repeat split; try done. apply not_elem_of_nil.
    - exists v. rewrite Hsame; [done|].
      rewrite !not_elem_of_cons. repeat split; try done. apply not_elem_of_nil.
    - intros l Hl. rewrite Hsame; [by apply Hout|].
      rewrite !not_elem_of_cons in Hl. rewrite !not_elem_of_cons.
      repeat split; tauto. }
  destruct (fix_dataframe_complete_or_void o _ _ Hfix) as [Hc|Hv];
    rewrite designated_ohlc_frame in *.
  - destruct (data (udata u)) as [|r0 rest] eqn:Hdata.
    + apply fix_empty_rows_fixed; rewrite Hdata.
      * intros r l Hr. by apply elem_of_nil in Hr.
      * intros l _. left. intros r Hr. by apply elem_of_nil in Hr.
    + exfalso. rewrite verify_data_integrity_complete in Hver; [done| |].
      * unfold empty. rewrite Hcols, Hdata. done.
      * intros r c Hr Hcin. rewrite Hcols in Hcin. rewrite Hdata in Hr.
        destruct (Hcell r Hr) as (Ht & (v & Hvol & _) & _).
        destruct (decide (c ∈ ["open"; "high"; "low"; "close"]%string)) as [Hd|Hd];
          [by apply Hc|].
        rewrite !elem_of_cons in Hcin. rewrite !not_elem_of_cons in Hd.
        destruct Hcin as [->|[->|[->|[->|[->|[->|[]%elem_of_nil]]]]]];
          try tauto. by rewrite Hvol.
  - apply fix_empty_rows_fixed.
    + intros r l Hr Hl Hz.
      destruct (Hcell r Hr) as (_ & (v & Hvol & Hv1) & Hout).
      destruct (decide (l ∈ ["open"; "high"; "low"; "close"]%string)) as [Hd|Hd];
        [rewrite (Hv r Hr l Hd) in Hz; done|].
      destruct (decide (l = "timestamp"%string)) as [->|Hnt]; [done|].
      destruct (decide (l = "volume"%string)) as [->|Hnv];
        [rewrite Hvol in Hz; injection Hz as ->; lia|].
      rewrite Hout in Hz; [done|].
      rewrite !not_elem_of_cons in Hd. rewrite !not_elem_of_cons.
      repeat split; tauto.
    + rewrite Hcols. intros l Hl.
      destruct (decide (l ∈ ["open"; "high"; "low"; "close"]%string)) as [Hd|Hd];
        [right; intros r Hr; by apply Hv|].
      left. intros r Hr.
      destruct (Hcell r Hr) as (Ht & (v & Hvol & _) & _).
      rewrite !elem_of_cons in Hl. rewrite !not_elem_of_cons in Hd.
      destruct Hl as [->|[->|[->|[->|[->|[->|[]%elem_of_nil]]]]]];
        try tauto. by rewrite Hvol.
Qed.

(** X18: the underlying pipeline writes, for each symbol whose derivation
    succeeds and in the order of the symbols, exactly the table the client
    derived: the integrity check passes it, or the gap fill has nothing to
    change in it; a symbol whose derivation raises is skipped and does not
    stop the symbols after it. *)
Theorem pipeline_saves_client_tables o t numeric symbols date log saved :
  (∀ df, "timestamp"%string ∉ numeric df) ->
  (run_underlying_pipeline o t numeric symbols date log saved).2
  = saved ++ client_tables o t symbols date.
Proof.
  intros Hts. revert log saved.
  induction symbols as [|symbol rest IH]; intros log saved.
  - simpl. by rewrite app_nil_r.
  - simpl.
    pose proof (fetch_underlying_ohlc_result o t symbol date "1m" log) as Hres.
    destruct (fetch_underlying_ohlc o t symbol date "1m" log) as [log' res].
    simpl in Hres. unfold client_tables. simpl. rewrite <- Hres.
    destruct res as [e|u].
    + apply IH.
    + rewrite IH, <- app_assoc. simpl.
      symmetry in Hres. apply outcome_table in Hres as (rows & Hfix & _).
      by rewrite (checked_table_derived o rows numeric u Hfix (Hts _)).
Qed.

Lemma pipeline_saves_client_tables_witness :
  (run_underlying_pipeline LabelSorted two_expiration_terminal ohlc_numeric
     ["SPX"%string] "2024-06-05" [] []).2
  = [] ++ client_tables LabelSorted two_expiration_terminal
            ["SPX"%string] "2024-06-05".
Proof.
  apply (pipeline_saves_client_tables LabelSorted two_expiration_terminal
           ohlc_numeric ["SPX"%string] "2024-06-05" [] []).
  intros df [Hne _]%list_elem_of_filter. by apply Hne.
Defined.

(** *** The gap fill of utils.py *)

Lemma fill_full_or_void (col : list (option Z)) :
  (∀ i, (i < length col)%nat -> ∃ w, ffill (bfill col) !! i = Some (Some w)) ∨
  Forall (fun x => x = None) col.
Proof.
  destruct (Forall_Exists_dec (fun x : option Z => x = None)
              (fun x => x ≠ None) (fun x => decide (x = None)) col) as [Hall|Hex];
    [by right|left].
  apply Exists_exists in Hex as (x & Hx & Hne).
  apply list_elem_of_lookup in Hx as [j Hj].
  destruct x as [v|]; [|done].
  intros i Hi. by apply (fill_total col i j v).
Qed.

Lemma fix_empty_rows_cells numeric (df : DataFrame) i r' :
  data (fix_empty_rows numeric df) !! i = Some r' ->
  ∃ r, data df !! i = Some r ∧
    ∀ l, r' !! l =
         if decide (l ∈ columns df)
         then mjoin (ffill (bfill (get_column l
                 (replace_zero numeric <$> data df))) !! i)
         else replace_zero numeric r !! l.
Proof.
  unfold fix_empty_rows. cbv zeta. cbn [data columns]. intros Hi'.
  assert (Hlt : (i < length (data df))%nat).
  { apply lookup_lt_Some in Hi'.
    by rewrite length_fill_gaps, length_fmap in Hi'. }
  apply lookup_lt_is_Some in Hlt as [r Hr].
  exists r. split; [done|].
  destruct (fill_gaps_lookup (columns df) (replace_zero numeric <$> data df) i
              (replace_zero numeric r)) as (r'' & Hr'' & Hcells).
  { by rewrite list_lookup_fmap, Hr. }
  assert (r'' = r') as -> by congruence. exact Hcells.
Qed.

Lemma replace_zero_nonzero numeric (r : gmap string Z) l :
  l ∈ numeric -> replace_zero numeric r !! l ≠ Some 0.
Proof.
  intros Hl. rewrite replace_zero_lookup.
  destruct (decide (l ∈ numeric ∧ r !! l = Some 0)) as [|Hn]; [done|].
  intros Hz. apply Hn. by split.
Qed.

Lemma fix_empty_rows_nonzero numeric (df : DataFrame) r' l :
  r' ∈ data (fix_empty_rows numeric df) -> l ∈ numeric -> r' !! l ≠ Some 0.
Proof.
  intros [i Hi]%list_elem_of_lookup Hl Hz.
  destruct (fix_empty_rows_cells numeric df i r' Hi) as (r & Hr & Hcells).
  rewrite Hcells in Hz. destruct (decide (l ∈ columns df)).
  - destruct (ffill _ !! i) as [[w|]|] eqn:Hf; simplify_eq/=.
    apply fill_source in Hf as [j Hj].
    unfold get_column in Hj. rewrite !list_lookup_fmap in Hj.
    destruct (data df !! j) as [rj|]; simplify_eq/=.
    by apply (replace_zero_nonzero numeric rj l).
  - by apply (replace_zero_nonzero numeric r l).
Qed.

Lemma fix_empty_rows_fills numeric (df : DataFrame) l r' :
  l ∈ columns df ->
  (∃ r v, r ∈ data df ∧ r !! l = Some v ∧ (l ∈ numeric -> v ≠ 0)) ->
  r' ∈ data (fix_empty_rows numeric df) -> is_Some (r' !! l).
Proof.
  intros Hl (r & v & [j Hj]%list_elem_of_lookup & Hv & Hvz)
    [i Hi]%list_elem_of_lookup.
  destruct (fix_empty_rows_cells numeric df i r' Hi) as (ri & Hri & Hcells).
  rewrite Hcells, decide_True by done.
  destruct (fill_total (get_column l (replace_zero numeric <$> data df)) i j v)
    as [w Hw].
  - unfold get_column. rewrite !list_lookup_fmap, Hj. simpl.
    rewrite replace_zero_lookup, Hv.
    destruct (decide (l ∈ numeric ∧ Some v = Some 0)) as [[Hn [= ->]]|]; [|done].
    by destruct (Hvz Hn).
  - unfold get_column. rewrite !length_fmap. by eapply lookup_lt_Some.
  - rewrite Hw. by eexists.
Qed.

Lemma length_fix_empty_rows numeric (df : DataFrame) :
  length (data (fix_empty_rows numeric df)) = length (data df).
Proof.
  unfold fix_empty_rows. cbn [data]. by rewrite length_fill_gaps, length_fmap.
Qed.

(** X23: [fix_empty_rows] keeps the columns and the number of rows, leaves
    no zero in a numeric column, leaves no missing cell in a column that
    holds a value (a non-zero one, if the column is numeric), and applied to
    its own result changes nothing. *)
Theorem fix_empty_rows_result numeric (df : DataFrame) :
  columns (fix_empty_rows numeric df) = columns df ∧
  length (data (fix_empty_rows numeric df)) = length (data df) ∧
  (∀ r' l, r' ∈ data (fix_empty_rows numeric df) -> l ∈ numeric ->
           r' !! l ≠ Some 0) ∧
  (∀ l, l ∈ columns df ->
        (∃ r v, r ∈ data df ∧ r !! l = Some v ∧ (l ∈ numeric -> v ≠ 0)) ->
        ∀ r', r' ∈ data (fix_empty_rows numeric df) -> is_Some (r' !! l)) ∧
  fix_empty_rows numeric (fix_empty_rows numeric df) = fix_empty_rows numeric df.
Proof.
  split; [done|]. split; [apply length_fix_empty_rows|].
  split; [intros r' l; apply fix_empty_rows_nonzero|].
  split; [intros l Hl Hex r'; by apply fix_empty_rows_fills|].
  apply fix_empty_rows_fixed; [intros r' l; apply fix_empty_rows_nonzero|].
  intros l Hl. change (columns (fix_empty_rows numeric df)) with (columns df) in Hl.
  destruct (fill_full_or_void
    (get_column l (replace_zero numeric <$> data df))) as [Hfull|Hvoid].
  - left. intros r' [i Hi]%list_elem_of_lookup.
    destruct (fix_empty_rows_cells numeric df i r' Hi) as (ri & Hri & Hcells).
    rewrite Hcells, decide_True by done.
    destruct (Hfull i) as [w Hw].
    { unfold get_column. rewrite !length_fmap. by eapply lookup_lt_Some. }
    rewrite Hw. by eexists.
  - right. intros r' [i Hi]%list_elem_of_lookup.
    destruct (fix_empty_rows_cells numeric df i r' Hi) as (ri & Hri & Hcells).
    rewrite Hcells, decide_True by done.
    rewrite fill_void by done.
    unfold get_column. rewrite !list_lookup_fmap, Hri. simpl.
    rewrite Forall_forall in Hvoid. apply Hvoid.
    unfold get_column. apply list_elem_of_fmap.
    exists (replace_zero numeric ri). split; [done|].
    apply list_elem_of_fmap. exists ri. split; [done|].
    by eapply list_elem_of_lookup_2.
Qed.

Lemma sum_list_zero_inv (l : list nat) :
  sum_list l = 0%nat -> Forall (fun n => n = 0%nat) l.
Proof.
  induction l as [|n l IH]; [constructor|].
  change (sum_list (n :: l)) with (n + sum_list l)%nat. intros Hs.
  constructor; [lia|apply IH; lia].
Qed.

Lemma verify_data_integrity_inv (df : DataFrame) :
  verify_data_integrity df = true ->
  empty df = false ∧
  ∀ r c, r ∈ data df -> c ∈ columns df -> is_Some (r !! c).
Proof.
  unfold verify_data_integrity. destruct (empty df); [done|]. cbv zeta.
  destruct (decide (0 < sum_list _)%nat) as [|Hs]; [done|]. intros _.
  split; [done|]. intros r c Hr Hc.
  assert (Hz : sum_list ((fun c => length (filter (fun r => r !! c = None) (data df)))
                           <$> columns df) = 0%nat) by lia.
  apply sum_list_zero_inv in Hz. rewrite Forall_fmap, Forall_forall in Hz.
  specialize (Hz c Hc). simpl in Hz. apply nil_length_inv in Hz.
  apply not_eq_None_Some. intros Hnone.
  assert (Hin : r ∈ filter (fun r => r !! c = None) (data df))
    by (by apply list_elem_of_filter).
  rewrite Hz in Hin. by apply elem_of_nil in Hin.
Qed.

(** X24: after [fix_empty_rows] a table passes [verify_data_integrity]
    exactly when it is not empty and every column holds a value (a non-zero
    one, if the column is numeric). *)
Theorem fix_empty_rows_valid_iff numeric (df : DataFrame) :
  verify_data_integrity (fix_empty_rows numeric df) = true <->
  empty df = false ∧
  ∀ l, l ∈ columns df ->
       ∃ r v, r ∈ data df ∧ r !! l = Some v ∧ (l ∈ numeric -> v ≠ 0).
Proof.
  assert (Hem : empty (fix_empty_rows numeric df) = empty df).
  { unfold empty. change (columns (fix_empty_rows numeric df)) with (columns df).
    f_equal. pose proof (length_fix_empty_rows numeric df) as Hlen.
    destruct (data df), (data (fix_empty_rows numeric df)); done. }
  split.
  - intros [Hne Hall]%verify_data_integrity_inv. rewrite Hem in Hne.
    split; [done|]. intros l Hl.
    assert (Hrow : ∃ r', data (fix_empty_rows numeric df) !! 0%nat = Some r').
    { apply lookup_lt_is_Some. rewrite length_fix_empty_rows.
      unfold empty in Hne. apply orb_false_iff in Hne as [_ Hd].
      apply bool_decide_eq_false_1 in Hd. destruct (data df); [done|simpl; lia]. }
    destruct Hrow as [r' Hr'].
    destruct (Hall r' l) as [w Hw]; [by eapply list_elem_of_lookup_2|done|].
    destruct (fix_empty_rows_cells numeric df 0 r' Hr') as (r0 & _ & Hcells).
    rewrite Hcells, decide_True in Hw by done.
    destruct (ffill _ !! 0%nat) as [[w'|]|] eqn:Hf; simplify_eq/=.
    apply fill_source in Hf as [j Hj].
    unfold get_column in Hj. rewrite !list_lookup_fmap in Hj.
    destruct (data df !! j) as [rj|] eqn:Hrj; simplify_eq/=.
    rewrite replace_zero_lookup in Hj.
    destruct (decide (l ∈ numeric ∧ rj !! l = Some 0)) as [|Hn]; [done|].
    exists rj, w. split; [by eapply list_elem_of_lookup_2|]. split; [done|].
    intros Hnum ->. by apply Hn.
  - intros [Hne Hall]. apply verify_data_integrity_complete; [by rewrite Hem|].
    intros r' c Hr' Hc. by apply (fix_empty_rows_fills numeric df c r' Hc (Hall c Hc)).
Qed.

(** *** The option pipeline *)

Lemma option_symbol_result t numeric str symbol date log files :
  ∃ added,
    (option_symbol t numeric str symbol date (log, files)).1
      = (log ++ added, files) ∧
    (length added <= 2)%nat ∧ Forall listing_request added.
Proof.
  unfold option_symbol, requesting, of_sum, mbind, ST_bind, mret, ST_ret.
  cbn [fst snd]. rewrite get_expirations_run. cbn [fst snd].
  assert (Hone : ∃ added,
    (log ++ [ReqExpirations symbol (format_date date)], files)
      = (log ++ added, files) ∧ (length added <= 2)%nat ∧
    Forall listing_request added).
  { eexists. split; [done|]. split; [simpl; lia|]. by repeat constructor. }
  destruct (expirations_of t symbol date) as [e|[|target_exp exps]]; [done|done|].
  cbn [fst snd]. rewrite get_strikes_run. cbn [fst snd].
  assert (Htwo : ∃ added,
    ((log ++ [ReqExpirations symbol (format_date date)])
       ++ [ReqStrikes symbol target_exp (format_date date)], files)
      = (log ++ added, files) ∧ (length added <= 2)%nat ∧
    Forall listing_request added).
  { exists [ReqExpirations symbol (format_date date);
            ReqStrikes symbol target_exp (format_date date)].
    rewrite <- app_assoc. split; [done|]. split; [simpl; lia|].
    by repeat constructor. }
  destruct (strikes_of t symbol target_exp date) as [e|strikes]; [done|].
  by destruct (decide (strikes = [])).
Qed.

(** X22: the option pipeline writes no file.  For each symbol it lists the
    expirations and, when there is one, the strikes of the first; then it
    calls [fetch_option_data], which the client does not define: the
    attribute error is logged and the next symbol follows.  It makes at
    most two requests per symbol, all of them listings. *)
Theorem option_pipeline_writes_nothing t numeric str symbols date log files :
  ∃ added,
    run_option_pipeline t numeric str symbols date (log, files)
      = (log ++ added, files) ∧
    (length added <= 2 * length symbols)%nat ∧
    Forall listing_request added.
Proof.
  revert log. induction symbols as [|symbol rest IH]; intros log.
  - exists []. simpl. by rewrite app_nil_r.
  - simpl.
    destruct (option_symbol_result t numeric str symbol date log files)
      as (a1 & -> & Hk1 & Hok1).
    destruct (IH (log ++ a1)) as (a2 & -> & Hk2 & Hok2).
    exists (a1 ++ a2). rewrite app_assoc. split; [done|].
    split; [rewrite length_app; lia|by apply Forall_app].
Qed.

End PipelineMore.

(** ** bulk.py and realtime.py *)

Section ResponseMore.

Import Client Response Bulk Realtime.

Lemma for__state {S X} (xs : list X) (body : X -> ST S unit) :
  (∀ x s, (body x s).1 = s) -> ∀ s, (for_ xs body s).1 = s.
Proof.
  intros Hbody. induction xs as [|x xs IH]; intros s; [done|].
  simpl. unfold mbind, ST_bind.
  pose proof (Hbody x s) as Hx.
  destruct (body x s) as [s1 [e|[]]]; simpl in Hx; subst s1; [done|apply IH].
Qed.

Lemma for__done {S X} (xs : list X) (body : X -> ST S unit) s :
  (∀ x s, (body x s).1 = s) ->
  (for_ xs body s).2 = inr () -> Forall (fun x => (body x s).2 = inr ()) xs.
Proof.
  intros Hbody. induction xs as [|x xs IH]; intros Hrun; [constructor|].
  simpl in Hrun. unfold mbind, ST_bind in Hrun.
  pose proof (Hbody x s) as Hx.
  destruct (body x s) as [s1 [e|[]]] eqn:Hb; simpl in Hx; subst s1; [done|].
  constructor; [by rewrite Hb|by apply IH].
Qed.

Section WorkerFacts.

Context {V : Type}.
Variable strftime : Z -> string.
Variable year : Z -> Z.
Variable date_of_compact : string -> option Z.
Variable fromisoformat : string -> option Z.

Lemma load_year_result (t : BulkTerminal) closed y (files : list (parquet V)) :
  (load_year fromisoformat t closed y files).1 = files ∧
  ∀ closed', (load_year fromisoformat t closed y files).2 = inr closed' ->
    closed' = closed ∧ ∃ resp, year_holidays t y = Some resp ∧ truthy resp = false.
Proof.
  unfold load_year, answer, of_option, of_sum, mbind, ST_bind, mret, ST_ret.
  destruct (year_holidays t y) as [resp|]; [|done].
  destruct (truthy resp) eqn:Htr; simpl; [done|].
  split; [done|]. intros closed' [= <-]. split; [done|]. by exists resp.
Qed.

Lemma load_holidays_result (t : BulkTerminal) years closed
    (files : list (parquet V)) :
  (load_holidays fromisoformat t years closed files).1 = files ∧
  ∀ closed', (load_holidays fromisoformat t years closed files).2 = inr closed' ->
    closed' = closed ∧
    Forall (fun y => ∃ resp, year_holidays t y = Some resp ∧ truthy resp = false)
           years.
Proof.
  revert closed. induction years as [|y years IH]; intros closed.
  - split; [done|]. by intros closed' [= <-].
  - simpl. unfold mbind, ST_bind.
    destruct (load_year_result t closed y files) as [H1 H2].
    destruct (load_year fromisoformat t closed y files) as [f1 [e|c1]];
      simpl in H1; subst f1; [done|].
    destruct (H2 c1 eq_refl) as [-> Hy].
    destruct (IH closed) as [H3 H4]. split; [done|].
    intros closed' Hrun. destruct (H4 closed' Hrun) as [-> Hall].
    split; [done|]. by constructor.
Qed.

Lemma download_state (t : BulkTerminal) symbol day exp e
    (files : list (parquet V)) :
  (download strftime t symbol day exp e files).1 = files.
Proof.
  unfold download, answer, of_option, of_sum, mbind, ST_bind, mret, ST_ret.
  destruct (option_history t e.2 symbol (strftime exp) (strftime day))
    as [resp|]; [|done].
  by destruct (truthy resp).
Qed.

Lemma process_day_state (t : BulkTerminal) symbol closed day
    (files : list (parquet V)) :
  (process_day strftime date_of_compact t symbol closed day files).1 = files.
Proof.
  unfold process_day, call, of_option, of_sum, mbind, ST_bind, mret, ST_ret.
  destruct ((get_expirations (terminal t) symbol (strftime day) []).2)
    as [e|exps]; [done|].
  destruct (decide (exps = [])); [done|].
  destruct (mapM date_of_compact exps) as [avail|]; [|done].
  apply for__state. intros exp s. apply for__state. intros e s'.
  apply download_state.
Qed.

(** X19: the bulk worker writes no file and records no closed date.  It
    reads [status_code] from the parsed JSON body it is handed, which
    raises for every body that is not empty and ends the work; an empty
    body is skipped.  So the holiday loop ends normally only when every
    year's body is empty, and then with the set of closed dates as it
    was. *)
Theorem bulk_worker_writes_nothing (t : BulkTerminal) symbol start_date end_date :
  _worker_main (V:=V) strftime year date_of_compact fromisoformat t symbol
    start_date end_date = [] ∧
  ∀ years closed (files : list (parquet V)) closed',
    (load_holidays fromisoformat t years closed files).2 = inr closed' ->
    closed' = closed ∧
    Forall (fun y => ∃ resp, year_holidays t y = Some resp ∧ truthy resp = false)
           years.
Proof.
  split.
  - unfold _worker_main, worker_body. cbv zeta. unfold mbind, ST_bind.
    destruct (load_holidays_result t
      (seqZ (year start_date) (year end_date + 1 - year start_date)) ∅ [])
      as [H1 _].
    destruct (load_holidays _ _ _ _ _) as [f1 [e|closed]];
      simpl in H1; subst f1; [done|].
    apply for__state. intros day s. apply process_day_state.
  - intros years closed files closed'. apply load_holidays_result.
Qed.

End WorkerFacts.

Lemma poll_symbol_result (t : FeedTerminal) now_str symbol self :
  (poll_symbol t now_str symbol self).1 = self ∧
  ((poll_symbol t now_str symbol self).2 = inr () ->
   ∃ resp start_t,
     history_ohlc t (endpoint_of symbol) symbol start_t now_str = Some resp ∧
     truthy resp = false).
Proof.
  unfold poll_symbol, answer, of_option, of_sum, mbind, ST_bind, mret, ST_ret.
  cbv zeta.
  destruct (history_ohlc t (endpoint_of symbol) symbol _ now_str)
    as [resp|] eqn:Hresp; [|done].
  destruct (truthy resp) eqn:Htr; simpl; [done|].
  split; [done|]. intros _. by eexists _, _.
Qed.

(** X20: a poll cycle changes neither the session tables nor the last
    candle times.  It reads [status_code] from the parsed JSON body it is
    handed, which raises for every body that is not empty; the cycle ends
    normally only when the body of every symbol is empty. *)
Theorem poll_cycle_updates_nothing (t : FeedTerminal) now_str symbols self :
  (poll_cycle t now_str symbols self).1 = self ∧
  ((poll_cycle t now_str symbols self).2 = inr () ->
   Forall (fun symbol => ∃ resp start_t,
             history_ohlc t (endpoint_of symbol) symbol start_t now_str = Some resp ∧
             truthy resp = false) symbols).
Proof.
  unfold poll_cycle. split.
  - apply for__state. intros symbol s. apply poll_symbol_result.
  - intros Hrun.
    apply for__done in Hrun; [|intros symbol s; apply poll_symbol_result].
    eapply Forall_impl; [exact Hrun|]. intros symbol Hs.
    by apply poll_symbol_result in Hs.
Qed.

(** *** Duplicates in the session *)

Lemma drop_duplicates_last_elem subset df r :
  r ∈ drop_duplicates_last subset df <->
  ∃ l1 l2, df = l1 ++ r :: l2 ∧ subset_key subset r ∉ subset_key subset <$> l2.
Proof.
  induction df as [|x df IH]; simpl.
  - split; [by intros ?%elem_of_nil|]. intros (l1 & l2 & Hl & _).
    by destruct l1.
  - split.
    + intros Hr.
      assert (Hcase : (r = x ∧ subset_key subset x ∉ subset_key subset <$> df) ∨
                      r ∈ drop_duplicates_last subset df).
      { destruct (decide (subset_key subset x ∈ subset_key subset <$> df));
          [by right|].
        apply elem_of_cons in Hr as [->|Hr]; [by left|by right]. }
      destruct Hcase as [[-> Hx]|Hin].
      * by exists [], df.
      * apply IH in Hin as (l1 & l2 & -> & Hl2). by exists (x :: l1), l2.
    + intros (l1 & l2 & Hl & Hl2). destruct l1 as [|y l1]; simplify_eq/=.
      * rewrite decide_False by done. left.
      * assert (Hin : r ∈ drop_duplicates_last subset (l1 ++ r :: l2))
          by (apply IH; by exists l1, l2).
        destruct (decide _); [done|by right].
Qed.

Lemma drop_duplicates_last_sublist subset df :
  drop_duplicates_last subset df `sublist_of` df.
Proof.
  induction df as [|x df IH]; simpl; [done|].
  destruct (decide _); [by apply sublist_cons|by apply sublist_skip].
Qed.

Lemma drop_duplicates_last_nodup subset df :
  NoDup (subset_key subset <$> drop_duplicates_last subset df).
Proof.
  induction df as [|x df IH]; simpl; [constructor|].
  destruct (decide _) as [|Hx]; [done|].
  rewrite fmap_cons. constructor; [|done].
  intros Hin. apply Hx.
  apply list_elem_of_fmap in Hin as (r & Hk & Hr).
  apply list_elem_of_fmap. exists r. split; [done|].
  eapply elem_of_sublist; [done|apply drop_duplicates_last_sublist].
Qed.

(** X21: [_update_session] stores the table of a key it sees for the first
    time as it is.  For a key it already holds it appends the new rows and,
    when the three key columns exist, keeps of the rows that agree on them
    only the last, in order; when one of the columns does not exist it
    raises after the concatenation is stored.  The tables of the other keys
    and the last candle times stay as they were. *)
Theorem update_session_result key df (self : RealtimeFeed) :
  match session_data self !! key with
  | None =>
      (_update_session key df self).2 = inr () ∧
      session_data (_update_session key df self).1 !! key = Some df
  | Some old =>
      ((_update_session key df self).2 = inr () ∧
       Forall (fun c => in_columns c (old ++ df) = true) SUBSET ∧
       ∃ rows, session_data (_update_session key df self).1 !! key = Some rows ∧
               latest_per_key (old ++ df) rows) ∨
      ((_update_session key df self).2 = inl KeyError ∧
       Exists (fun c => in_columns c (old ++ df) = false) SUBSET ∧
       session_data (_update_session key df self).1 !! key = Some (old ++ df))
  end ∧
  (∀ k, k ≠ key ->
        session_data (_update_session key df self).1 !! k = session_data self !! k) ∧
  last_candle_time (_update_session key df self).1 = last_candle_time self.
Proof.
  unfold _update_session.
  destruct (session_data self !! key) as [old|] eqn:Hold.
  - cbv zeta.
    destruct (forallb (fun c => in_columns c (old ++ df)) SUBSET) eqn:Hcols; simpl.
    + split; [|split; [intros k Hk; by rewrite lookup_insert_ne|done]].
      left. split; [done|]. split.
      { rewrite forallb_forall in Hcols. apply Forall_forall.
        intros c Hc. apply Hcols. by apply list_elem_of_In. }
      exists (drop_duplicates_last SUBSET (old ++ df)).
      split; [by rewrite lookup_insert_eq|].
      split; [apply drop_duplicates_last_sublist|].
      split; [apply drop_duplicates_last_nodup|].
      intros r. apply drop_duplicates_last_elem.
    + split; [|split; [intros k Hk; by rewrite lookup_insert_ne|done]].
      right. split; [done|]. split; [|by rewrite lookup_insert_eq].
      apply forallb_false_exists in Hcols as (c & Hc & Hf).
      apply Exists_exists. by exists c.
  - simpl. split; [by rewrite lookup_insert_eq|].
    split; [intros k Hk; by rewrite lookup_insert_ne|done].
Qed.

End ResponseMore.
